(** * Courier analytics: reconciliation and flagging pipeline

    A shallow embedding of the data-processing module
    ([utils/dataProcessing]: date parsing, carrier normalizers, outlier
    detection, KPI aggregation, filters, CSV export), of the pipeline of
    the application ([App]) and of the data that the dashboard derives
    ([Dashboard]), with the theorems that settle the specification's
    claims about them and further properties of the code.

    Conventions of the embedding.
    - A JavaScript [number] is an exact rational ([Q]): finite, and without
      the rounding of binary floating point; [NaN], where a built-in can
      produce it, is the [None] of an [option Q].  Comparisons are the
      boolean ones of the source ([<], [>], [>=], [===]).  A sum, a
      difference, a product or a quotient is the exact one: where the
      rounded result of the code lies on the other side of a threshold, or
      underflows to 0, the embedding differs from the code.  The theorems
      on the weights and their flags are stated with the bounds that
      rounding to the nearest double, which is monotone, keeps.
    - A JavaScript string is a [string]; a character is an [ascii], and
      the white space that [trim] removes is that of the ASCII range.
    - An array of object references is a list; the position in the list is
      the identity of the object, and an in-place mutation of the object at
      position [i] is [alter f i] on the list.
    - An object used as a dictionary is [JSObject.t]: own properties in
      creation order, enumerated the way [Object.entries] enumerates them.
    - Built-ins of the host whose result the language leaves to the
      implementation or to the environment (the clock, [parseFloat] on text,
      date-fns) are variables of the section that uses them. *)

From Stdlib Require Import ZArith QArith Qround Lia Lqa Ascii DecimalString
  DecimalN Sorted.
From stdpp Require Import base option list strings sorting.

Open Scope Q_scope.
Open Scope list_scope.

(** ** Numbers *)

Abbreviation number := Q.

Definition Qltb (x y : Q) : bool := negb (Qle_bool y x).
Definition Qgtb (x y : Q) : bool := Qltb y x.
Definition Qgeb (x y : Q) : bool := Qle_bool y x.

(** [x < y] where [y] may be [undefined]: [undefined] converts to [NaN] and
    every comparison with [NaN] is false. *)
Definition lt_num_opt (x : Q) (y : option Q) : bool :=
  match y with Some y => Qltb x y | None => false end.
Definition gt_num_opt (x : Q) (y : option Q) : bool :=
  match y with Some y => Qgtb x y | None => false end.

(** [Math.floor] of a number that is used as an array index.  The detector
    takes it of [n * 0.05] and [n * 0.95] for an array length [n]; the
    binary products have the same floor as the exact ones (the nearest
    double of [0.05] lies above it and that of [0.95] less than half a unit
    in the last place below it, so a product that is an integer exactly is
    rounded to that integer or above). *)
Definition Math_floor (x : Q) : nat := Z.to_nat (Qfloor x).

Definition num_of_nat (n : nat) : Q := inject_Z (Z.of_nat n).

(** ** [Array.prototype.sort] with a comparator

    [before a b] says that the comparator is negative on [(a, b)].  The sort
    of the language is stable, so for a consistent comparator its result is
    the stable insertion sort. *)

Fixpoint sort_insert {A} (before : A -> A -> bool) (x : A) (l : list A) : list A :=
  match l with
  | [] => [x]
  | y :: l' => if before y x then y :: sort_insert before x l' else x :: y :: l'
  end.

Definition Array_sort {A} (before : A -> A -> bool) (l : list A) : list A :=
  foldr (sort_insert before) [] l.

(** ** Objects used as dictionaries

    Own string-keyed properties in creation order.  Reading [o[k]] finds an
    own property, or else a property inherited from [Object.prototype], or
    else [undefined].  [Object.entries], [Object.values] and [Object.keys]
    enumerate the own keys that are array indices in ascending numeric
    order first, then the other keys in creation order. *)

Module JSObject.

Definition t (V : Type) := list (string * V).

Definition empty {V} : t V := [].

Definition Object_prototype_names : list string :=
  ["constructor"; "__defineGetter__"; "__defineSetter__"; "hasOwnProperty";
   "__lookupGetter__"; "__lookupSetter__"; "isPrototypeOf";
   "propertyIsEnumerable"; "toString"; "valueOf"; "__proto__";
   "toLocaleString"].

Definition inherited (k : string) : bool :=
  existsb (String.eqb k) Object_prototype_names.

Fixpoint get_own {V} (o : t V) (k : string) : option V :=
  match o with
  | [] => None
  | (k', v) :: o' => if String.eqb k' k then Some v else get_own o' k
  end.

Inductive property (V : Type) :=
| Own (v : V)
| Inherited
| Undefined.
Arguments Own {V} v.
Arguments Inherited {V}.
Arguments Undefined {V}.

Definition get {V} (o : t V) (k : string) : property V :=
  match get_own o k with
  | Some v => Own v
  | None => if inherited k then Inherited else Undefined
  end.

(** [o[k] = v]: an existing own property keeps its place, a new one is
    created last. *)
Fixpoint set {V} (o : t V) (k : string) (v : V) : t V :=
  match o with
  | [] => [(k, v)]
  | (k', v') :: o' =>
      if String.eqb k' k then (k', v) :: o' else (k', v') :: set o' k v
  end.

Definition is_digit (c : ascii) : bool :=
  let n := nat_of_ascii c in (48 <=? n)%nat && (n <=? 57)%nat.

Definition digit_value (c : ascii) : N := (N_of_ascii c - 48)%N.

Fixpoint digits_value (s : string) (acc : N) : option N :=
  match s with
  | EmptyString => Some acc
  | String c s' =>
      if is_digit c then digits_value s' (10 * acc + digit_value c)%N else None
  end.

(** An array index is the canonical decimal rendering of an integer in
    [0 .. 2^32 - 2]: digits only, no leading zero except for ["0"]. *)
Definition array_index (k : string) : option N :=
  match k with
  | EmptyString => None
  | String c rest =>
      if Ascii.eqb c "0" && negb (String.eqb rest "") then None
      else match digits_value k 0 with
           | Some n => if (n <=? 4294967294)%N then Some n else None
           | None => None
           end
  end.

Definition is_array_index (k : string) : bool :=
  match array_index k with Some _ => true | None => false end.

Definition index_entries {V} (o : t V) : list (N * (string * V)) :=
  omap (fun kv => (fun n => (n, kv)) <$> array_index kv.1) o.

Definition entries {V} (o : t V) : list (string * V) :=
  map snd (Array_sort (fun a b => (a.1 <? b.1)%N) (index_entries o))
  ++ List.filter (fun kv => negb (is_array_index kv.1)) o.

Definition keys {V} (o : t V) : list string := map fst (entries o).
Definition values {V} (o : t V) : list V := map snd (entries o).

End JSObject.

(** ** Data model ([src/types/index.ts]) *)

Inductive Carrier := BlueDart | Delhivery.

Definition Carrier_name (c : Carrier) : string :=
  match c with BlueDart => "BlueDart" | Delhivery => "Delhivery" end.

(** A [Date] object: a time value in milliseconds since the epoch, or the
    invalid date (time value [NaN]). *)
Inductive Date := InvalidDate | TimeValue (ms : Z).

(** A BlueDart row as the upload step hands it over: the numeric columns
    already coerced to numbers, the others text, [None] for a column the
    file does not have.  [PIN_CODE_spaced] is the column ['PIN CODE'];
    [AWB] is the fallback column the normalizer also reads. *)
Record BlueDartRaw := {
  AWB_NO : option string;
  AWB : option string;
  PICKUP_DT : option string;
  ORIGIN : option string;
  DESTINATION : option string;
  PIN_CODE_spaced : option string;
  PIN_CODE : option string;
  SVC : option string;
  ACT_WT : option number;
  CHRG_WT : option number;
  AMOUNT : option number;
  VALUE : option number;
  PCS : option number
}.

(** The columns of a Delhivery row that the normalizer reads.  The text
    columns are read without a guard and are text, as the interface
    declares them; the guarded numeric columns may be absent
    ([item_shipped] is not among the columns that the upload step turns
    into numbers). *)
Module DelhiveryRaw.
Record t := {
  waybill_num : string;
  pickup_date : string;
  origin_center : string;
  destination_pin : string;
  package_type : string;
  zone : string;
  status : string;
  item_shipped : option string;
  product_value : option number;
  charged_weight : option number;
  total_amount : option number
}.
End DelhiveryRaw.

Inductive RawRecord :=
| RawBlueDart (row : BlueDartRaw)
| RawDelhivery (row : DelhiveryRaw.t).

Record NormalizedShipment := {
  originalData : RawRecord;
  carrier : Carrier;
  awb : string;
  pickup_date : Date;
  origin : string;
  destination : string;
  pin : string;
  actual_weight_kg : number;
  charged_weight_kg : number;
  line_amount : number;
  product_value : number;
  pieces : Z;
  service : string;
  zone : string;
  status : string;
  weight_diff_kg : number;
  weight_diff_percent : number;
  is_overbilled : bool;
  is_underbilled : bool;
  per_kg_rate : number;
  value_bucket : string;
  flag_high_uplift : bool;
  flag_roundup_jump : bool;
  flag_value_weight_mismatch : bool;
  flag_charge_outlier : bool;
  flag_missing_actual : bool;
  flag_miscalculated : bool
}.

Definition set_flag_charge_outlier (b : bool) (s : NormalizedShipment) :=
  {| originalData := originalData s; carrier := carrier s; awb := awb s;
     pickup_date := pickup_date s; origin := origin s;
     destination := destination s; pin := pin s;
     actual_weight_kg := actual_weight_kg s;
     charged_weight_kg := charged_weight_kg s; line_amount := line_amount s;
     product_value := product_value s; pieces := pieces s;
     service := service s; zone := zone s; status := status s;
     weight_diff_kg := weight_diff_kg s;
     weight_diff_percent := weight_diff_percent s;
     is_overbilled := is_overbilled s; is_underbilled := is_underbilled s;
     per_kg_rate := per_kg_rate s; value_bucket := value_bucket s;
     flag_high_uplift := flag_high_uplift s;
     flag_roundup_jump := flag_roundup_jump s;
     flag_value_weight_mismatch := flag_value_weight_mismatch s;
     flag_charge_outlier := b;
     flag_missing_actual := flag_missing_actual s;
     flag_miscalculated := flag_miscalculated s |}.

Definition set_flag_miscalculated (b : bool) (s : NormalizedShipment) :=
  {| originalData := originalData s; carrier := carrier s; awb := awb s;
     pickup_date := pickup_date s; origin := origin s;
     destination := destination s; pin := pin s;
     actual_weight_kg := actual_weight_kg s;
     charged_weight_kg := charged_weight_kg s; line_amount := line_amount s;
     product_value := product_value s; pieces := pieces s;
     service := service s; zone := zone s; status := status s;
     weight_diff_kg := weight_diff_kg s;
     weight_diff_percent := weight_diff_percent s;
     is_overbilled := is_overbilled s; is_underbilled := is_underbilled s;
     per_kg_rate := per_kg_rate s; value_bucket := value_bucket s;
     flag_high_uplift := flag_high_uplift s;
     flag_roundup_jump := flag_roundup_jump s;
     flag_value_weight_mismatch := flag_value_weight_mismatch s;
     flag_charge_outlier := flag_charge_outlier s;
     flag_missing_actual := flag_missing_actual s;
     flag_miscalculated := b |}.

(** ** Outlier detector ([calculateOutliers]) *)

(** The group key [`${carrier}_${zone}_${service}`]. *)
Definition groupKey (s : NormalizedShipment) : string :=
  Carrier_name (carrier s) +:+ "_" +:+ zone s +:+ "_" +:+ service s.

(** One step of the first [forEach]: [if (!groups[key]) groups[key] = [];
    groups[key].push(shipment)].  The shipment is the object at position
    [i] of the array.  A key starts with the carrier's name, so it never
    names an inherited property (lemma [groupKey_not_inherited]) and the
    read is that of an own property. *)
Definition add_to_group (groups : JSObject.t (list nat)) (i : nat)
    (s : NormalizedShipment) : JSObject.t (list nat) :=
  let key := groupKey s in
  let groups :=
    match JSObject.get_own groups key with
    | Some _ => groups
    | None => JSObject.set groups key []
    end in
  match JSObject.get_own groups key with
  | Some members => JSObject.set groups key (members ++ [i])
  | None => groups
  end.

Definition build_groups (shipments : list NormalizedShipment)
    : JSObject.t (list nat) :=
  foldl (fun groups '(i, s) => add_to_group groups i s) JSObject.empty
        (imap (fun i s => (i, s)) shipments).

(** The body of the inner [group.forEach]. *)
Definition flag_shipment (p5 p95 : option number) (s : NormalizedShipment)
    : NormalizedShipment :=
  let s := set_flag_charge_outlier
             (lt_num_opt (per_kg_rate s) p5 || gt_num_opt (per_kg_rate s) p95) s in
  set_flag_miscalculated
    (is_overbilled s || flag_roundup_jump s || flag_charge_outlier s) s.

(** The body of [Object.values(groups).forEach]: a group is an array of
    references into the array of shipments. *)
Definition process_group (shipments : list NormalizedShipment)
    (group : list nat) : list NormalizedShipment :=
  let members := omap (fun i => shipments !! i) group in
  let rates :=
    Array_sort (fun a b => Qltb (a - b) 0)
      (List.filter (fun r => Qgtb r 0) (map per_kg_rate members)) in
  if (length rates <? 5)%nat then shipments
  else
    let p5 := rates !! Math_floor (num_of_nat (length rates) * 0.05) in
    let p95 := rates !! Math_floor (num_of_nat (length rates) * 0.95) in
    foldl (fun shipments i => alter (flag_shipment p5 p95) i shipments)
          shipments group.

Definition calculateOutliers (shipments : list NormalizedShipment)
    : list NormalizedShipment :=
  let groups := build_groups shipments in
  foldl process_group shipments (JSObject.values groups).

(** ** KPI aggregator ([calculateKPIs]) *)

Record GroupTally := { total : nat; overbilled : nat }.

Record PinTally := { count : nat; totalValue : number }.

Record ProblematicPin := {
  tp_pin : string;
  tp_count : nat;
  tp_totalValue : number
}.

Record KPIData := {
  totalShipments : nat;
  totalAmount : number;
  suspectedOverbillingCount : nat;
  suspectedOverbillingValue : number;
  avgActualWeight : number;
  avgChargedWeight : number;
  overbillingRateByCarrier : JSObject.t number;
  overbillingRateByZone : JSObject.t number;
  topProblematicPins : list ProblematicPin
}.

Definition sum_by (f : NormalizedShipment -> number)
    (l : list NormalizedShipment) : number :=
  foldl (fun sum s => sum + f s) 0 l.

(** The reducer of [carrierGroups] and [zoneGroups]:
    [if (!acc[k]) acc[k] = { total: 0, overbilled: 0 }; acc[k].total++;
     if (s.is_overbilled) acc[k].overbilled++].
    When [k] names a member of [Object.prototype] the read finds that
    (truthy) object, the increments land on it, and [acc] gets no own
    property. *)
Definition tally_step (key : NormalizedShipment -> string)
    (acc : JSObject.t GroupTally) (s : NormalizedShipment)
    : JSObject.t GroupTally :=
  let k := key s in
  let acc :=
    match JSObject.get acc k with
    | JSObject.Undefined => JSObject.set acc k {| total := 0; overbilled := 0 |}
    | _ => acc
    end in
  match JSObject.get acc k with
  | JSObject.Own d =>
      JSObject.set acc k
        {| total := S (total d);
           overbilled := if is_overbilled s then S (overbilled d) else overbilled d |}
  | _ => acc
  end.

Definition rate_percent (d : GroupTally) : number :=
  num_of_nat (overbilled d) / num_of_nat (total d) * 100.

Definition overbilling_rates (groups : JSObject.t GroupTally) : JSObject.t number :=
  foldl (fun acc '(k, d) => JSObject.set acc k (rate_percent d))
        JSObject.empty (JSObject.entries groups).

(** The reducer of [pinGroups]:
    [if (!acc[s.pin]) acc[s.pin] = { count: 0, totalValue: 0 };
     acc[s.pin].count++; acc[s.pin].totalValue += s.line_amount]. *)
Definition pin_step (acc : JSObject.t PinTally) (s : NormalizedShipment)
    : JSObject.t PinTally :=
  let acc :=
    match JSObject.get acc (pin s) with
    | JSObject.Undefined =>
        JSObject.set acc (pin s) {| count := 0; totalValue := 0 |}
    | _ => acc
    end in
  match JSObject.get acc (pin s) with
  | JSObject.Own d =>
      JSObject.set acc (pin s)
        {| count := S (count d); totalValue := totalValue d + line_amount s |}
  | _ => acc
  end.

Definition pinGroups (overbilled_shipments : list NormalizedShipment)
    : JSObject.t PinTally :=
  foldl pin_step JSObject.empty overbilled_shipments.

(** The comparator [(a, b) => b.count - a.count] is negative. *)
Definition more_often (a b : ProblematicPin) : bool :=
  (Z.of_nat (tp_count b) - Z.of_nat (tp_count a) <? 0)%Z.

Definition pin_entry (kv : string * PinTally) : ProblematicPin :=
  {| tp_pin := kv.1; tp_count := count kv.2; tp_totalValue := totalValue kv.2 |}.

(** [Object.entries(pinGroups).map(...).sort(...)], before [slice]. *)
Definition ranked_pins (overbilled_shipments : list NormalizedShipment)
    : list ProblematicPin :=
  Array_sort more_often
    (map pin_entry (JSObject.entries (pinGroups overbilled_shipments))).

Definition top_pins (overbilled_shipments : list NormalizedShipment)
    : list ProblematicPin :=
  take 10 (ranked_pins overbilled_shipments).

Definition calculateKPIs (shipments : list NormalizedShipment) : KPIData :=
  match shipments with
  | [] =>
      {| totalShipments := 0; totalAmount := 0;
         suspectedOverbillingCount := 0; suspectedOverbillingValue := 0;
         avgActualWeight := 0; avgChargedWeight := 0;
         overbillingRateByCarrier := JSObject.empty;
         overbillingRateByZone := JSObject.empty;
         topProblematicPins := [] |}
  | _ =>
      let overbilled_shipments := List.filter is_overbilled shipments in
      let validWeights :=
        List.filter (fun s => Qgtb (actual_weight_kg s) 0 && Qgtb (charged_weight_kg s) 0)
                    shipments in
      let avg f :=
        if (0 <? length validWeights)%nat
        then sum_by f validWeights / num_of_nat (length validWeights) else 0 in
      {| totalShipments := length shipments;
         totalAmount := sum_by line_amount shipments;
         suspectedOverbillingCount := length overbilled_shipments;
         suspectedOverbillingValue := sum_by line_amount overbilled_shipments;
         avgActualWeight := avg actual_weight_kg;
         avgChargedWeight := avg charged_weight_kg;
         overbillingRateByCarrier :=
           overbilling_rates
             (foldl (tally_step (fun s => Carrier_name (carrier s)))
                    JSObject.empty shipments);
         overbillingRateByZone :=
           overbilling_rates (foldl (tally_step zone) JSObject.empty shipments);
         topProblematicPins := top_pins overbilled_shipments |}
  end.

(** ** String methods *)

Module JSString.

Fixpoint includes (c : ascii) (s : string) : bool :=
  match s with
  | EmptyString => false
  | String c' s' => Ascii.eqb c' c || includes c s'
  end.

(** [s.split(sep)] for a one-character separator: never empty. *)
Fixpoint split (sep : ascii) (s : string) : list string :=
  match s with
  | EmptyString => [EmptyString]
  | String c s' =>
      if Ascii.eqb c sep then EmptyString :: split sep s'
      else match split sep s' with
           | p :: ps => String c p :: ps
           | [] => [String c EmptyString]
           end
  end.

(** White space and line terminators of the ASCII range. *)
Definition is_white_space (c : ascii) : bool :=
  let n := nat_of_ascii c in
  (n =? 32)%nat || ((9 <=? n)%nat && (n <=? 13)%nat).

Fixpoint trimStart (s : string) : string :=
  match s with
  | EmptyString => EmptyString
  | String c s' => if is_white_space c then trimStart s' else s
  end.

Fixpoint trimEnd (s : string) : string :=
  match s with
  | EmptyString => EmptyString
  | String c s' =>
      let t := trimEnd s' in
      if is_white_space c && String.eqb t "" then EmptyString else String c t
  end.

Definition trim (s : string) : string := trimEnd (trimStart s).

Fixpoint repeat_char (c : ascii) (n : nat) : string :=
  match n with O => EmptyString | S n' => String c (repeat_char c n') end.

(** [s.padStart(n, '0')]. *)
Definition padStart (n : nat) (c : ascii) (s : string) : string :=
  repeat_char c (n - String.length s) +:+ s.

Fixpoint join (sep : string) (l : list string) : string :=
  match l with
  | [] => EmptyString
  | [x] => x
  | x :: l' => x +:+ sep +:+ join sep l'
  end.

End JSString.

(** ** Completions

    A call either returns or throws. *)

Inductive completion (A : Type) :=
| Normal (a : A)
| Throw (error : string).
Arguments Normal {A} a.
Arguments Throw {A} error.

Definition bind {A B} (c : completion A) (k : A -> completion B) : completion B :=
  match c with Normal a => k a | Throw e => Throw e end.

Notation "x <- c ;; k" := (bind c (fun x => k))
  (at level 100, c at next level, right associativity).

(** [arr[i].method(...)]: calling a method of [undefined] throws. *)
Definition element (arr : list string) (i : nat) : completion string :=
  match arr !! i with
  | Some x => Normal x
  | None => Throw "TypeError"
  end.

Fixpoint mapM {A B} (f : A -> completion B) (l : list A) : completion (list B) :=
  match l with
  | [] => Normal []
  | x :: l' => y <- f x ;; ys <- mapM f l' ;; Normal (y :: ys)
  end.

(** ** Calendar arithmetic of the language ([MakeDay], [MakeDate]) *)

Module Calendar.
Open Scope Z_scope.

Definition msPerDay : Z := 86400000.

Definition DayFromYear (y : Z) : Z :=
  365 * (y - 1970) + (y - 1969) / 4 - (y - 1901) / 100 + (y - 1601) / 400.

Definition InLeapYear (y : Z) : bool :=
  (y mod 4 =? 0) && (negb (y mod 100 =? 0) || (y mod 400 =? 0)).

Definition DaysInMonth (y m : Z) : Z :=
  if m =? 2 then (if InLeapYear y then 29 else 28)
  else if (m =? 4) || (m =? 6) || (m =? 9) || (m =? 11) then 30
  else 31.

(** Days of the year [y] before its month [m] (1-based). *)
Definition DaysBeforeMonth (y m : Z) : Z :=
  foldr Z.add 0 (map (DaysInMonth y) (map Z.of_nat (seq 1 (Z.to_nat (m - 1))))).

(** Time value of midnight UTC on a calendar day; [None] when the month
    or the day is out of range. *)
Definition utc_midnight (y m d : Z) : option Z :=
  if (1 <=? m) && (m <=? 12) && (1 <=? d) && (d <=? DaysInMonth y m)
  then Some ((DayFromYear y + DaysBeforeMonth y m + d - 1) * msPerDay)
  else None.

Definition digit (c : ascii) : Z := Z.of_N (JSObject.digit_value c).

End Calendar.

(** The pattern [/^\d{4}-\d{2}-\d{2}$/]: the digits of the year, the month
    and the day when the string matches. *)
Definition match_iso_date (s : string) : option (Z * Z * Z) :=
  match String.list_ascii_of_string s with
  | [y1; y2; y3; y4; h1; m1; m2; h2; d1; d2] =>
      if forallb JSObject.is_digit [y1; y2; y3; y4; m1; m2; d1; d2]
         && Ascii.eqb h1 "-" && Ascii.eqb h2 "-"
      then Some ((1000 * Calendar.digit y1 + 100 * Calendar.digit y2
                  + 10 * Calendar.digit y3 + Calendar.digit y4)%Z,
                 (10 * Calendar.digit m1 + Calendar.digit m2)%Z,
                 (10 * Calendar.digit d1 + Calendar.digit d2)%Z)
      else None
  | _ => None
  end.

(** The text before a final ["T00:00:00.000Z"]. *)
Definition strip_utc_midnight (s : string) : option string :=
  let n := String.length s in
  if (14 <=? n)%nat && String.eqb (String.substring (n - 14) 14 s) "T00:00:00.000Z"
  then Some (String.substring 0 (n - 14) s) else None.

Definition isValid (d : Date) : bool :=
  match d with TimeValue _ => true | InvalidDate => false end.

(** ** Date parser ([parseDate]) *)

Section Host.

(** The clock: the time value that [new Date()] reads. *)
Variable now : Z.
(** [parseISO] of date-fns. *)
Variable parseISO : string -> Date.
(** What [new Date(text)] does with a text that is not a valid instance
    of the date-time format of the language: left to the implementation. *)
Variable Date_parse_fallback : string -> Date.
(** The text an implementation renders a member of [Object.prototype]
    as, when a template or a property key needs a string of it. *)
Variable inherited_text : string -> string.

Definition new_Date_now : Date := TimeValue now.

(** [new Date(isoDateStr + 'T00:00:00.000Z')]. *)
Definition new_Date (text : string) : Date :=
  match strip_utc_midnight text with
  | Some date =>
      match match_iso_date date with
      | Some (y, m, d) =>
          match Calendar.utc_midnight y m d with
          | Some t => TimeValue t
          | None => Date_parse_fallback text
          end
      | None => Date_parse_fallback text
      end
  | None => Date_parse_fallback text
  end.

Definition months : JSObject.t string :=
  [("Jan", "01"); ("Feb", "02"); ("Mar", "03"); ("Apr", "04");
   ("May", "05"); ("Jun", "06"); ("Jul", "07"); ("Aug", "08");
   ("Sep", "09"); ("Oct", "10"); ("Nov", "11"); ("Dec", "12")].

(** A branch of the [try] block: [Some d] when it executes [return d],
    [None] when control falls through to the next statement. *)
Definition iso_branch (dateStr : string) : completion (option Date) :=
  match match_iso_date dateStr with
  | Some _ =>
      let parsedDate := new_Date (dateStr +:+ "T00:00:00.000Z") in
      if isValid parsedDate then Normal (Some parsedDate) else Normal None
  | None => Normal None
  end.

Definition delhivery_branch (dateStr : string) : completion (option Date) :=
  if JSString.includes " " dateStr && JSString.includes "-" dateStr
     && (length (JSString.split "-" dateStr) =? 3)%nat
  then
    datePart <- element (JSString.split " " dateStr) 0 ;;
    let parts := JSString.split "-" datePart in
    if (length parts =? 3)%nat then
      p0 <- element parts 0 ;;
      p1 <- element parts 1 ;;
      p2 <- element parts 2 ;;
      let day := JSString.padStart 2 "0" p0 in
      let month := JSString.padStart 2 "0" p1 in
      let year := p2 in
      let isoDateStr := year +:+ "-" +:+ month +:+ "-" +:+ day in
      let parsedDate := new_Date (isoDateStr +:+ "T00:00:00.000Z") in
      if isValid parsedDate then Normal (Some parsedDate) else Normal None
    else Normal None
  else Normal None.

Definition bluedart_branch (dateStr : string) : completion (option Date) :=
  if JSString.includes "-" dateStr && negb (JSString.includes " " dateStr)
  then
    let parts := JSString.split "-" dateStr in
    if (length parts =? 3)%nat then
      p0 <- element parts 0 ;;
      p1 <- element parts 1 ;;
      p2 <- element parts 2 ;;
      let day := JSString.padStart 2 "0" (JSString.trim p0) in
      let monthStr := JSString.trim p1 in
      let year := JSString.trim p2 in
      let month :=
        match JSObject.get months monthStr with
        | JSObject.Own m => Some m
        | JSObject.Inherited => Some (inherited_text monthStr)
        | JSObject.Undefined => None
        end in
      match month with
      | Some month =>
          let fullYear :=
            if (String.length year =? 2)%nat then "20" +:+ year else year in
          let isoDateStr := fullYear +:+ "-" +:+ month +:+ "-" +:+ day in
          let parsedDate := new_Date (isoDateStr +:+ "T00:00:00.000Z") in
          if isValid parsedDate then Normal (Some parsedDate) else Normal None
      | None => Normal None
      end
    else Normal None
  else Normal None.

Definition parseDate_try (dateStr : string) : completion Date :=
  r <- iso_branch dateStr ;;
  match r with
  | Some d => Normal d
  | None =>
      r <- delhivery_branch dateStr ;;
      match r with
      | Some d => Normal d
      | None =>
          r <- bluedart_branch dateStr ;;
          match r with
          | Some d => Normal d
          | None =>
              let parsedDate := parseISO dateStr in
              if isValid parsedDate then Normal parsedDate
              else Normal new_Date_now
          end
      end
  end.

(** The [catch] clause binds nothing and then reads the name [error],
    which no scope declares: reaching it throws a [ReferenceError]. *)
Definition parseDate (dateStr : string) : completion Date :=
  if String.eqb dateStr "" || String.eqb (JSString.trim dateStr) ""
  then Normal new_Date_now
  else
    match parseDate_try dateStr with
    | Normal d => Normal d
    | Throw _ => Throw "ReferenceError"
    end.

End Host.

(** ** Weight-unit detector, value buckets, zones *)

Inductive WeightUnit := kg | g.

Definition detectWeightUnit (weights : list number) : WeightUnit :=
  let validWeights := List.filter (fun w => Qgtb w 0) weights in
  if (length validWeights =? 0)%nat then kg
  else
    let avg := foldl (fun sum w => sum + w) 0 validWeights
               / num_of_nat (length validWeights) in
    if Qgtb avg 50 && Qltb avg 2000 then g else kg.

Definition getValueBucket (value : number) : string :=
  if Qle_bool value 500 then "≤500"
  else if Qle_bool value 1000 then "501-1000"
  else if Qle_bool value 2000 then "1001-2000"
  else ">2000".

Definition zoneMapping : JSObject.t string :=
  [("MAA", "South"); ("BLR", "South"); ("TJV", "South"); ("NAM", "South");
   ("CJB", "South"); ("DEL", "North"); ("MUM", "West"); ("KOL", "East")].

(** ** Truthiness and [||] *)

Inductive jsval := JNum (x : number) | JStr (s : string).

Definition truthy_number (x : number) : bool := negb (Qeq_bool x 0).
Definition truthy_string (s : string) : bool := negb (String.eqb s "").

(** [a || b] on numeric columns ([undefined] and [0] are falsy). *)
Definition number_or (a : option number) (b : jsval) : jsval :=
  match a with
  | Some x => if truthy_number x then JNum x else b
  | None => b
  end.

(** [a || b] on text columns ([undefined] and [''] are falsy). *)
Definition text_or (a : option string) (b : string) : string :=
  match a with
  | Some s => if truthy_string s then s else b
  | None => b
  end.

(** [x || d] where [x] is a number or [NaN]. *)
Definition nan_or (x : option number) (d : number) : number :=
  match x with
  | Some x => if truthy_number x then x else d
  | None => d
  end.

Definition nan_or_int (x : option Z) (d : Z) : Z :=
  match x with
  | Some x => if (x =? 0)%Z then d else x
  | None => d
  end.

(** ** Carrier normalizers *)

Section Normalizers.

Variable now : Z.
Variable parseISO : string -> Date.
Variable Date_parse_fallback : string -> Date.
Variable inherited_text : string -> string.
(** [parseFloat] and [parseInt] on a text, [None] for [NaN]. *)
Variable parseFloat : string -> option number.
Variable parseInt : string -> option Z.
(** [String(x)] of a number. *)
Variable Number_toString : number -> string.

(** [parseFloat(String(v))]: the text of a number reads back as that
    number. *)
Definition parseFloat_String (v : jsval) : option number :=
  match v with
  | JNum x => Some x
  | JStr s => parseFloat s
  end.

Definition parseInt_String (v : jsval) : option Z :=
  match v with
  | JNum x => parseInt (Number_toString x)
  | JStr s => parseInt s
  end.

(** [zoneMapping[prefix] || 'Unknown']; the mapped zones are non-empty
    texts, and a member of [Object.prototype] is truthy. *)
Definition deriveZoneFromDestination (destination : string) : string :=
  match JSString.split "-" destination with
  | prefix :: _ =>
      match JSObject.get zoneMapping prefix with
      | JSObject.Own z => if truthy_string z then z else "Unknown"
      | JSObject.Inherited => inherited_text prefix
      | JSObject.Undefined => "Unknown"
      end
  | [] => "Unknown"
  end.

(** The result of [parseDate] stored in the record.  The parser never
    throws (lemma [parseDate_returns]); a throw would abort the batch. *)
Definition pickup (dateStr : string) : completion Date :=
  parseDate now parseISO Date_parse_fallback inherited_text dateStr.

Definition normalizeBlueDartRow (row : BlueDartRaw) : completion NormalizedShipment :=
  let actualWeight :=
    nan_or (parseFloat_String (number_or (ACT_WT row) (number_or (ACT_WT row) (JStr "0")))) 0 in
  let chargedWeight :=
    nan_or (parseFloat_String (number_or (CHRG_WT row) (number_or (CHRG_WT row) (JStr "0"))))
           (if Qgtb actualWeight 0 then actualWeight else 0.5) in
  let awbNumber := text_or (AWB_NO row) (text_or (AWB_NO row) (text_or (AWB row) "")) in
  let pickupDate := text_or (PICKUP_DT row) (text_or (PICKUP_DT row) "") in
  let lineAmount :=
    nan_or (parseFloat_String (number_or (AMOUNT row) (number_or (AMOUNT row) (JStr "0")))) 0 in
  let productValue :=
    nan_or (parseFloat_String (number_or (VALUE row) (number_or (VALUE row) (JStr "0")))) 0 in
  let pieces :=
    nan_or_int (parseInt_String (number_or (PCS row) (number_or (PCS row) (JStr "1")))) 1 in
  let origin := text_or (ORIGIN row) (text_or (ORIGIN row) "") in
  let destination := text_or (DESTINATION row) (text_or (DESTINATION row) "") in
  let pinCode :=
    text_or (PIN_CODE_spaced row) (text_or (PIN_CODE row) (text_or (PIN_CODE row) "")) in
  let service := text_or (SVC row) (text_or (SVC row) "Standard") in
  let weightDiff := chargedWeight - actualWeight in
  let weightDiffPercent :=
    if Qgtb actualWeight 0 then (weightDiff / actualWeight) * 100 else 0 in
  let perKgRate :=
    if Qgtb chargedWeight 0 then lineAmount / chargedWeight else 0 in
  date <- pickup pickupDate ;;
  Normal
    {| originalData := RawBlueDart row;
       carrier := BlueDart;
       awb := awbNumber;
       pickup_date := date;
       origin := origin;
       destination := destination;
       pin := pinCode;
       actual_weight_kg := actualWeight;
       charged_weight_kg := chargedWeight;
       line_amount := lineAmount;
       product_value := productValue;
       pieces := pieces;
       service := service;
       zone := deriveZoneFromDestination destination;
       status := "Delivered";
       weight_diff_kg := weightDiff;
       weight_diff_percent := weightDiffPercent;
       is_overbilled := Qgtb weightDiff 0.1;
       is_underbilled := Qltb weightDiff (-0.1);
       per_kg_rate := perKgRate;
       value_bucket := getValueBucket productValue;
       flag_high_uplift := Qgeb chargedWeight (actualWeight + 0.5);
       flag_roundup_jump := Qltb actualWeight 1.0 && Qgeb chargedWeight 1.5;
       flag_value_weight_mismatch := Qgeb productValue 1000 && Qltb actualWeight 0.5;
       flag_charge_outlier := false;
       flag_missing_actual := negb (truthy_number actualWeight) || Qeq_bool actualWeight 0;
       flag_miscalculated := false |}.

Definition normalizeBlueDart (data : list BlueDartRaw)
    : completion (list NormalizedShipment) :=
  if (length data =? 0)%nat then Normal []
  else mapM normalizeBlueDartRow data.

Definition normalizeDelhiveryRow (isChargedInGrams : bool) (row : DelhiveryRaw.t)
    : completion NormalizedShipment :=
  let productValue :=
    nan_or (parseFloat_String
              (number_or (DelhiveryRaw.product_value row) (JNum 0))) 0 in
  let actualWeight :=
    if Qgtb productValue 0 then (productValue * 450 / 360) / 1000 else 0 in
  let chargedWeight :=
    if isChargedInGrams
    then nan_or (parseFloat_String
                   (number_or (DelhiveryRaw.charged_weight row) (JNum 0))) 0 / 1000
    else nan_or (parseFloat_String
                   (number_or (DelhiveryRaw.charged_weight row) (JNum 0))) 0 in
  let lineAmount :=
    nan_or (parseFloat_String
              (number_or (DelhiveryRaw.total_amount row) (JNum 0))) 0 in
  let pieces :=
    nan_or_int
      (parseInt_String
         (match DelhiveryRaw.item_shipped row with
          | Some s => if truthy_string s then JStr s else JNum 1
          | None => JNum 1
          end)) 1 in
  let weightDiff := chargedWeight - actualWeight in
  let weightDiffPercent :=
    if Qgtb actualWeight 0 then (weightDiff / actualWeight) * 100 else 0 in
  let perKgRate :=
    if Qgtb chargedWeight 0 then lineAmount / chargedWeight else 0 in
  date <- pickup (DelhiveryRaw.pickup_date row) ;;
  Normal
    {| originalData := RawDelhivery row;
       carrier := Delhivery;
       awb := DelhiveryRaw.waybill_num row;
       pickup_date := date;
       origin := DelhiveryRaw.origin_center row;
       destination := DelhiveryRaw.destination_pin row;
       pin := DelhiveryRaw.destination_pin row;
       actual_weight_kg := actualWeight;
       charged_weight_kg := chargedWeight;
       line_amount := lineAmount;
       product_value := productValue;
       pieces := pieces;
       service := DelhiveryRaw.package_type row;
       zone := if truthy_string (DelhiveryRaw.zone row)
               then DelhiveryRaw.zone row else "Unknown";
       status := DelhiveryRaw.status row;
       weight_diff_kg := weightDiff;
       weight_diff_percent := weightDiffPercent;
       is_overbilled := Qgtb weightDiff 0.1;
       is_underbilled := Qltb weightDiff (-0.1);
       per_kg_rate := perKgRate;
       value_bucket := getValueBucket productValue;
       flag_high_uplift := Qgeb chargedWeight (actualWeight + 0.5);
       flag_roundup_jump := Qltb actualWeight 1.0 && Qgeb chargedWeight 1.5;
       flag_value_weight_mismatch := Qgeb productValue 1000 && Qltb actualWeight 0.5;
       flag_charge_outlier := false;
       flag_missing_actual := negb (truthy_number actualWeight) || Qeq_bool actualWeight 0;
       flag_miscalculated := false |}.

Definition normalizeDelhivery (data : list DelhiveryRaw.t)
    : completion (list NormalizedShipment) :=
  if (length data =? 0)%nat then Normal []
  else
    let chargedWeights :=
      List.filter (fun w => match w with Some w => Qgtb w 0 | None => false end)
        (map (fun row => parseFloat_String
                           (number_or (DelhiveryRaw.charged_weight row) (JNum 0)))
             data) in
    let isChargedInGrams :=
      match detectWeightUnit (omap id chargedWeights) with g => true | kg => false end in
    mapM (normalizeDelhiveryRow isChargedInGrams) data.

End Normalizers.

(** ** CSV export ([exportToCSV])

    The text [csvContent] that the function hands to the browser as a file;
    the download itself is outside the model. *)

Definition decimal_digits (n : N) : string :=
  DecimalString.NilZero.string_of_uint (N.to_uint n).

Section CsvExport.

(** [String(x)] of a number. *)
Variable Number_toString : number -> string.
(** [format(date, 'yyyy-MM-dd')] of date-fns on a valid date: the
    calendar day in the time zone of the host. *)
Variable format_yyyy_MM_dd : Z -> string.

(** [x.toFixed(f)]. *)
Definition toFixed (f : nat) (x : number) : string :=
  let s := if Qltb x 0 then "-" else "" in
  let x := if Qltb x 0 then - x else x in
  let m :=
    if Qle_bool (inject_Z (10 ^ 21)) x then Number_toString x
    else
      let n := Z.to_N (Qfloor (x * inject_Z (10 ^ Z.of_nat f) + (1 # 2))) in
      let m := decimal_digits n in
      if (f =? 0)%nat then m
      else
        let m := JSString.padStart (f + 1) "0" m in
        let k := String.length m in
        String.substring 0 (k - f) m +:+ "." +:+ String.substring (k - f) f m in
  s +:+ m.

(** date-fns refuses an invalid date. *)
Definition format (d : Date) : completion string :=
  match d with
  | TimeValue t => Normal (format_yyyy_MM_dd t)
  | InvalidDate => Throw "RangeError"
  end.

Definition headers : list string :=
  ["Pickup Date"; "Carrier"; "AWB"; "Origin"; "Destination"; "PIN"; "Pieces";
   "Actual Weight (kg)"; "Charged Weight (kg)"; "Weight Diff (kg)";
   "Weight Diff (%)"; "Line Amount"; "Per Kg Rate"; "Product Value";
   "Service"; "Zone"; "Status"; "High Uplift"; "Roundup Jump";
   "Value-Weight Mismatch"; "Charge Outlier"; "Missing Actual"].

Definition double_quote : string := String (ascii_of_nat 34) EmptyString.

Definition quoted (s : string) : string := double_quote +:+ s +:+ double_quote.

Definition Y_N (b : bool) : string := if b then "Y" else "N".

(** The array of cells of one shipment, before [join(',')]. *)
Definition csvCells (s : NormalizedShipment) : completion (list string) :=
  date <- format (pickup_date s) ;;
  Normal
    [date;
     Carrier_name (carrier s);
     awb s;
     quoted (origin s);
     quoted (destination s);
     pin s;
     Number_toString (inject_Z (pieces s));
     toFixed 3 (actual_weight_kg s);
     toFixed 3 (charged_weight_kg s);
     toFixed 3 (weight_diff_kg s);
     toFixed 2 (weight_diff_percent s);
     toFixed 2 (line_amount s);
     toFixed 2 (per_kg_rate s);
     toFixed 2 (product_value s);
     quoted (service s);
     zone s;
     quoted (status s);
     Y_N (flag_high_uplift s);
     Y_N (flag_roundup_jump s);
     Y_N (flag_value_weight_mismatch s);
     Y_N (flag_charge_outlier s);
     Y_N (flag_missing_actual s)].

Definition csvLine (s : NormalizedShipment) : completion string :=
  cells <- csvCells s ;; Normal (JSString.join "," cells).

Definition exportToCSV (shipments : list NormalizedShipment) : completion string :=
  lines <- mapM csvLine shipments ;;
  Normal (JSString.join (String "010" EmptyString)
            (JSString.join "," headers :: lines)).

End CsvExport.

(** ** Notions used in the statements

    [not_after before a b]: the comparator does not put [b] strictly before
    [a]; the result of a sort is sorted for this relation. *)

Definition not_after {A} (before : A -> A -> bool) (a b : A) : Prop :=
  before b a = false.

(** The positions of the shipments of a key, the shipments of a key, the
    qualifying rates of a key, and the shipment a run of the detector over
    [l] leaves in the place of [s]. *)

Definition positions (l : list NormalizedShipment) (k : string) : list nat :=
  List.filter
    (fun i => match l !! i with
              | Some s => String.eqb (groupKey s) k
              | None => false
              end)
    (seq 0 (length l)).

Definition group_members (l : list NormalizedShipment) (k : string)
    : list NormalizedShipment :=
  List.filter (fun s => String.eqb (groupKey s) k) l.

Definition qualifying_rates (l : list NormalizedShipment) (k : string)
    : list number :=
  Array_sort (fun a b => Qltb (a - b) 0)
    (List.filter (fun r => Qgtb r 0) (map per_kg_rate (group_members l k))).

Definition flagged_in (l : list NormalizedShipment) (s : NormalizedShipment)
    : NormalizedShipment :=
  let rates := qualifying_rates l (groupKey s) in
  if (length rates <? 5)%nat then s
  else flag_shipment
         (rates !! Math_floor (num_of_nat (length rates) * 0.05))
         (rates !! Math_floor (num_of_nat (length rates) * 0.95)) s.

(** The array while the groups are processed: the shipments of the groups
    already processed carry their flags, the others are untouched. *)
Definition processed (l : list NormalizedShipment) (seen : list string)
    (st : list NormalizedShipment) : Prop :=
  length st = length l ∧
  ∀ i s, l !! i = Some s →
    st !! i = Some (if decide (groupKey s ∈ seen) then flagged_in l s else s).

Definition same_triple (s t : NormalizedShipment) : bool :=
  String.eqb (Carrier_name (carrier t)) (Carrier_name (carrier s))
  && String.eqb (zone t) (zone s) && String.eqb (service t) (service s).

Definition triple_members (l : list NormalizedShipment) (s : NormalizedShipment)
    : list NormalizedShipment :=
  List.filter (same_triple s) l.

Definition triple_rates (l : list NormalizedShipment) (s : NormalizedShipment)
    : list number :=
  Array_sort (fun a b => Qltb (a - b) 0)
    (List.filter (fun r => Qgtb r 0) (map per_kg_rate (triple_members l s))).

(** C2 as the specification states it, for the shipment at position [i]. *)
Definition outlier_rule_by_triple (l : list NormalizedShipment) : Prop :=
  ∀ i s s',
    l !! i = Some s → calculateOutliers l !! i = Some s' →
    let rates := triple_rates l s in
    let n := length rates in
    ((n < 5)%nat → flag_charge_outlier s' = false) ∧
    ((5 ≤ n)%nat →
       ∃ p5 p95,
         rates !! Math_floor (num_of_nat n * 0.05) = Some p5 ∧
         rates !! Math_floor (num_of_nat n * 0.95) = Some p95 ∧
         flag_charge_outlier s'
         = Qltb (per_kg_rate s) p5 || Qgtb (per_kg_rate s) p95).

Definition no_row : BlueDartRaw :=
  {| AWB_NO := None; AWB := None; PICKUP_DT := None; ORIGIN := None;
     DESTINATION := None; PIN_CODE_spaced := None; PIN_CODE := None;
     SVC := None; ACT_WT := None; CHRG_WT := None; AMOUNT := None;
     VALUE := None; PCS := None |}.

(** A shipment of one kilogram of actual weight with the given carrier,
    zone, service, PIN, charged weight and amount; the derived fields and
    the rule flags are computed the way the normalizers compute them. *)
Definition sample (c : Carrier) (z sv p : string) (charged amount : number)
    : NormalizedShipment :=
  {| originalData := RawBlueDart no_row; carrier := c; awb := "";
     pickup_date := TimeValue 0; origin := ""; destination := ""; pin := p;
     actual_weight_kg := 1; charged_weight_kg := charged;
     line_amount := amount; product_value := 0; pieces := 1; service := sv;
     zone := z; status := ""; weight_diff_kg := charged - 1;
     weight_diff_percent := (charged - 1) / 1 * 100;
     is_overbilled := Qgtb (charged - 1) 0.1;
     is_underbilled := Qltb (charged - 1) (-0.1);
     per_kg_rate := if Qgtb charged 0 then amount / charged else 0;
     value_bucket := getValueBucket 0;
     flag_high_uplift := Qgeb charged (1 + 0.5);
     flag_roundup_jump := Qltb 1 1.0 && Qgeb charged 1.5;
     flag_value_weight_mismatch := Qgeb 0 1000 && Qltb 1 0.5;
     flag_charge_outlier := false;
     flag_missing_actual := negb (truthy_number 1) || Qeq_bool 1 0;
     flag_miscalculated := false |}.

Definition colliding_keys : list NormalizedShipment :=
  [sample Delhivery "N" "E_Surface" "" 1 10;
   sample Delhivery "N" "E_Surface" "" 1 20;
   sample Delhivery "N" "E_Surface" "" 1 30;
   sample Delhivery "N" "E_Surface" "" 1 40;
   sample Delhivery "N" "E_Surface" "" 1 50;
   sample Delhivery "N_E" "Surface" "" 1 0].

(** The same five shipments, and a sixth whose key text is its own. *)
Definition separate_keys : list NormalizedShipment :=
  [sample Delhivery "N" "E_Surface" "" 1 10;
   sample Delhivery "N" "E_Surface" "" 1 20;
   sample Delhivery "N" "E_Surface" "" 1 30;
   sample Delhivery "N" "E_Surface" "" 1 40;
   sample Delhivery "N" "E_Surface" "" 1 50;
   sample Delhivery "S" "Surface" "" 1 0].


Definition pin_shipments (l : list NormalizedShipment) (k : string)
    : list NormalizedShipment :=
  List.filter (fun s => String.eqb (pin s) k) l.

Definition pin_tally (l : list NormalizedShipment) (k : string) : PinTally :=
  {| count := length (pin_shipments l k);
     totalValue := sum_by line_amount (pin_shipments l k) |}.

(** A shipment with PIN [k1] comes before any shipment with PIN [k2]. *)
Definition first_before (l : list NormalizedShipment) (k1 k2 : string) : Prop :=
  ∃ l1 s l2, l = l1 ++ s :: l2 ∧ pin s = k1 ∧ ∀ t, t ∈ l1 → pin t ≠ k2.

(** The order in which the own keys of a dictionary are enumerated, for two
    keys that were created in the order given by [created_before]. *)
Definition enumerated_before (created_before : string → string → Prop)
    (k1 k2 : string) : Prop :=
  match JSObject.array_index k1, JSObject.array_index k2 with
  | Some n1, Some n2 => (n1 < n2)%N
  | Some _, None => True
  | None, Some _ => False
  | None, None => created_before k1 k2
  end.

(** What C4 says of [topProblematicPins], with the rule for ties left open:
    [tie ob k1 k2] is what must hold of the PINs of two entries of equal
    count when the entry of [k1] is listed before the entry of [k2]. *)
Definition top_pins_rule
    (tie : list NormalizedShipment → string → string → Prop)
    (shipments : list NormalizedShipment) : Prop :=
  let ob := List.filter is_overbilled shipments in
  let top := topProblematicPins (calculateKPIs shipments) in
  (length top ≤ 10)%nat ∧
  NoDup (map tp_pin top) ∧
  (∀ e, e ∈ top →
     (1 ≤ tp_count e)%nat ∧
     tp_count e = length (pin_shipments ob (tp_pin e)) ∧
     tp_totalValue e = sum_by line_amount (pin_shipments ob (tp_pin e))) ∧
  StronglySorted (fun a b => (tp_count b ≤ tp_count a)%nat) top ∧
  (∀ k, JSObject.inherited k = false → pin_shipments ob k ≠ [] →
        k ∉ map tp_pin top →
        length top = 10%nat ∧
        ∀ e, e ∈ top → (length (pin_shipments ob k) ≤ tp_count e)%nat) ∧
  (∀ e1 e2, [e1; e2] `sublist_of` top → tp_count e1 = tp_count e2 →
            tie ob (tp_pin e1) (tp_pin e2)).

Definition two_pins : list NormalizedShipment :=
  [sample BlueDart "South" "PPM" "600002" 2 100;
   sample BlueDart "South" "PPM" "600001" 2 100].


(** A character other than the hyphen and white space. *)
Definition plain_char (c : ascii) : bool :=
  negb (Ascii.eqb c "-") && negb (JSString.is_white_space c).

Definition is_letter (c : ascii) : bool :=
  let n := nat_of_ascii c in
  ((65 <=? n)%nat && (n <=? 90)%nat) || ((97 <=? n)%nat && (n <=? 122)%nat).

(** The text [DD-MMM-YY] made of the given characters. *)
Definition dd_mmm_yy (d1 d2 m1 m2 m3 y1 y2 : ascii) : string :=
  String d1 (String d2 (String "-" (String m1 (String m2 (String m3
    (String "-" (String y1 (String y2 EmptyString)))))))).

(** A branch of the date parser returns a valid date or falls through; it
    does not throw. *)
Definition branch_ok (c : completion (option Date)) : Prop :=
  ∃ r, c = Normal r ∧ ∀ d, r = Some d → isValid d = true.


(** What C5 says of the two normalizers, with the conditions on the actual
    weight left open: both return, and every shipment they return has
    [flag_missing_actual] exactly when its actual weight satisfies
    [P_BlueDart], respectively [P_Delhivery]. *)
Definition missing_actual_rule (P_BlueDart P_Delhivery : number → Prop) : Prop :=
  ∀ (now : Z) (parseISO Date_parse_fallback : string → Date)
    (inherited_text : string → string) (parseFloat : string → option number)
    (parseInt : string → option Z) (Number_toString : number → string),
    (∀ data, ∃ l,
        normalizeBlueDart now parseISO Date_parse_fallback inherited_text
          parseFloat parseInt Number_toString data = Normal l ∧
        length l = length data ∧
        Forall (fun s => flag_missing_actual s = true
                         ↔ P_BlueDart (actual_weight_kg s)) l) ∧
    (∀ data, ∃ l,
        normalizeDelhivery now parseISO Date_parse_fallback inherited_text
          parseFloat parseInt Number_toString data = Normal l ∧
        length l = length data ∧
        Forall (fun s => flag_missing_actual s = true
                         ↔ P_Delhivery (actual_weight_kg s)) l).

Definition negative_weight_row : BlueDartRaw :=
  {| AWB_NO := Some "90128761682"; AWB := None; PICKUP_DT := Some "07-Jul-25";
     ORIGIN := Some "CJB-COIMBATORE"; DESTINATION := Some "MAA-CHENNAI";
     PIN_CODE_spaced := None; PIN_CODE := Some "600045"; SVC := Some "PPM";
     ACT_WT := Some (-1.5); CHRG_WT := Some 1; AMOUNT := Some 87.43;
     VALUE := Some 720; PCS := Some 1 |}.

Definition overbilled_row : BlueDartRaw :=
  {| AWB_NO := Some "90128761682"; AWB := None; PICKUP_DT := Some "07-Jul-25";
     ORIGIN := Some "CJB-COIMBATORE"; DESTINATION := Some "MAA-CHENNAI";
     PIN_CODE_spaced := None; PIN_CODE := Some "600045"; SVC := Some "PPM";
     ACT_WT := Some 1; CHRG_WT := Some 2; AMOUNT := Some 100;
     VALUE := Some 720; PCS := Some 1 |}.


(** What C3 says of the cells of an exported row, with the number of
    columns left open. *)
Definition csv_columns_rule (columns : nat) : Prop :=
  ∀ (Number_toString : number → string) (format_yyyy_MM_dd : Z → string)
    (s : NormalizedShipment) (t : Z),
    pickup_date s = TimeValue t →
    length headers = columns ∧
    ∃ cells,
      csvCells Number_toString format_yyyy_MM_dd s = Normal cells ∧
      length cells = columns ∧
      cells =
        [format_yyyy_MM_dd t; Carrier_name (carrier s); awb s;
         quoted (origin s); quoted (destination s); pin s;
         Number_toString (inject_Z (pieces s))]
        ++ map (fun x => toFixed Number_toString 3 x)
             [actual_weight_kg s; charged_weight_kg s; weight_diff_kg s]
        ++ map (fun x => toFixed Number_toString 2 x)
             [weight_diff_percent s; line_amount s; per_kg_rate s; product_value s]
        ++ [quoted (service s); zone s; quoted (status s)]
        ++ map Y_N
             [flag_high_uplift s; flag_roundup_jump s;
              flag_value_weight_mismatch s; flag_charge_outlier s;
              flag_missing_actual s].

(** The cells that C3 lists for a shipment picked up at [t], in the order
    of the specification. *)
Definition listed_cells (Number_toString : number → string)
    (format_yyyy_MM_dd : Z → string) (s : NormalizedShipment) (t : Z)
    : list string :=
  [format_yyyy_MM_dd t; Carrier_name (carrier s); awb s;
   quoted (origin s); quoted (destination s); pin s;
   Number_toString (inject_Z (pieces s))]
  ++ map (fun x => toFixed Number_toString 3 x)
       [actual_weight_kg s; charged_weight_kg s; weight_diff_kg s]
  ++ map (fun x => toFixed Number_toString 2 x)
       [weight_diff_percent s; line_amount s; per_kg_rate s; product_value s]
  ++ [quoted (service s); zone s; quoted (status s)]
  ++ map Y_N
       [flag_high_uplift s; flag_roundup_jump s;
        flag_value_weight_mismatch s; flag_charge_outlier s;
        flag_missing_actual s].

(** The number of commas inside a cell. *)
Fixpoint commas (cell : string) : nat :=
  match cell with
  | EmptyString => 0
  | String c cell' => (if Ascii.eqb c "," then 1 else 0) + commas cell'
  end.

Definition line_feed : ascii := "010".

(** The first line of the exported text. *)
Definition header_line : string :=
  "Pickup Date,Carrier,AWB,Origin,Destination,PIN,Pieces,"
  +:+ "Actual Weight (kg),Charged Weight (kg),Weight Diff (kg),"
  +:+ "Weight Diff (%),Line Amount,Per Kg Rate,Product Value,"
  +:+ "Service,Zone,Status,"
  +:+ "High Uplift,Roundup Jump,Value-Weight Mismatch,Charge Outlier,"
  +:+ "Missing Actual".

(** What C3 says of the exported text, with the number of columns left
    open.  The text is the header line, which is the names of the columns
    joined by commas, and one line for each shipment, joined by line
    feeds; the line of a shipment is the listed cells joined by commas.
    Read back by splitting at the commas, a line has one field more than
    the number of columns for each comma inside its cells, and gives the
    cells themselves when none of them contains a comma; the text splits
    at the line feeds into the header line and the lines of the shipments
    when no cell contains a line feed. *)
Definition csv_export_rule (columns : nat) : Prop :=
  ∀ (Number_toString : number → string) (format_yyyy_MM_dd : Z → string)
    (shipments : list NormalizedShipment),
    Forall (fun s => isValid (pickup_date s) = true) shipments →
    length headers = columns ∧
    JSString.join "," headers = header_line ∧
    JSString.split "," header_line = headers ∧
    ∃ (rows : list (list string)) (csv : string),
      exportToCSV Number_toString format_yyyy_MM_dd shipments = Normal csv ∧
      csv = JSString.join (String line_feed EmptyString)
              (header_line :: map (JSString.join ",") rows) ∧
      Forall2
        (fun s cells =>
           (∃ t, pickup_date s = TimeValue t ∧
                 cells = listed_cells Number_toString format_yyyy_MM_dd s t) ∧
           csvLine Number_toString format_yyyy_MM_dd s
           = Normal (JSString.join "," cells) ∧
           length cells = columns ∧
           length (JSString.split "," (JSString.join "," cells))
           = (columns + sum_list_with commas cells)%nat ∧
           (Forall (fun cell => JSString.includes "," cell = false) cells →
            JSString.split "," (JSString.join "," cells) = cells))
        shipments rows ∧
      (Forall (Forall (fun cell => JSString.includes line_feed cell = false))
         rows →
       JSString.split line_feed csv
       = header_line :: map (JSString.join ",") rows).

(** C8 as the specification states it: some way of reading the exported
    text back gives the exported shipments. *)
Definition lossless_round_trip (Number_toString : number → string)
    (format_yyyy_MM_dd : Z → string) : Prop :=
  ∃ reparse : string → list NormalizedShipment,
    ∀ shipments csv,
      exportToCSV Number_toString format_yyyy_MM_dd shipments = Normal csv →
      reparse csv = shipments.

Definition read_Y_N (cell : string) : option bool :=
  if String.eqb cell "Y" then Some true
  else if String.eqb cell "N" then Some false
  else None.

Fixpoint read_flags (cells : list string) : option (list bool) :=
  match cells with
  | [] => Some []
  | cell :: cells =>
      match read_Y_N cell, read_flags cells with
      | Some b, Some bs => Some (b :: bs)
      | _, _ => None
      end
  end.

(** The five flags read off the last five fields of an exported line. *)
Definition reparse_flags (line : string) : option (list bool) :=
  let fields := JSString.split "," line in
  read_flags (drop (length fields - 5) fields).

Definition exported_flags (s : NormalizedShipment) : list bool :=
  [flag_high_uplift s; flag_roundup_jump s; flag_value_weight_mismatch s;
   flag_charge_outlier s; flag_missing_actual s].


(** ** Dashboard filters ([applyFilters]) *)







Section Filters.

(** [s.toLowerCase()]: the case mapping of the host's Unicode tables. *)
Variable toLowerCase : string -> string.



End Filters.

(** ** The dashboard's derived data ([Dashboard]) *)



Section DashboardData.

Variable toLowerCase : string -> string.



End DashboardData.

(** ** The processing pipeline ([App], [handleDataLoaded])

    The list that [handleDataLoaded] passes to [setShipments]; a throw is a
    transfer to its [catch] clause, which leaves the list of the
    application as it was. *)

Section Pipeline.

Variable now : Z.
Variable parseISO : string -> Date.
Variable Date_parse_fallback : string -> Date.
Variable inherited_text : string -> string.
Variable parseFloat : string -> option number.
Variable parseInt : string -> option Z.
Variable Number_toString : number -> string.

Definition handleDataLoaded (blueDartData : list BlueDartRaw)
    (delhiveryData : list DelhiveryRaw.t) : completion (list NormalizedShipment) :=
  if (length blueDartData =? 0)%nat && (length delhiveryData =? 0)%nat
  then Throw "No data found in uploaded files"
  else
    normalizedBlueDart <-
      normalizeBlueDart now parseISO Date_parse_fallback inherited_text
        parseFloat parseInt Number_toString blueDartData ;;
    normalizedDelhivery <-
      normalizeDelhivery now parseISO Date_parse_fallback inherited_text
        parseFloat parseInt Number_toString delhiveryData ;;
    let combinedShipments := normalizedBlueDart ++ normalizedDelhivery in
    let shipmentsWithOutliers := calculateOutliers combinedShipments in
    Normal shipmentsWithOutliers.

End Pipeline.

(** ** Further notions used in the statements *)

(** Relations between the flags of one shipment.  A round-up jump has an
    actual weight below 1 and a charged weight of at least 1.5, half a
    kilogram apart: it is a high uplift and an overbilling.  The two
    billing flags compare one difference with 0.1 and with -0.1.  An
    underbilled shipment is charged for less than its actual weight, a
    high uplift for no less. *)
Definition flags_consistent (s : NormalizedShipment) : Prop :=
  (flag_roundup_jump s = true →
     flag_high_uplift s = true ∧ is_overbilled s = true) ∧
  (is_overbilled s = true → is_underbilled s = false) ∧
  (is_underbilled s = true → flag_high_uplift s = false).

(** What a BlueDart shipment gets for the columns that its row lacks. *)
Definition BlueDart_defaults (now : Z) (row : BlueDartRaw)
    (s : NormalizedShipment) : Prop :=
  (ACT_WT row = None →
     actual_weight_kg s = 0 ∧ flag_missing_actual s = true) ∧
  (ACT_WT row = None → CHRG_WT row = None →
     charged_weight_kg s = 0.5 ∧ is_overbilled s = true ∧
     flag_high_uplift s = true) ∧
  (AMOUNT row = None → line_amount s = 0) ∧
  (VALUE row = None → product_value s = 0 ∧ value_bucket s = "≤500") ∧
  (PCS row = None → pieces s = 1%Z) ∧
  (PICKUP_DT row = None → pickup_date s = TimeValue now) ∧
  (AWB_NO row = None → AWB row = None → awb s = "") ∧
  (SVC row = None → service s = "Standard") ∧
  (ORIGIN row = None → origin s = "") ∧
  (DESTINATION row = None → destination s = "" ∧ zone s = "Unknown") ∧
  (PIN_CODE_spaced row = None → PIN_CODE row = None → pin s = "").

(** [parseFloat] and [parseInt] of a host that reads the two texts that
    the normalizers use as defaults, and nothing else. *)
Definition parseFloat_zero (text : string) : option number :=
  if String.eqb text "0" then Some 0 else None.

Definition parseInt_one (text : string) : option Z :=
  if String.eqb text "1" then Some 1%Z else None.

(** What a Delhivery shipment derives from the product value of its row:
    an actual weight that is never negative, that is 0 and flagged as
    missing when the value is not positive, and that is at least 1.25 when
    the value is at least 1000, which rules the mismatch flag out. *)
Definition Delhivery_weight_from_value (s : NormalizedShipment) : Prop :=
  0 <= actual_weight_kg s ∧
  (product_value s <= 0 →
     actual_weight_kg s = 0 ∧ flag_missing_actual s = true) ∧
  (1000 <= product_value s → 1.25 <= actual_weight_kg s) ∧
  flag_value_weight_mismatch s = false.

Definition delhivery_row (pickup : string) (value charged amount : option number)
    : DelhiveryRaw.t :=
  {| DelhiveryRaw.waybill_num := "1490810000000";
     DelhiveryRaw.pickup_date := pickup;
     DelhiveryRaw.origin_center := "Coimbatore_Hub";
     DelhiveryRaw.destination_pin := "560001";
     DelhiveryRaw.package_type := "Pre-paid";
     DelhiveryRaw.zone := "B";
     DelhiveryRaw.status := "Delivered";
     DelhiveryRaw.item_shipped := None;
     DelhiveryRaw.product_value := value;
     DelhiveryRaw.charged_weight := charged;
     DelhiveryRaw.total_amount := amount |}.

(** The shipments that a tally of [carrierGroups] or [zoneGroups] counts
    under the key [k], and the tally itself. *)
Definition tally_members (key : NormalizedShipment → string)
    (l : list NormalizedShipment) (k : string) : list NormalizedShipment :=
  List.filter (fun s => String.eqb (key s) k) l.

Definition tally_of (key : NormalizedShipment → string)
    (l : list NormalizedShipment) (k : string) : GroupTally :=
  {| total := length (tally_members key l k);
     overbilled := length (List.filter is_overbilled (tally_members key l k)) |}.

(** The overbilling rate, in percent, of the shipments counted under [k]:
    none when there is no such shipment. *)
Definition overbilling_rate_of (key : NormalizedShipment → string)
    (l : list NormalizedShipment) (k : string) : option number :=
  match tally_members key l k with
  | [] => None
  | _ => Some (rate_percent (tally_of key l k))
  end.



(** What holds of the flags of a shipment once the pipeline has run. *)
Definition pipeline_flags (s : NormalizedShipment) : Prop :=
  isValid (pickup_date s) = true ∧
  flags_consistent s ∧
  (flag_charge_outlier s = true → flag_miscalculated s = true) ∧
  (flag_miscalculated s = true →
     is_overbilled s = true ∨ flag_charge_outlier s = true).


(** A shipment as a normalizer leaves it: valid pickup date, consistent
    flags, and the two flags of the outlier detector not yet set. *)
Definition freshly_normalized (s : NormalizedShipment) : Prop :=
  isValid (pickup_date s) = true ∧ flags_consistent s ∧
  flag_charge_outlier s = false ∧ flag_miscalculated s = false.

(** The text [DD-MM-YYYY time] made of the given characters and of the
    text of the time of day. *)
Definition dd_mm_yyyy_time (d1 d2 m1 m2 y1 y2 y3 y4 : ascii) (time : string)
    : string :=
  String d1 (String d2 (String "-" (String m1 (String m2 (String "-"
    (String y1 (String y2 (String y3 (String y4 (String " " time)))))))))).


(** * Theorems *)

(** * Facts about the sort *)

Section SortFacts.
Context {A : Type} (before : A -> A -> bool).

Lemma sort_insert_Permutation x l : sort_insert before x l ≡ₚ x :: l.
Proof.
  induction l as [|y l IH]; simpl; [done|].
  destruct (before y x); [|done].
  rewrite IH. apply Permutation_swap.
Qed.

Lemma Array_sort_Permutation l : Array_sort before l ≡ₚ l.
Proof.
  induction l as [|x l IH]; simpl; [done|].
  unfold Array_sort in *. simpl.
  rewrite sort_insert_Permutation. by rewrite IH.
Qed.

Lemma Array_sort_elem_of x l : x ∈ Array_sort before l ↔ x ∈ l.
Proof. by rewrite Array_sort_Permutation. Qed.

Hypothesis before_asym : ∀ a b, before a b = true → before b a = false.

Lemma sort_insert_Sorted x l :
  Sorted (not_after before) l → Sorted (not_after before) (sort_insert before x l).
Proof using before_asym.
  induction 1 as [|y l Hl IH Hhd]; simpl.
  - repeat constructor.
  - destruct (before y x) eqn:Hyx.
    + constructor; [done|].
      destruct Hhd as [|z l Hyz]; simpl.
      * constructor. by apply before_asym.
      * destruct (before z x); constructor; [done|]. by apply before_asym.
    + constructor; [by constructor|]. by constructor.
Qed.

Lemma Array_sort_Sorted l : Sorted (not_after before) (Array_sort before l).
Proof using before_asym.
  induction l as [|x l IH]; [constructor|].
  by apply sort_insert_Sorted.
Qed.
End SortFacts.

(** The sort is stable: elements that the comparator does not separate keep
    their order. *)
Lemma sort_insert_filter {A} (before : A → A → bool) (P : A → bool) x l :
  (∀ a b, P a = true → P b = true → before a b = false) →
  List.filter P (sort_insert before x l) = List.filter P (x :: l).
Proof.
  intros HP. induction l as [|y l IH]; [done|].
  simpl. destruct (before y x) eqn:Hyx; [|done].
  simpl. rewrite IH. simpl.
  destruct (P x) eqn:Hx, (P y) eqn:Hy; try done.
  by rewrite HP in Hyx.
Qed.

Lemma Array_sort_stable {A} (before : A → A → bool) (P : A → bool) l :
  (∀ a b, P a = true → P b = true → before a b = false) →
  List.filter P (Array_sort before l) = List.filter P l.
Proof.
  intros HP. induction l as [|x l IH]; [done|].
  unfold Array_sort in *. simpl foldr.
  rewrite sort_insert_filter by done. simpl. by rewrite IH.
Qed.


(** * Facts about dictionaries *)

Section ObjectFacts.
Context {V : Type}.
Implicit Types (o : JSObject.t V) (k : string) (v : V).

Lemma get_own_None o k : JSObject.get_own o k = None ↔ k ∉ map fst o.
Proof.
  induction o as [|[k' v'] o IH]; simpl.
  - split; [intros _; apply not_elem_of_nil | done].
  - rewrite not_elem_of_cons. destruct (String.eqb_spec k' k) as [->|Hne].
    + split; [done | intros [? _]; done].
    + rewrite IH. split; [intros ?; split; [congruence | done] | tauto].
Qed.

Lemma get_own_Some_elem_of o k v : JSObject.get_own o k = Some v → (k, v) ∈ o.
Proof.
  induction o as [|[k' v'] o IH]; simpl; [done|].
  destruct (String.eqb_spec k' k) as [->|Hne].
  - intros [= ->]. left.
  - intros ?. right. auto.
Qed.

Lemma elem_of_get_own o k v :
  NoDup (map fst o) → (k, v) ∈ o → JSObject.get_own o k = Some v.
Proof.
  induction o as [|[k' v'] o IH]; simpl; [by intros _ ?%elem_of_nil|].
  intros [Hk Hnd]%NoDup_cons [[= -> ->]|Hin]%elem_of_cons.
  - by rewrite String.eqb_refl.
  - destruct (String.eqb_spec k' k) as [->|Hne]; [|auto].
    destruct Hk. apply list_elem_of_fmap. by exists (k, v).
Qed.

Lemma get_own_set_eq o k v : JSObject.get_own (JSObject.set o k v) k = Some v.
Proof.
  induction o as [|[k' v'] o IH]; simpl.
  - by rewrite String.eqb_refl.
  - destruct (String.eqb_spec k' k) as [->|Hne]; simpl.
    + by rewrite String.eqb_refl.
    + by destruct (String.eqb_spec k' k).
Qed.

Lemma get_own_set_ne o k k' v :
  k ≠ k' → JSObject.get_own (JSObject.set o k v) k' = JSObject.get_own o k'.
Proof.
  intros Hne. induction o as [|[k0 v0] o IH]; simpl.
  - by destruct (String.eqb_spec k k').
  - destruct (String.eqb_spec k0 k) as [->|Hne0]; simpl.
    + by destruct (String.eqb_spec k k').
    + by rewrite IH.
Qed.

Lemma set_new o k v : JSObject.get_own o k = None → JSObject.set o k v = o ++ [(k, v)].
Proof.
  induction o as [|[k' v'] o IH]; simpl; [done|].
  destruct (String.eqb_spec k' k); [done|]. intros ?. by rewrite IH.
Qed.

Lemma keys_set_old o k v :
  is_Some (JSObject.get_own o k) → map fst (JSObject.set o k v) = map fst o.
Proof.
  induction o as [|[k' v'] o IH]; simpl; [by intros [? ?]|].
  destruct (String.eqb_spec k' k); [done|]. intros ?. simpl. by rewrite IH.
Qed.

Lemma NoDup_keys_set o k v :
  NoDup (map fst o) → NoDup (map fst (JSObject.set o k v)).
Proof.
  intros Hnd. destruct (JSObject.get_own o k) as [v'|] eqn:Hget.
  - by rewrite keys_set_old.
  - rewrite set_new by done. rewrite map_app. simpl.
    apply NoDup_app. split_and!; [done| |apply NoDup_singleton].
    intros k' Hk' ->%list_elem_of_singleton. by apply get_own_None in Hget.
Qed.

Lemma index_entries_snd o :
  map snd (JSObject.index_entries o)
  = List.filter (λ kv, JSObject.is_array_index kv.1) o.
Proof.
  unfold JSObject.index_entries, JSObject.is_array_index.
  induction o as [|[k v] o IH]; [done|].
  change (omap ?f ((k, v) :: o)) with
    (match f (k, v) with Some y => y :: omap f o | None => omap f o end).
  simpl. destruct (JSObject.array_index k); simpl; by rewrite IH.
Qed.

Lemma filter_partition_Permutation {B} (P : B → bool) (l : list B) :
  List.filter P l ++ List.filter (λ x, negb (P x)) l ≡ₚ l.
Proof.
  induction l as [|x l IH]; simpl; [done|].
  destruct (P x); simpl.
  - by rewrite IH.
  - rewrite <- Permutation_middle. by rewrite IH.
Qed.

Lemma entries_Permutation o : JSObject.entries o ≡ₚ o.
Proof.
  unfold JSObject.entries.
  rewrite Array_sort_Permutation, index_entries_snd.
  apply filter_partition_Permutation.
Qed.

Lemma elem_of_entries o kv : kv ∈ JSObject.entries o ↔ kv ∈ o.
Proof. by rewrite entries_Permutation. Qed.

Lemma NoDup_keys_entries o :
  NoDup (map fst o) → NoDup (map fst (JSObject.entries o)).
Proof. by rewrite entries_Permutation. Qed.
End ObjectFacts.


(** * Facts about the outlier detector *)

Lemma groupKey_not_inherited s : JSObject.inherited (groupKey s) = false.
Proof. unfold groupKey. by destruct (carrier s). Qed.

Lemma build_groups_snoc l s :
  build_groups (l ++ [s]) = add_to_group (build_groups l) (length l) s.
Proof.
  unfold build_groups. rewrite imap_app, foldl_app. simpl.
  by rewrite Nat.add_0_r.
Qed.

Lemma positions_snoc l s k :
  positions (l ++ [s]) k
  = positions l k ++ (if String.eqb (groupKey s) k then [length l] else []).
Proof.
  unfold positions. rewrite length_app. simpl.
  rewrite Nat.add_1_r, seq_S, List.filter_app. simpl.
  rewrite list_lookup_middle by done. f_equal.
  apply List.filter_ext_in. intros i [_ Hi]%in_seq.
  by rewrite lookup_app_l by lia.
Qed.

Lemma elem_of_positions l k i :
  i ∈ positions l k ↔ ∃ s, l !! i = Some s ∧ groupKey s = k.
Proof.
  unfold positions. rewrite list_elem_of_In, List.filter_In, in_seq.
  split.
  - intros [_ Hi]. destruct (l !! i) as [s|]; [|done].
    exists s. split; [done|]. by apply String.eqb_eq.
  - intros (s & Hs & <-). rewrite Hs, String.eqb_refl.
    apply lookup_lt_Some in Hs. split; [lia | done].
Qed.

Lemma NoDup_positions l k : NoDup (positions l k).
Proof. apply NoDup_ListNoDup, List.NoDup_filter, List.seq_NoDup. Qed.

Lemma build_groups_spec l :
  NoDup (map fst (build_groups l)) ∧
  ∀ k, JSObject.get_own (build_groups l) k
       = match positions l k with [] => None | p => Some p end.
Proof.
  induction l as [|s l [IHnd IH]] using rev_ind.
  - split; [constructor | done].
  - rewrite build_groups_snoc. unfold add_to_group.
    set (key := groupKey s).
    destruct (JSObject.get_own (build_groups l) key) as [m|] eqn:Hget.
    + rewrite Hget. split; [by apply NoDup_keys_set|].
      intros k. rewrite positions_snoc. fold key.
      destruct (String.eqb_spec key k) as [<-|Hne].
      * rewrite get_own_set_eq. rewrite IH in Hget.
        destruct (positions l key); [done|]. by injection Hget as <-.
      * rewrite get_own_set_ne, app_nil_r by done. apply IH.
    + rewrite get_own_set_eq. split; [by do 2 apply NoDup_keys_set|].
      intros k. rewrite positions_snoc. fold key.
      destruct (String.eqb_spec key k) as [<-|Hne].
      * rewrite get_own_set_eq. rewrite IH in Hget.
        by destruct (positions l key).
      * rewrite !get_own_set_ne, app_nil_r by done. apply IH.
Qed.

Lemma members_positions l k (st : list NormalizedShipment) :
  (∀ i s, l !! i = Some s → groupKey s = k → st !! i = Some s) →
  omap (fun i => st !! i) (positions l k) = group_members l k.
Proof.
  induction l as [|s l IH] using rev_ind; intros Hst; [done|].
  rewrite positions_snoc, omap_app. unfold group_members in *.
  rewrite List.filter_app. f_equal.
  - apply IH. intros i s' Hi. apply Hst. by apply lookup_app_l_Some.
  - simpl. destruct (String.eqb_spec (groupKey s) k) as [Hk|]; [|done].
    simpl. by rewrite (Hst (length l) s (list_lookup_middle _ _ _ _ eq_refl) Hk).
Qed.

Lemma lookup_foldl_alter {A} (f : A → A) idxs (st : list A) i :
  NoDup idxs →
  foldl (fun st j => alter f j st) st idxs !! i
  = if decide (i ∈ idxs) then f <$> st !! i else st !! i.
Proof.
  intros Hnd. revert st.
  induction Hnd as [|j idxs Hj Hnd IH]; intros st; simpl; [done|].
  rewrite IH. destruct (decide (i = j)) as [->|Hne].
  - rewrite decide_False, decide_True by (done || left).
    apply list_lookup_alter_eq.
  - rewrite list_lookup_alter_ne by done.
    destruct (decide (i ∈ idxs)).
    + by rewrite decide_True by (by right).
    + rewrite decide_False; [done|]. by intros [?|?]%elem_of_cons.
Qed.

Lemma length_foldl_alter {A} (f : A → A) idxs (st : list A) :
  length (foldl (fun st j => alter f j st) st idxs) = length st.
Proof.
  revert st. induction idxs as [|j idxs IH]; intros st; simpl; [done|].
  by rewrite IH, length_alter.
Qed.

Section Detector.
Variable l : list NormalizedShipment.

Lemma seen_cons_cases {B} (k k' : string) (seen : list string) (x y : B) :
  (if decide (k' ∈ k :: seen) then x else y)
  = if decide (k' = k) then x else if decide (k' ∈ seen) then x else y.
Proof.
  destruct (decide (k' = k)) as [->|Hne].
  - by rewrite decide_True by left.
  - destruct (decide (k' ∈ seen)).
    + by rewrite decide_True by (by right).
    + rewrite decide_False; [done|]. by intros [?|?]%elem_of_cons.
Qed.

Lemma process_group_step seen st k :
  k ∉ seen → processed l seen st →
  processed l (k :: seen) (process_group st (positions l k)).
Proof.
  intros Hk [Hlen Hst]. unfold process_group.
  rewrite (members_positions l k st).
  2:{ intros i s Hi <-. rewrite (Hst i s Hi). by rewrite decide_False. }
  fold (qualifying_rates l k).
  destruct (length (qualifying_rates l k) <? 5)%nat eqn:Hsmall.
  - split; [done|]. intros i s Hi.
    rewrite (Hst i s Hi), seen_cons_cases. f_equal.
    destruct (decide (groupKey s = k)) as [Heq|]; [|done].
    rewrite decide_False by (by rewrite Heq).
    unfold flagged_in. by rewrite Heq, Hsmall.
  - split; [by rewrite length_foldl_alter|].
    intros i s Hi. rewrite lookup_foldl_alter by apply NoDup_positions.
    rewrite (Hst i s Hi), seen_cons_cases.
    destruct (decide (groupKey s = k)) as [Heq|Hne].
    + rewrite decide_True by (apply elem_of_positions; eauto).
      rewrite decide_False by (by rewrite Heq).
      simpl. unfold flagged_in. by rewrite Heq, Hsmall.
    + rewrite decide_False; [done|].
      intros (s' & Hs' & Hk')%elem_of_positions. congruence.
Qed.

Lemma process_groups gs : ∀ seen st,
  NoDup (map fst gs) →
  (∀ kv, kv ∈ gs → kv.2 = positions l kv.1) →
  (∀ kv, kv ∈ gs → kv.1 ∉ seen) →
  processed l seen st →
  processed l (rev (map fst gs) ++ seen) (foldl process_group st (map snd gs)).
Proof.
  induction gs as [|[k grp] gs IH]; intros seen st Hnd Hgrp Hseen Hst; [done|].
  simpl in *. apply NoDup_cons in Hnd as [Hk Hnd].
  rewrite <- app_assoc. simpl. apply IH; [done|..].
  - intros kv Hkv. apply Hgrp. by right.
  - intros kv Hkv [Heq|?]%elem_of_cons.
    + apply Hk. rewrite <- Heq. by apply (list_elem_of_fmap_2 fst).
    + eapply Hseen; [by right | done].
  - pose proof (Hgrp (k, grp) ltac:(left)) as Hg. simpl in Hg. subst grp.
    apply process_group_step; [|done]. apply (Hseen (k, positions l k)). left.
Qed.

Lemma calculateOutliers_flagged_in : calculateOutliers l = map (flagged_in l) l.
Proof.
  unfold calculateOutliers, JSObject.values.
  destruct (build_groups_spec l) as [Hnd Hget].
  destruct (process_groups (JSObject.entries (build_groups l)) [] l) as [Hlen Hst].
  - by apply NoDup_keys_entries.
  - intros [k grp] Hkv. apply (proj1 (elem_of_entries _ _)) in Hkv. simpl.
    apply (elem_of_get_own _ _ _ Hnd) in Hkv. rewrite Hget in Hkv.
    destruct (positions l k); [done|]. by injection Hkv as <-.
  - intros ? _. apply not_elem_of_nil.
  - split; [done|]. intros i s Hi. by rewrite Hi.
  - apply list_eq. intros i. rewrite list_lookup_fmap.
    destruct (l !! i) as [s|] eqn:Hi; simpl.
    + rewrite (Hst i s Hi). rewrite decide_True; [done|].
      rewrite app_nil_r, list_elem_of_In, <- in_rev, <- list_elem_of_In.
      assert (is_Some (JSObject.get_own (build_groups l) (groupKey s))) as [grp Hg].
      { rewrite Hget. destruct (positions l (groupKey s)) eqn:Hp; [|eauto].
        assert (i ∈ positions l (groupKey s)) as Hin
          by (apply elem_of_positions; eauto).
        rewrite Hp in Hin. by apply elem_of_nil in Hin. }
      apply get_own_Some_elem_of in Hg.
      apply (proj2 (elem_of_entries _ _)) in Hg.
      by apply (list_elem_of_fmap_2 fst) in Hg.
    + apply lookup_ge_None. rewrite Hlen. by apply lookup_ge_None.
Qed.
End Detector.


(** * Facts about numbers *)

Lemma Qltb_lt x y : Qltb x y = true ↔ x < y.
Proof.
  unfold Qltb. rewrite negb_true_iff.
  destruct (Qle_bool y x) eqn:H.
  - apply Qle_bool_iff in H. split; [done|]. intros ?%Qlt_not_le. done.
  - split; [intros _|done]. apply Qnot_le_lt. intros ?%Qle_bool_iff. congruence.
Qed.

Lemma Qltb_ge x y : Qltb x y = false ↔ y <= x.
Proof.
  unfold Qltb. rewrite negb_false_iff. apply Qle_bool_iff.
Qed.

Lemma rate_order_lt a b : Qltb (a - b) 0 = true ↔ a < b.
Proof.
  rewrite Qltb_lt. split; intros H.
  - apply (Qplus_lt_l _ _ (- b)). by rewrite Qplus_opp_r.
  - apply (Qplus_lt_l _ _ (- b)) in H. by rewrite Qplus_opp_r in H.
Qed.

Lemma rate_order_ge a b : Qltb (a - b) 0 = false ↔ b <= a.
Proof.
  rewrite Qltb_ge. split; intros H.
  - apply (Qplus_le_l _ _ (- b)). by rewrite Qplus_opp_r.
  - apply (Qplus_le_l _ _ (- b)) in H. by rewrite Qplus_opp_r in H.
Qed.

Lemma floor_5_percent n : Math_floor (num_of_nat n * 0.05) = (n / 20)%nat.
Proof.
  unfold Math_floor, num_of_nat.
  change (Qfloor (inject_Z (Z.of_nat n) * 0.05))
    with ((Z.of_nat n * 5) / (5 * 20))%Z.
  replace (Z.of_nat n * 5)%Z with (5 * Z.of_nat n)%Z by lia.
  rewrite Z.div_mul_cancel_l by lia.
  change 20%Z with (Z.of_nat 20).
  rewrite <- (Nat2Z.inj_div n 20). apply Nat2Z.id.
Qed.

Lemma floor_95_percent n : Math_floor (num_of_nat n * 0.95) = (19 * n / 20)%nat.
Proof.
  unfold Math_floor, num_of_nat.
  change (Qfloor (inject_Z (Z.of_nat n) * 0.95))
    with ((Z.of_nat n * 95) / (5 * 20))%Z.
  replace (Z.of_nat n * 95)%Z with (5 * (Z.of_nat (19 * n)))%Z by lia.
  rewrite Z.div_mul_cancel_l by lia.
  change 20%Z with (Z.of_nat 20).
  rewrite <- (Nat2Z.inj_div (19 * n) 20). apply Nat2Z.id.
Qed.

Lemma percentile_index_lt n :
  (0 < n)%nat →
  (Math_floor (num_of_nat n * 0.05) < n)%nat ∧
  (Math_floor (num_of_nat n * 0.95) < n)%nat.
Proof.
  intros Hn. rewrite floor_5_percent, floor_95_percent. split.
  - apply Nat.Div0.div_lt_upper_bound. lia.
  - apply Nat.Div0.div_lt_upper_bound. lia.
Qed.

Lemma Sorted_impl {A} (R R' : A → A → Prop) l :
  (∀ a b, R a b → R' a b) → Sorted R l → Sorted R' l.
Proof.
  intros HR. induction 1 as [|x l Hl IH Hhd]; constructor; [done|].
  destruct Hhd; constructor; auto.
Qed.

Lemma qualifying_rates_sorted l k : StronglySorted Qle (qualifying_rates l k).
Proof.
  apply Sorted_StronglySorted.
  - intros x y z. apply Qle_trans.
  - eapply Sorted_impl; [|apply (Array_sort_Sorted (fun a b => Qltb (a - b) 0))].
    + intros a b Hab. by apply rate_order_ge in Hab.
    + intros a b Hab%rate_order_lt. apply rate_order_ge. by apply Qlt_le_weak.
Qed.

Lemma qualifying_rates_Permutation l k :
  qualifying_rates l k
  ≡ₚ List.filter (fun r => Qgtb r 0) (map per_kg_rate (group_members l k)).
Proof. apply Array_sort_Permutation. Qed.

Lemma qualifying_rates_positive l k r : r ∈ qualifying_rates l k → 0 < r.
Proof.
  rewrite qualifying_rates_Permutation, list_elem_of_In, List.filter_In.
  intros [_ H]. by apply Qltb_lt.
Qed.

(** * Facts about [flag_shipment] and [flagged_in] *)

Lemma flag_shipment_idemp p5 p95 s :
  flag_shipment p5 p95 (flag_shipment p5 p95 s) = flag_shipment p5 p95 s.
Proof. done. Qed.

Lemma groupKey_flagged_in l s : groupKey (flagged_in l s) = groupKey s.
Proof. unfold flagged_in. by destruct (_ <? _)%nat. Qed.

Lemma per_kg_rate_flagged_in l s : per_kg_rate (flagged_in l s) = per_kg_rate s.
Proof. unfold flagged_in. by destruct (_ <? _)%nat. Qed.

Lemma filter_map_comm {A B} (f : A → B) (P : B → bool) (l : list A) :
  List.filter P (map f l) = map f (List.filter (fun x => P (f x)) l).
Proof.
  induction l as [|x l IH]; simpl; [done|].
  destruct (P (f x)); simpl; by rewrite IH.
Qed.

Lemma qualifying_rates_flagged l k :
  qualifying_rates (map (flagged_in l) l) k = qualifying_rates l k.
Proof.
  unfold qualifying_rates, group_members. do 2 f_equal.
  rewrite filter_map_comm, map_map.
  erewrite List.filter_ext; [apply map_ext|].
  - intros s. apply per_kg_rate_flagged_in.
  - intros s. simpl. by rewrite groupKey_flagged_in.
Qed.

Lemma flagged_in_idemp l s :
  flagged_in (map (flagged_in l) l) (flagged_in l s) = flagged_in l s.
Proof.
  unfold flagged_in at 1. rewrite groupKey_flagged_in, qualifying_rates_flagged.
  unfold flagged_in.
  destruct (_ <? _)%nat; [done|]. apply flag_shipment_idemp.
Qed.

(** C7. Outlier detection is idempotent: a second run on the result of a
    first run returns the same list, so every flag of every shipment keeps
    the value the first run gave it. *)
Theorem calculateOutliers_idempotent (l : list NormalizedShipment) :
  calculateOutliers (calculateOutliers l) = calculateOutliers l.
Proof.
  rewrite (calculateOutliers_flagged_in (calculateOutliers l)).
  rewrite (calculateOutliers_flagged_in l), map_map.
  apply map_ext, flagged_in_idemp.
Qed.


Lemma lookup_calculateOutliers l i :
  calculateOutliers l !! i = flagged_in l <$> l !! i.
Proof. by rewrite calculateOutliers_flagged_in, list_lookup_fmap. Qed.

(** What the detector does to one shipment, by the number of qualifying
    rates of its group. *)
Lemma flagged_in_outlier l s :
  let rates := qualifying_rates l (groupKey s) in
  let n := length rates in
  ((n < 5)%nat → flagged_in l s = s) ∧
  ((5 ≤ n)%nat →
     ∃ p5 p95,
       rates !! Math_floor (num_of_nat n * 0.05) = Some p5 ∧
       rates !! Math_floor (num_of_nat n * 0.95) = Some p95 ∧
       flag_charge_outlier (flagged_in l s)
       = Qltb (per_kg_rate s) p5 || Qgtb (per_kg_rate s) p95).
Proof.
  intros rates n. split.
  - intros Hn. unfold flagged_in. fold rates n.
    by destruct (Nat.ltb_spec n 5); [|lia].
  - intros Hn.
    destruct (percentile_index_lt n ltac:(lia)) as [H5 H95].
    destruct (lookup_lt_is_Some_2 rates _ H5) as [p5 Hp5].
    destruct (lookup_lt_is_Some_2 rates _ H95) as [p95 Hp95].
    exists p5, p95. split_and!; [done..|].
    unfold flagged_in. fold rates n.
    destruct (Nat.ltb_spec n 5); [lia|].
    by rewrite Hp5, Hp95.
Qed.

(** A group with fewer than 5 qualifying rates is skipped: its shipments
    are returned as they came. *)
Lemma small_group_untouched l i s :
  l !! i = Some s →
  (length (qualifying_rates l (groupKey s)) < 5)%nat →
  calculateOutliers l !! i = Some s.
Proof.
  intros Hi Hn. rewrite lookup_calculateOutliers, Hi. simpl. f_equal.
  by apply flagged_in_outlier.
Qed.

(** The rule that the detector applies, by key text.  The qualifying rates
    of a key are the strictly positive rates of the shipments of that key,
    in ascending order.  With fewer than 5 of them the flag of a shipment of
    the key is left as it was; with at least 5, the shipment is flagged
    exactly when its rate is strictly below the rate at index
    floor(n * 0.05) or strictly above the rate at index floor(n * 0.95). *)
Lemma outlier_rule_by_key (l : list NormalizedShipment) (i : nat)
    (s : NormalizedShipment) :
  l !! i = Some s →
  let rates := qualifying_rates l (groupKey s) in
  let n := length rates in
  StronglySorted Qle rates ∧
  rates ≡ₚ List.filter (fun r => Qgtb r 0)
             (map per_kg_rate
                (List.filter (fun t => String.eqb (groupKey t) (groupKey s)) l)) ∧
  ∃ s',
    calculateOutliers l !! i = Some s' ∧
    ((n < 5)%nat → flag_charge_outlier s' = flag_charge_outlier s) ∧
    ((5 ≤ n)%nat →
       ∃ p5 p95,
         rates !! Math_floor (num_of_nat n * 0.05) = Some p5 ∧
         rates !! Math_floor (num_of_nat n * 0.95) = Some p95 ∧
         flag_charge_outlier s'
         = Qltb (per_kg_rate s) p5 || Qgtb (per_kg_rate s) p95).
Proof.
  intros Hi rates n. split_and!.
  - apply qualifying_rates_sorted.
  - apply qualifying_rates_Permutation.
  - exists (flagged_in l s).
    destruct (flagged_in_outlier l s) as [Hsmall Hbig]. split_and!.
    + by rewrite lookup_calculateOutliers, Hi.
    + intros Hn. by rewrite Hsmall.
    + done.
Qed.

(** C2.  The source announces groups by carrier + zone + service, as the
    specification does, and builds the key of a group by writing the
    three texts one after the other with an underscore between them.  Two
    shipments whose zone and service differ (zone N with service E_Surface,
    zone N_E with service Surface) get the same key text
    Delhivery_N_E_Surface and are put in one group.  The last shipment of
    [colliding_keys] is the only one of its (carrier, zone, service)
    triple, which has no qualifying rate at all, so the specified rule
    never flags it; the detector flags it against the rates of the other
    five, and sets [flag_miscalculated] with it.  The same shipment with a
    zone whose key text is its own is left as it was. *)
Theorem outlier_groups_merge_triples :
  let member := sample Delhivery "N" "E_Surface" "" 1 50 in
  let loner := sample Delhivery "N_E" "Surface" "" 1 0 in
  let apart := sample Delhivery "S" "Surface" "" 1 0 in
  same_triple member loner = false ∧
  groupKey member = "Delhivery_N_E_Surface" ∧
  groupKey loner = "Delhivery_N_E_Surface" ∧
  colliding_keys !! 5%nat = Some loner ∧
  triple_members colliding_keys loner = [loner] ∧
  triple_rates colliding_keys loner = [] ∧
  qualifying_rates colliding_keys (groupKey loner) = [10; 20; 30; 40; 50] ∧
  calculateOutliers colliding_keys
  = take 5 colliding_keys
    ++ [set_flag_miscalculated true (set_flag_charge_outlier true loner)] ∧
  ¬ outlier_rule_by_triple colliding_keys ∧
  groupKey apart = "Delhivery_S_Surface" ∧
  separate_keys = take 5 colliding_keys ++ [apart] ∧
  calculateOutliers separate_keys = separate_keys.
Proof.
  intros member loner apart.
  assert (calculateOutliers colliding_keys !! 5%nat
          = Some (set_flag_miscalculated true (set_flag_charge_outlier true loner)))
    as Hflagged by (vm_compute; reflexivity).
  split_and!; try done; try (vm_compute; reflexivity).
  intros H.
  destruct (H 5%nat loner _ eq_refl Hflagged) as [Hsmall _].
  vm_compute in Hsmall. specialize (Hsmall ltac:(lia)). discriminate.
Qed.

Lemma same_triple_groupKey s t : same_triple s t = true → groupKey t = groupKey s.
Proof.
  unfold same_triple, groupKey.
  intros [[Hc%String.eqb_eq Hz%String.eqb_eq]%andb_true_iff Hs%String.eqb_eq]%andb_true_iff.
  by rewrite Hc, Hz, Hs.
Qed.

(** When no zone contains the separator, the key determines the triple. *)
Lemma append_sep_inj sep a a' b b' :
  JSString.includes sep a = false → JSString.includes sep a' = false →
  a +:+ String sep b = a' +:+ String sep b' → a = a' ∧ b = b'.
Proof.
  revert a'. induction a as [|c a IH]; intros [|c' a']; simpl.
  - intros _ _ [= ->]. done.
  - intros _ [Hc _]%orb_false_iff [= Heq _].
    rewrite <- Heq, Ascii.eqb_refl in Hc. done.
  - intros [Hc _]%orb_false_iff _ [= Heq _].
    rewrite Heq, Ascii.eqb_refl in Hc. done.
  - intros [_ Ha]%orb_false_iff [_ Ha']%orb_false_iff [= -> Heq].
    destruct (IH a' Ha Ha' Heq) as [-> ->]. done.
Qed.

Lemma groupKey_same_triple s t :
  JSString.includes "_" (zone s) = false →
  JSString.includes "_" (zone t) = false →
  groupKey t = groupKey s → same_triple s t = true.
Proof.
  unfold groupKey, same_triple. intros Hs Ht Hkey.
  assert (Carrier_name (carrier t) = Carrier_name (carrier s) ∧
          zone t +:+ "_" +:+ service t = zone s +:+ "_" +:+ service s)
    as [Hc Hrest].
  { destruct (carrier t), (carrier s); try discriminate Hkey; split; try done.
    - by apply (String.app_inj "BlueDart_") in Hkey.
    - by apply (String.app_inj "Delhivery_") in Hkey. }
  apply (append_sep_inj "_") in Hrest as [Hz Hsv]; [|done..].
  rewrite Hc, Hz, Hsv. by rewrite !String.eqb_refl.
Qed.

Lemma triple_members_group_members l s :
  Forall (fun t => JSString.includes "_" (zone t) = false) l →
  JSString.includes "_" (zone s) = false →
  group_members l (groupKey s) = triple_members l s.
Proof.
  intros Hl Hs. unfold group_members, triple_members.
  apply List.filter_ext_in. intros t Ht.
  apply (proj1 (List.Forall_forall _ _) Hl) in Ht.
  destruct (same_triple s t) eqn:Htriple.
  - apply String.eqb_eq. by apply same_triple_groupKey.
  - apply not_true_iff_false. intros Hk%String.eqb_eq.
    rewrite groupKey_same_triple in Htriple; done.
Qed.

(** On a list whose zones contain no underscore and whose outlier flags are
    not yet set, the rule by (carrier, zone, service) holds as the
    specification states it. *)
Lemma outlier_rule_by_triple_plain_zones l :
  Forall (fun t => JSString.includes "_" (zone t) = false
                   ∧ flag_charge_outlier t = false) l →
  outlier_rule_by_triple l.
Proof.
  intros Hl i s s' Hi Hi'.
  assert (Forall (fun t => JSString.includes "_" (zone t) = false) l) as Hz
    by (eapply Forall_impl; [done | by intros ? []]).
  destruct (proj1 (Forall_lookup _ _) Hl i s Hi) as [Hs Hflag].
  rewrite lookup_calculateOutliers, Hi in Hi'. injection Hi' as <-.
  unfold triple_rates. rewrite <- triple_members_group_members by done.
  fold (qualifying_rates l (groupKey s)).
  destruct (flagged_in_outlier l s) as [Hsmall Hbig].
  split; [|done]. intros Hn. by rewrite Hsmall.
Qed.

Lemma length_filter_le {A} (P Q : A → bool) (l : list A) :
  (∀ x, P x = true → Q x = true) →
  (length (List.filter P l) ≤ length (List.filter Q l))%nat.
Proof.
  intros HPQ. induction l as [|x l IH]; simpl; [done|].
  destruct (P x) eqn:HP.
  - rewrite (HPQ x HP). simpl. lia.
  - destruct (Q x); simpl; lia.
Qed.

Lemma length_positive_rates (P : NormalizedShipment → bool) l :
  length (List.filter (fun r => Qgtb r 0) (map per_kg_rate (List.filter P l)))
  = length (List.filter (fun t => P t && Qgtb (per_kg_rate t) 0) l).
Proof.
  induction l as [|x l IH]; simpl; [done|].
  destruct (P x); simpl; [|done].
  destruct (Qgtb (per_kg_rate x) 0); simpl; by rewrite IH.
Qed.

(** C9. In a (carrier, zone, service) group with at least 5 members of
    strictly positive rate, every member whose rate is 0 is flagged as a
    charge outlier. *)
Theorem zero_rate_flagged (l : list NormalizedShipment) (i : nat)
    (s : NormalizedShipment) :
  l !! i = Some s →
  per_kg_rate s == 0 →
  (5 ≤ length (List.filter (fun r => Qgtb r 0)
                 (map per_kg_rate (triple_members l s))))%nat →
  ∃ s', calculateOutliers l !! i = Some s' ∧ flag_charge_outlier s' = true.
Proof.
  intros Hi Hzero Hbig. exists (flagged_in l s).
  split; [by rewrite lookup_calculateOutliers, Hi|].
  set (rates := qualifying_rates l (groupKey s)).
  assert (5 ≤ length rates)%nat as Hn.
  { unfold rates. rewrite qualifying_rates_Permutation.
    unfold triple_members, group_members in *.
    rewrite length_positive_rates in *.
    etrans; [apply Hbig|]. apply length_filter_le. intros t.
    intros [Ht ->]%andb_true_iff. rewrite andb_true_r.
    apply String.eqb_eq. by apply same_triple_groupKey. }
  destruct (percentile_index_lt (length rates) ltac:(lia)) as [H5 _].
  destruct (lookup_lt_is_Some_2 rates _ H5) as [p5 Hp5].
  unfold flagged_in. fold rates.
  destruct (Nat.ltb_spec (length rates) 5); [lia|].
  rewrite Hp5. simpl. apply orb_true_iff. left.
  apply Qltb_lt. rewrite Hzero.
  apply (qualifying_rates_positive l (groupKey s)).
  by eapply list_elem_of_lookup_2.
Qed.

Lemma zero_rate_flagged_witness :
  ∃ s', calculateOutliers
          (sample Delhivery "N_E" "Surface" "" 1 0
           :: replicate 5 (sample Delhivery "N_E" "Surface" "" 1 10)) !! 0%nat
        = Some s' ∧ flag_charge_outlier s' = true.
Proof.
  apply (zero_rate_flagged _ 0 (sample Delhivery "N_E" "Surface" "" 1 0)).
  - reflexivity.
  - reflexivity.
  - vm_compute. lia.
Defined.


(** * Facts about array indices *)

Lemma digits_value_bounds s : ∀ acc n,
  JSObject.digits_value s acc = Some n →
  (acc * 10 ^ N.of_nat (String.length s) ≤ n
   ∧ n < (acc + 1) * 10 ^ N.of_nat (String.length s))%N.
Proof.
  induction s as [|c s IH]; intros acc n; simpl JSObject.digits_value.
  - intros [= <-]. simpl. lia.
  - destruct (JSObject.is_digit c) eqn:Hc; [|done].
    intros [Hlo Hhi]%IH.
    assert (JSObject.digit_value c ≤ 9)%N as Hd.
    { unfold JSObject.is_digit in Hc. unfold JSObject.digit_value.
      apply andb_true_iff in Hc as [_ Hc%Nat.leb_le].
      unfold nat_of_ascii in Hc. lia. }
    change (String.length (String c s)) with (S (String.length s)).
    rewrite Nat2N.inj_succ, N.pow_succ_r'.
    set (p := (10 ^ N.of_nat (String.length s))%N) in *.
    split; nia.
Qed.

Lemma digits_value_inj s1 : ∀ s2 a1 a2 n,
  String.length s1 = String.length s2 →
  JSObject.digits_value s1 a1 = Some n →
  JSObject.digits_value s2 a2 = Some n →
  a1 = a2 ∧ s1 = s2.
Proof.
  induction s1 as [|c1 s1 IH]; intros [|c2 s2] a1 a2 n Hlen; try done; simpl.
  - by intros [= ->] [= ->].
  - destruct (JSObject.is_digit c1) eqn:Hc1; [|done].
    destruct (JSObject.is_digit c2) eqn:Hc2; [|done].
    intros H1 H2. injection Hlen as Hlen.
    destruct (IH s2 _ _ n Hlen H1 H2) as [Ha ->].
    unfold JSObject.is_digit in Hc1, Hc2. unfold JSObject.digit_value in Ha.
    apply andb_true_iff in Hc1 as [Hc1%Nat.leb_le Hc1'%Nat.leb_le].
    apply andb_true_iff in Hc2 as [Hc2%Nat.leb_le Hc2'%Nat.leb_le].
    unfold nat_of_ascii in *.
    assert (N_of_ascii c1 = N_of_ascii c2 ∧ a1 = a2) as [Hc ->] by lia.
    split; [done|]. f_equal.
    by rewrite <- (ascii_N_embedding c1), <- (ascii_N_embedding c2), Hc.
Qed.

Lemma array_index_inj k1 k2 n :
  JSObject.array_index k1 = Some n → JSObject.array_index k2 = Some n → k1 = k2.
Proof.
  assert (∀ k m, JSObject.array_index k = Some m →
            JSObject.digits_value k 0 = Some m ∧
            (m < 10 ^ N.of_nat (String.length k))%N ∧
            ((1 < String.length k)%nat →
             (10 ^ N.of_nat (String.length k - 1) ≤ m)%N))
    as Hcanon.
  { intros [|c rest] m; [done|]. unfold JSObject.array_index.
    destruct (Ascii.eqb c "0" && negb (String.eqb rest "")) eqn:Hlead; [done|].
    destruct (JSObject.digits_value (String c rest) 0) as [m'|] eqn:Hv; [|done].
    destruct (m' <=? 4294967294)%N; [|done]. intros [= ->].
    split; [done|]. split.
    { apply digits_value_bounds in Hv. lia. }
    intros Hlen. simpl in Hv.
    destruct (JSObject.is_digit c) eqn:Hc; [|done].
    apply digits_value_bounds in Hv as [Hlo _].
    change (String.length (String c rest) - 1)%nat
      with (String.length rest - 0)%nat.
    rewrite Nat.sub_0_r.
    assert (1 ≤ JSObject.digit_value c)%N as Hd.
    { apply andb_false_iff in Hlead as [Hc0|Hrest].
      - unfold JSObject.is_digit in Hc. unfold JSObject.digit_value.
        apply andb_true_iff in Hc as [Hc%Nat.leb_le _].
        unfold nat_of_ascii in Hc.
        assert (N_of_ascii c ≠ 48%N); [|lia].
        intros Heq. apply Ascii.eqb_neq in Hc0. apply Hc0.
        rewrite <- (ascii_N_embedding c), Heq. reflexivity.
      - apply negb_false_iff, String.eqb_eq in Hrest. subst rest.
        simpl in Hlen. lia. }
    set (p := (10 ^ N.of_nat (String.length rest))%N) in *. nia. }
  intros H1 H2.
  destruct (Hcanon _ _ H1) as (Hv1 & Hhi1 & Hlo1).
  destruct (Hcanon _ _ H2) as (Hv2 & Hhi2 & Hlo2).
  assert (String.length k1 = String.length k2) as Hlen.
  { assert (0 < String.length k1)%nat by (destruct k1; [done | simpl; lia]).
    assert (0 < String.length k2)%nat by (destruct k2; [done | simpl; lia]).
    destruct (Nat.lt_trichotomy (String.length k1) (String.length k2))
      as [Hlt|[?|Hlt]]; [|done|].
    - specialize (Hlo2 ltac:(lia)).
      assert (10 ^ N.of_nat (String.length k1)
              ≤ 10 ^ N.of_nat (String.length k2 - 1))%N
        by (apply N.pow_le_mono_r; lia).
      lia.
    - specialize (Hlo1 ltac:(lia)).
      assert (10 ^ N.of_nat (String.length k2)
              ≤ 10 ^ N.of_nat (String.length k1 - 1))%N
        by (apply N.pow_le_mono_r; lia).
      lia. }
  by destruct (digits_value_inj _ _ _ _ _ Hlen Hv1 Hv2).
Qed.


(** * Facts about sublists *)

Lemma filter_sublist {A} (P : A → bool) (l : list A) :
  List.filter P l `sublist_of` l.
Proof.
  induction l as [|x l IH]; simpl; [done|].
  destruct (P x); by constructor.
Qed.

Lemma sublist_filter_mono {A} (P : A → bool) (l1 l2 : list A) :
  l1 `sublist_of` l2 → List.filter P l1 `sublist_of` List.filter P l2.
Proof.
  induction 1 as [|x l1 l2 _ IH|x l1 l2 _ IH]; simpl; [done|..];
    destruct (P x); by try constructor.
Qed.

Lemma sublist_map_inv {A B} (f : A → B) (l : list A) (y1 y2 : B) :
  [y1; y2] `sublist_of` map f l →
  ∃ x1 x2, [x1; x2] `sublist_of` l ∧ f x1 = y1 ∧ f x2 = y2.
Proof.
  intros (k1 & k2 & Hl & (k3 & k4 & -> & _)%sublist_cons_l)%sublist_cons_l.
  apply fmap_app_inv in Hl as (l1 & l' & _ & Hl' & ->).
  symmetry in Hl'. apply fmap_cons_inv in Hl' as (x1 & l'' & -> & Hl'' & ->).
  symmetry in Hl''. apply fmap_app_inv in Hl'' as (l3 & l4 & _ & Hl4 & ->).
  symmetry in Hl4. apply fmap_cons_inv in Hl4 as (x2 & l5 & -> & _ & ->).
  exists x1, x2. split; [|done].
  apply sublist_inserts_l, sublist_skip, sublist_inserts_l, sublist_skip,
    sublist_nil_l.
Qed.

Lemma StronglySorted_pair {A} (R : A → A → Prop) (l : list A) x y :
  StronglySorted R l → [x; y] `sublist_of` l → R x y.
Proof.
  induction 1 as [|z l Hl IH Hz]; [by intros ?%sublist_nil_r|].
  intros [?|(l' & [= <- <-] & Hy)]%sublist_cons_r; [auto|].
  apply (proj1 (List.Forall_forall _ _) Hz).
  apply (proj1 (list_elem_of_In _ _)). eapply elem_of_sublist; [|done]. left.
Qed.

Lemma sublist_pair_elem_of {A} (l : list A) x y :
  [x; y] `sublist_of` l → x ∈ l ∧ y ∈ l.
Proof.
  intros H. split; (eapply elem_of_sublist; [|done]); [left | right; left].
Qed.

(** * Facts about the PIN tallies *)

Lemma pinGroups_snoc l s : pinGroups (l ++ [s]) = pin_step (pinGroups l) s.
Proof. unfold pinGroups. by rewrite foldl_app. Qed.

Lemma pin_shipments_snoc l s k :
  pin_shipments (l ++ [s]) k
  = pin_shipments l k ++ (if String.eqb (pin s) k then [s] else []).
Proof. unfold pin_shipments. by rewrite List.filter_app. Qed.

Lemma pin_shipments_nil l k : pin_shipments l k = [] ↔ ∀ t, t ∈ l → pin t ≠ k.
Proof.
  unfold pin_shipments. split.
  - intros Hnil t Ht Hk.
    assert (t ∈ List.filter (fun s => String.eqb (pin s) k) l) as Hin.
    { apply list_elem_of_In, List.filter_In. split; [by apply list_elem_of_In|].
      by apply String.eqb_eq. }
    rewrite Hnil in Hin. by apply elem_of_nil in Hin.
  - intros Hall. induction l as [|x l IH]; simpl; [done|].
    destruct (String.eqb_spec (pin x) k) as [Hx|_].
    + destruct (Hall x); [left | done].
    + apply IH. intros t Ht. apply Hall. by right.
Qed.

Lemma pin_tally_snoc l s :
  pin_tally (l ++ [s]) (pin s)
  = {| count := S (count (pin_tally l (pin s)));
       totalValue := totalValue (pin_tally l (pin s)) + line_amount s |}.
Proof.
  unfold pin_tally. rewrite pin_shipments_snoc, String.eqb_refl. simpl.
  rewrite length_app, Nat.add_1_r. unfold sum_by. by rewrite foldl_app.
Qed.

Lemma pin_shipments_snoc_ne l s k :
  pin s ≠ k → pin_shipments (l ++ [s]) k = pin_shipments l k.
Proof.
  intros Hne. rewrite pin_shipments_snoc.
  destruct (String.eqb_spec (pin s) k); [done|]. apply app_nil_r.
Qed.

Lemma pin_tally_snoc_ne l s k : pin s ≠ k → pin_tally (l ++ [s]) k = pin_tally l k.
Proof. intros Hne. unfold pin_tally. by rewrite pin_shipments_snoc_ne. Qed.

(** What [pinGroups] holds: one own property for each PIN of the list that
    is not the name of a member of [Object.prototype], created when the PIN
    is first met, with the number of shipments of that PIN and the sum of
    their amounts. *)
Lemma pinGroups_spec l :
  NoDup (map fst (pinGroups l)) ∧
  (∀ k, JSObject.get_own (pinGroups l) k
        = if JSObject.inherited k then None
          else match pin_shipments l k with
               | [] => None
               | _ => Some (pin_tally l k)
               end) ∧
  (∀ k1 k2, [k1; k2] `sublist_of` map fst (pinGroups l) → first_before l k1 k2).
Proof.
  induction l as [|s l (IHnd & IH & IHord)] using rev_ind.
  - split_and!; [constructor| |].
    + intros k. simpl. by destruct (JSObject.inherited k).
    + intros k1 k2 ?%sublist_nil_r. done.
  - rewrite pinGroups_snoc. unfold pin_step, JSObject.get.
    assert (∀ k1 k2, first_before l k1 k2 → first_before (l ++ [s]) k1 k2)
      as Hext.
    { intros k1 k2 (l1 & t & l2 & -> & ? & ?).
      exists l1, t, (l2 ++ [s]). by rewrite <- app_assoc. }
    destruct (JSObject.get_own (pinGroups l) (pin s)) as [d|] eqn:Hget.
    + (* the PIN has an own property: it is updated in place *)
      rewrite Hget. split_and!.
      * by apply NoDup_keys_set.
      * intros k. destruct (String.eqb_spec (pin s) k) as [<-|Hne].
        -- rewrite get_own_set_eq. rewrite IH in Hget.
           destruct (JSObject.inherited (pin s)); [done|].
           rewrite pin_tally_snoc, pin_shipments_snoc, String.eqb_refl.
           destruct (pin_shipments l (pin s)); [done|].
           by injection Hget as <-.
        -- rewrite get_own_set_ne by done.
           by rewrite IH, pin_shipments_snoc_ne, pin_tally_snoc_ne.
      * intros k1 k2. rewrite keys_set_old by (rewrite Hget; eauto). auto.
    + destruct (JSObject.inherited (pin s)) eqn:Hinh.
      * (* the PIN names an inherited member: no own property is made *)
        simpl. rewrite ?Hget, ?Hinh. split_and!; [done| |auto].
        intros k. rewrite IH.
        destruct (JSObject.inherited k) eqn:Hk; [done|].
        assert (pin s ≠ k) by congruence.
        by rewrite pin_shipments_snoc_ne, pin_tally_snoc_ne.
      * (* a new PIN: its property is created last *)
        simpl. rewrite ?get_own_set_eq.
        assert (pin_shipments l (pin s) = []) as Hnone.
        { rewrite IH, Hinh in Hget. by destruct (pin_shipments l (pin s)). }
        split_and!.
        -- by do 2 apply NoDup_keys_set.
        -- intros k. destruct (String.eqb_spec (pin s) k) as [<-|Hne].
           ++ rewrite get_own_set_eq, Hinh.
              rewrite pin_shipments_snoc, String.eqb_refl, Hnone. simpl.
              unfold pin_tally. rewrite pin_shipments_snoc, String.eqb_refl, Hnone.
              done.
           ++ rewrite !get_own_set_ne by done.
              by rewrite IH, pin_shipments_snoc_ne, pin_tally_snoc_ne.
        -- intros k1 k2.
           rewrite keys_set_old by (rewrite get_own_set_eq; eauto).
           rewrite set_new, map_app by done. simpl.
           intros (j1 & j2 & Hj & Hj1 & Hj2)%sublist_app_r.
           apply sublist_cons_r in Hj2 as [->%sublist_nil_r|(j' & -> & ->%sublist_nil_r)].
           ++ rewrite app_nil_r in Hj. subst j1. auto.
           ++ destruct j1 as [|a [|b j1]]; simpl in Hj; [done| |].
              2:{ injection Hj as _ _ Hj. by destruct j1. }
              injection Hj as <- ->.
              apply sublist_cons_l in Hj1 as (q1 & q2 & Hq & _).
              assert (k1 ∈ map fst (pinGroups l)) as Hk1.
              { rewrite Hq. apply elem_of_app. right. left. }
              apply list_elem_of_fmap in Hk1 as ([k d] & -> & Hkd). simpl.
              apply (elem_of_get_own _ _ _ IHnd) in Hkd.
              rewrite IH in Hkd.
              destruct (JSObject.inherited k); [done|].
              destruct (pin_shipments l k) as [|t ts] eqn:Hts; [done|].
              assert (t ∈ pin_shipments l k) as Ht by (rewrite Hts; left).
              apply list_elem_of_In, List.filter_In in Ht as [Ht Hpin].
              apply String.eqb_eq in Hpin.
              apply list_elem_of_In, list_elem_of_split in Ht as (l1 & l2 & ->).
              exists l1, t, (l2 ++ [s]). split_and!.
              ** by rewrite <- app_assoc.
              ** done.
              ** intros u Hu. apply (proj1 (pin_shipments_nil _ _) Hnone).
                 apply elem_of_app. by left.
Qed.


Section EntriesOrder.
Context {V : Type}.
Implicit Types (o : JSObject.t V).

Lemma elem_of_index_entries o n kv :
  (n, kv) ∈ JSObject.index_entries o → JSObject.array_index kv.1 = Some n.
Proof.
  unfold JSObject.index_entries. rewrite list_elem_of_omap.
  intros ([k v] & _ & H). simpl in H.
  destruct (JSObject.array_index k) as [m|] eqn:Hk; [|done].
  simpl in H. by injection H as <- <-.
Qed.

Lemma index_entries_sorted o :
  StronglySorted (fun a b => (a.1 ≤ b.1)%N)
    (Array_sort (fun a b => (a.1 <? b.1)%N) (JSObject.index_entries o)).
Proof.
  apply Sorted_StronglySorted.
  - intros x y z ??. lia.
  - eapply Sorted_impl;
      [|apply (Array_sort_Sorted (fun a b : N * (string * V) => (a.1 <? b.1)%N))].
    + unfold not_after. intros a b ?%N.ltb_ge. done.
    + intros a b ?%N.ltb_lt. apply N.ltb_ge. lia.
Qed.

(** [Object.entries]: array indices first, in ascending numeric order,
    then the other keys in the order of their creation. *)
Lemma entries_order o kv1 kv2 :
  NoDup (map fst o) →
  [kv1; kv2] `sublist_of` JSObject.entries o →
  enumerated_before (fun k1 k2 => [k1; k2] `sublist_of` map fst o) kv1.1 kv2.1.
Proof.
  intros Hnd Hsub.
  assert (kv1.1 ≠ kv2.1) as Hne.
  { apply (fmap_sublist fst) in Hsub.
    eapply sublist_NoDup in Hsub; [|by apply NoDup_keys_entries].
    apply NoDup_cons in Hsub as [Hsub _]. intros Heq. apply Hsub.
    simpl. rewrite Heq. left. }
  assert (∀ kv, kv ∈ List.filter (fun kv => negb (JSObject.is_array_index kv.1)) o →
                JSObject.array_index kv.1 = None) as Hrest.
  { intros kv [_ H]%list_elem_of_In%List.filter_In.
    unfold JSObject.is_array_index in H.
    by destruct (JSObject.array_index kv.1). }
  assert (∀ kv, kv ∈ map snd (Array_sort (fun a b => (a.1 <? b.1)%N)
                                 (JSObject.index_entries o)) →
                is_Some (JSObject.array_index kv.1)) as Hidx.
  { intros kv ([n kv'] & -> & Hin)%list_elem_of_fmap.
    apply Array_sort_elem_of, elem_of_index_entries in Hin. simpl. eauto. }
  unfold JSObject.entries in Hsub.
  apply sublist_app_r in Hsub as (j1 & j2 & Hj & Hj1 & Hj2).
  unfold enumerated_before.
  destruct j1 as [|a [|b j1]]; simpl in Hj.
  - subst j2. destruct (sublist_pair_elem_of _ _ _ Hj2) as [H1 H2].
    rewrite (Hrest _ H1), (Hrest _ H2).
    apply (fmap_sublist fst) in Hj2.
    etrans; [apply Hj2|]. apply fmap_sublist, filter_sublist.
  - injection Hj as <- <-.
    destruct (Hidx kv1) as [n1 ->].
    { eapply elem_of_sublist; [|done]. left. }
    rewrite (Hrest kv2); [done|]. eapply elem_of_sublist; [|done]. left.
  - injection Hj as <- <- Hj. destruct j1; [|done]. clear Hj j2 Hj2.
    apply sublist_map_inv in Hj1 as ([n1 x1] & [n2 x2] & Hs & <- & <-).
    pose proof (StronglySorted_pair _ _ _ _ (index_entries_sorted o) Hs) as Hle.
    apply sublist_pair_elem_of in Hs as [H1 H2].
    apply Array_sort_elem_of, elem_of_index_entries in H1.
    apply Array_sort_elem_of, elem_of_index_entries in H2.
    simpl in *. rewrite H1, H2.
    destruct (decide (n1 = n2)) as [->|]; [|lia].
    destruct Hne. by eapply array_index_inj.
Qed.
End EntriesOrder.

(** * Facts about the ranking of PINs *)

Lemma more_often_spec a b : more_often a b = true ↔ (tp_count b < tp_count a)%nat.
Proof. unfold more_often. rewrite Z.ltb_lt. lia. Qed.

Lemma ranked_pins_sorted l :
  StronglySorted (fun a b => (tp_count b ≤ tp_count a)%nat) (ranked_pins l).
Proof.
  apply Sorted_StronglySorted.
  - intros x y z ??. lia.
  - eapply Sorted_impl; [|apply (Array_sort_Sorted more_often)].
    + unfold not_after. intros a b Hab.
      destruct (more_often b a) eqn:H; [done|].
      destruct (Nat.le_gt_cases (tp_count b) (tp_count a)) as [|Hlt]; [done|].
      apply more_often_spec in Hlt. congruence.
    + intros a b Hab%more_often_spec.
      destruct (more_often b a) eqn:H; [|done].
      apply more_often_spec in H. lia.
Qed.

Lemma ranked_pins_Permutation l :
  ranked_pins l ≡ₚ map pin_entry (pinGroups l).
Proof.
  unfold ranked_pins. by rewrite Array_sort_Permutation, entries_Permutation.
Qed.

Lemma ranked_pins_keys l : map tp_pin (ranked_pins l) ≡ₚ map fst (pinGroups l).
Proof. rewrite ranked_pins_Permutation. by rewrite map_map. Qed.

Lemma elem_of_ranked_pins l e :
  e ∈ ranked_pins l ↔
  JSObject.inherited (tp_pin e) = false ∧ pin_shipments l (tp_pin e) ≠ [] ∧
  e = pin_entry (tp_pin e, pin_tally l (tp_pin e)).
Proof.
  destruct (pinGroups_spec l) as (Hnd & Hget & _).
  rewrite ranked_pins_Permutation, list_elem_of_fmap. split.
  - intros ([k d] & -> & Hkd). simpl.
    apply (elem_of_get_own _ _ _ Hnd) in Hkd. rewrite Hget in Hkd.
    destruct (JSObject.inherited k); [done|].
    destruct (pin_shipments l k) eqn:Hs; [done|].
    by injection Hkd as <-.
  - intros (Hinh & Hs & He). exists (tp_pin e, pin_tally l (tp_pin e)).
    split; [done|]. apply get_own_Some_elem_of. rewrite Hget, Hinh.
    by destruct (pin_shipments l (tp_pin e)).
Qed.

Lemma ranked_pins_ties l e1 e2 :
  [e1; e2] `sublist_of` ranked_pins l →
  tp_count e1 = tp_count e2 →
  enumerated_before (first_before l) (tp_pin e1) (tp_pin e2).
Proof.
  intros Hsub Hc. destruct (pinGroups_spec l) as (Hnd & _ & Hord).
  set (P := fun e => (tp_count e =? tp_count e1)%nat).
  apply (sublist_filter_mono P) in Hsub.
  assert (List.filter P [e1; e2] = [e1; e2]) as HP.
  { unfold P. simpl. by rewrite <- Hc, Nat.eqb_refl. }
  rewrite HP in Hsub. unfold ranked_pins in Hsub. rewrite Array_sort_stable in Hsub.
  2:{ unfold P. intros a b Ha%Nat.eqb_eq Hb%Nat.eqb_eq.
      destruct (more_often a b) eqn:H; [|done].
      apply more_often_spec in H. lia. }
  assert ([e1; e2] `sublist_of` map pin_entry (JSObject.entries (pinGroups l)))
    as Hsub' by (etrans; [apply Hsub | apply filter_sublist]).
  apply sublist_map_inv in Hsub' as (kv1 & kv2 & Hkv & <- & <-).
  pose proof (entries_order _ _ _ Hnd Hkv) as Hen.
  unfold enumerated_before in *. simpl.
  destruct (JSObject.array_index kv1.1), (JSObject.array_index kv2.1); auto.
Qed.


Lemma topProblematicPins_take shipments :
  topProblematicPins (calculateKPIs shipments)
  = take 10 (ranked_pins (List.filter is_overbilled shipments)).
Proof. by destruct shipments. Qed.

(** C4, counterexample.  Two overbilled shipments, PIN 600002 first and
    PIN 600001 second, one shipment each: the entry of 600001 is listed
    first, because a dictionary enumerates keys that are array indices in
    numeric order. *)
Lemma top_pins_first_encounter_fails : ¬ top_pins_rule first_before two_pins.
Proof.
  intros (_ & _ & _ & _ & _ & Htie).
  destruct (Htie {| tp_pin := "600001"; tp_count := 1; tp_totalValue := 0 + 100 |}
                 {| tp_pin := "600002"; tp_count := 1; tp_totalValue := 0 + 100 |})
    as (l1 & s & l2 & Hl & Hpin & Hno).
  - vm_compute. reflexivity.
  - reflexivity.
  - simpl in Hpin. destruct l1 as [|t l1].
    + injection Hl as <- _. discriminate Hpin.
    + injection Hl as <- _. by apply (Hno _ ltac:(left)).
Qed.

(** C4, amended.  [topProblematicPins] has at most 10 entries, with
    distinct PINs; each entry carries the number of overbilled shipments of
    its PIN and the sum of their amounts; the counts descend; a PIN of an
    overbilled shipment that has no entry (and is not the name of a member
    of [Object.prototype]) has a count no larger than any listed one; and
    of two entries of equal count the first is the one whose PIN the
    dictionary enumerates first: PINs that are array indices in ascending
    numeric order, then the other PINs in the order of first encounter. *)
Theorem top_pins_enumeration_order (shipments : list NormalizedShipment) :
  top_pins_rule (fun ob => enumerated_before (first_before ob)) shipments.
Proof.
  unfold top_pins_rule. rewrite topProblematicPins_take.
  set (ob := List.filter is_overbilled shipments).
  pose proof (sublist_take (ranked_pins ob) 10) as Htake.
  split_and!.
  - rewrite length_take. lia.
  - eapply sublist_NoDup; [|by apply fmap_sublist].
    rewrite ranked_pins_keys. apply pinGroups_spec.
  - intros e He. eapply elem_of_sublist in He; [|done].
    apply elem_of_ranked_pins in He as (_ & Hs & ->). simpl. split_and!; try done.
    destruct (pin_shipments ob (tp_pin e)); [done | simpl; lia].
  - eapply StronglySorted_app_1_l. rewrite take_drop. apply ranked_pins_sorted.
  - intros k Hinh Hs Hk.
    assert (pin_entry (k, pin_tally ob k) ∈ ranked_pins ob) as Hin.
    { apply elem_of_ranked_pins. by simpl. }
    rewrite <- (take_drop 10 (ranked_pins ob)) in Hin.
    apply elem_of_app in Hin as [Hin|Hin].
    { destruct Hk. by apply (list_elem_of_fmap_2 tp_pin) in Hin. }
    split.
    + rewrite length_take. apply list_elem_of_lookup_1 in Hin as [i Hi].
      apply lookup_lt_Some in Hi. rewrite length_drop in Hi. lia.
    + intros e He.
      pose proof (ranked_pins_sorted ob) as Hsorted.
      rewrite <- (take_drop 10 (ranked_pins ob)) in Hsorted.
      apply (StronglySorted_app_1_elem_of _ _ _ _ _ Hsorted He Hin).
  - intros e1 e2 Hsub. apply ranked_pins_ties. by etrans.
Qed.


(** * Facts about strings *)

Lemma split_nonempty sep s : ∃ p ps, JSString.split sep s = p :: ps.
Proof.
  induction s as [|c s (p & ps & IH)]; simpl; [eauto|].
  destruct (Ascii.eqb c sep); [eauto|]. rewrite IH. eauto.
Qed.

(** * Facts about the date parser *)

Section DateParser.
Variable now : Z.
Variable parseISO : string -> Date.
Variable Date_parse_fallback : string -> Date.
Variable inherited_text : string -> string.

Lemma checked_date_ok (d : Date) :
  branch_ok (if isValid d then Normal (Some d) else Normal None).
Proof.
  destruct (isValid d) eqn:Hv.
  - eexists. split; [done|]. by intros d' [= <-].
  - eexists. split; [done|]. done.
Qed.

Lemma fall_through_ok : branch_ok (Normal None).
Proof. eexists. split; [done|]. done. Qed.

Lemma iso_branch_ok s : branch_ok (iso_branch Date_parse_fallback s).
Proof.
  unfold iso_branch. destruct (match_iso_date s); [|apply fall_through_ok].
  apply checked_date_ok.
Qed.

Lemma delhivery_branch_ok s : branch_ok (delhivery_branch Date_parse_fallback s).
Proof.
  unfold delhivery_branch.
  destruct (_ && _); [|apply fall_through_ok].
  destruct (split_nonempty " " s) as (datePart & ps & ->). simpl.
  destruct (JSString.split "-" datePart) as [|p0 [|p1 [|p2 [|p3 ps']]]];
    simpl; try apply fall_through_ok.
  apply checked_date_ok.
Qed.

Lemma bluedart_branch_ok s :
  branch_ok (bluedart_branch Date_parse_fallback inherited_text s).
Proof.
  unfold bluedart_branch.
  destruct (_ && _); [|apply fall_through_ok].
  destruct (JSString.split "-" s) as [|p0 [|p1 [|p2 [|p3 ps']]]];
    simpl; try apply fall_through_ok.
  destruct (JSObject.get months (JSString.trim p1));
    try apply fall_through_ok; apply checked_date_ok.
Qed.

Lemma parseDate_try_ok s :
  ∃ t, parseDate_try now parseISO Date_parse_fallback inherited_text s
       = Normal (TimeValue t).
Proof.
  unfold parseDate_try.
  destruct (iso_branch_ok s) as ([d|] & -> & Hd); simpl.
  { specialize (Hd d eq_refl). destruct d; [done | eauto]. }
  destruct (delhivery_branch_ok s) as ([d|] & -> & Hd'); simpl.
  { specialize (Hd' d eq_refl). destruct d; [done | eauto]. }
  destruct (bluedart_branch_ok s) as ([d|] & -> & Hd''); simpl.
  { specialize (Hd'' d eq_refl). destruct d; [done | eauto]. }
  destruct (parseISO s); simpl; unfold new_Date_now; eauto.
Qed.

Lemma parseDate_returns (dateStr : string) :
  ∃ t, parseDate now parseISO Date_parse_fallback inherited_text dateStr
       = Normal (TimeValue t).
Proof.
  unfold parseDate.
  destruct (_ || _); [unfold new_Date_now; eauto|].
  destruct (parseDate_try_ok dateStr) as [t ->]. eauto.
Qed.

(** C6. On every text the date parser returns, without throwing, a valid
    date; on ["07-Jul-25"] the date is midnight UTC of 7 July 2025; on
    the empty text it is the current time. *)
Theorem parseDate_total (dateStr : string) :
  (∃ t, parseDate now parseISO Date_parse_fallback inherited_text dateStr
        = Normal (TimeValue t)) ∧
  parseDate now parseISO Date_parse_fallback inherited_text "07-Jul-25"
  = Normal (TimeValue 1751846400000) ∧
  Calendar.utc_midnight 2025 7 7 = Some 1751846400000%Z ∧
  parseDate now parseISO Date_parse_fallback inherited_text ""
  = Normal (TimeValue now).
Proof.
  split_and!; [apply parseDate_returns | reflexivity..].
Qed.
End DateParser.


Lemma plain_char_spec c :
  plain_char c = true →
  Ascii.eqb c "-" = false ∧ Ascii.eqb c " " = false
  ∧ JSString.is_white_space c = false.
Proof.
  unfold plain_char. intros [Hsep Hws]%andb_true_iff.
  apply negb_true_iff in Hsep, Hws. split_and!; [done| |done].
  apply not_true_iff_false. intros ->%Ascii.eqb_eq. discriminate Hws.
Qed.

(** Digits and letters are plain characters. *)
Lemma digit_is_plain c : JSObject.is_digit c = true → plain_char c = true.
Proof.
  destruct c as [[] [] [] [] [] [] [] []]; vm_compute; intuition discriminate.
Qed.

Lemma letter_is_plain c : is_letter c = true → plain_char c = true.
Proof.
  destruct c as [[] [] [] [] [] [] [] []]; vm_compute; intuition discriminate.
Qed.

Lemma inherited_three_letters m1 m2 m3 :
  JSObject.inherited (String m1 (String m2 (String m3 EmptyString))) = false.
Proof.
  unfold JSObject.inherited, JSObject.Object_prototype_names.
  apply not_true_iff_false. intros H.
  apply existsb_exists in H as (name & Hin & Heq).
  apply String.eqb_eq in Heq. subst name.
  simpl in Hin. intuition discriminate.
Qed.

Section MonthTable.
Variable now : Z.
Variable parseISO : string -> Date.
Variable Date_parse_fallback : string -> Date.
Variable inherited_text : string -> string.

(** C10. The month table is read with the month token as it is written:
    on a text DD-MMM-YY (seven characters other than the hyphen and white
    space, digits and letters among them) whose month is not one of the
    twelve keys ["Jan"] .. ["Dec"] the table has no entry, the BlueDart
    branch returns nothing, and the result is that of the generic ISO
    parse or, when that is invalid, the current time. *)
Theorem parseDate_month_case_sensitive (d1 d2 m1 m2 m3 y1 y2 : ascii) :
  let monthStr := String m1 (String m2 (String m3 EmptyString)) in
  let dateStr := dd_mmm_yy d1 d2 m1 m2 m3 y1 y2 in
  forallb plain_char [d1; d2; m1; m2; m3; y1; y2] = true →
  monthStr ∉ map fst months →
  JSObject.get months monthStr = JSObject.Undefined ∧
  bluedart_branch Date_parse_fallback inherited_text dateStr = Normal None ∧
  parseDate now parseISO Date_parse_fallback inherited_text dateStr
  = Normal (if isValid (parseISO dateStr) then parseISO dateStr
            else TimeValue now).
Proof.
  intros monthStr dateStr Hplain Hmonth.
  repeat (apply andb_true_iff in Hplain as [? Hplain]).
  destruct (plain_char_spec d1) as (Hd1 & Hd1' & Hd1''); [done|].
  destruct (plain_char_spec d2) as (Hd2 & Hd2' & Hd2''); [done|].
  destruct (plain_char_spec y1) as (Hy1 & Hy1' & Hy1''); [done|].
  destruct (plain_char_spec y2) as (Hy2 & Hy2' & Hy2''); [done|].
  destruct (plain_char_spec m1) as (Hm1 & Hm1' & Hm1''); [done|].
  destruct (plain_char_spec m2) as (Hm2 & Hm2' & Hm2''); [done|].
  destruct (plain_char_spec m3) as (Hm3 & Hm3' & Hm3''); [done|].
  assert (JSObject.get months monthStr = JSObject.Undefined) as Hget.
  { unfold JSObject.get.
    rewrite (proj2 (get_own_None months monthStr)) by done.
    unfold monthStr. by rewrite inherited_three_letters. }
  assert (bluedart_branch Date_parse_fallback inherited_text dateStr
          = Normal None) as Hbd.
  { unfold bluedart_branch, dateStr, dd_mmm_yy, JSString.trim.
    repeat (progress (cbn -[JSObject.get];
      rewrite ?Hd1, ?Hd2, ?Hy1, ?Hy2, ?Hm1, ?Hm2, ?Hm3,
        ?Hd1', ?Hd2', ?Hy1', ?Hy2', ?Hm1', ?Hm2', ?Hm3',
        ?Hd1'', ?Hd2'', ?Hy1'', ?Hy2'', ?Hm1'', ?Hm2'', ?Hm3'')).
    fold monthStr. by rewrite Hget. }
  split_and!; [done..|].
  unfold parseDate, parseDate_try. rewrite Hbd.
  unfold iso_branch, delhivery_branch, dateStr, dd_mmm_yy, JSString.trim.
  repeat (progress (cbn;
    rewrite ?Hd1, ?Hd2, ?Hy1, ?Hy2, ?Hm1, ?Hm2, ?Hm3,
      ?Hd1', ?Hd2', ?Hy1', ?Hy2', ?Hm1', ?Hm2', ?Hm3',
      ?Hd1'', ?Hd2'', ?Hy1'', ?Hy2'', ?Hm1'', ?Hm2'', ?Hm3'')).
  by destruct (parseISO _).
Qed.

End MonthTable.

Lemma parseDate_month_case_sensitive_witness :
  parseDate 0 (fun _ => InvalidDate) (fun _ => InvalidDate) (fun k => k)
    "07-JUL-25" = Normal (TimeValue 0)
  ∧ parseDate 0 (fun _ => InvalidDate) (fun _ => InvalidDate) (fun k => k)
      "07-jul-25" = Normal (TimeValue 0).
Proof.
  split.
  - apply (parseDate_month_case_sensitive 0 (fun _ => InvalidDate)
             (fun _ => InvalidDate) (fun k => k) "0" "7" "J" "U" "L" "2" "5");
      [reflexivity | ].
    apply (proj1 (get_own_None months "JUL")). reflexivity.
  - apply (parseDate_month_case_sensitive 0 (fun _ => InvalidDate)
             (fun _ => InvalidDate) (fun k => k) "0" "7" "j" "u" "l" "2" "5");
      [reflexivity | ].
    apply (proj1 (get_own_None months "jul")). reflexivity.
Defined.


(** * Facts about the normalizers *)

Lemma mapM_Normal {A B} (f : A → completion B) (P : B → Prop) (l : list A) :
  (∀ x, ∃ y, f x = Normal y ∧ P y) →
  ∃ l', mapM f l = Normal l' ∧ length l' = length l ∧ Forall P l'.
Proof.
  intros Hf. induction l as [|x l (l' & IH & Hlen & HP)]; simpl.
  - exists []. by split_and!.
  - destruct (Hf x) as (y & -> & Hy). rewrite IH. simpl.
    exists (y :: l'). split_and!; [done | simpl; lia | by constructor].
Qed.

Lemma missing_actual_flag a :
  negb (truthy_number a) || Qeq_bool a 0 = true ↔ a == 0.
Proof.
  unfold truthy_number. rewrite negb_involutive, orb_diag. apply Qeq_bool_iff.
Qed.

Section NormalizerFacts.
Variable now : Z.
Variable parseISO : string -> Date.
Variable Date_parse_fallback : string -> Date.
Variable inherited_text : string -> string.
Variable parseFloat : string -> option number.
Variable parseInt : string -> option Z.
Variable Number_toString : number -> string.

Lemma normalizeBlueDartRow_missing_actual row :
  ∃ s, normalizeBlueDartRow now parseISO Date_parse_fallback inherited_text
         parseFloat parseInt Number_toString row = Normal s ∧
       (flag_missing_actual s = true ↔ actual_weight_kg s == 0).
Proof.
  unfold normalizeBlueDartRow, pickup.
  destruct (parseDate_returns now parseISO Date_parse_fallback inherited_text
              (text_or (PICKUP_DT row) (text_or (PICKUP_DT row) "")))
    as [t ->].
  eexists. split; [reflexivity|]. simpl. apply missing_actual_flag.
Qed.

Lemma normalizeDelhiveryRow_missing_actual grams row :
  ∃ s, normalizeDelhiveryRow now parseISO Date_parse_fallback inherited_text
         parseFloat parseInt Number_toString grams row = Normal s ∧
       (flag_missing_actual s = true ↔ actual_weight_kg s == 0) ∧
       0 <= actual_weight_kg s.
Proof.
  unfold normalizeDelhiveryRow, pickup.
  destruct (parseDate_returns now parseISO Date_parse_fallback inherited_text
              (DelhiveryRaw.pickup_date row)) as [t ->].
  eexists. split; [reflexivity|]. simpl. split; [apply missing_actual_flag|].
  destruct (Qgtb _ 0) eqn:Hpos; [|done].
  apply Qltb_lt in Hpos.
  apply Qle_shift_div_l; [done|]. rewrite Qmult_0_l.
  apply Qle_shift_div_l; [done|]. rewrite Qmult_0_l.
  apply Qmult_le_0_compat; [by apply Qlt_le_weak | done].
Qed.
End NormalizerFacts.

(** C5, counterexample.  A BlueDart row with the actual weight -1.5: the
    weight is not positive, and the flag is not set. *)
Lemma missing_actual_nonpositive_fails :
  ¬ missing_actual_rule (fun a => a <= 0) (fun a => a <= 0).
Proof.
  intros H.
  destruct (H 0%Z (fun _ => InvalidDate) (fun _ => InvalidDate) (fun k => k)
              (fun _ => None) (fun _ => None) (fun _ => EmptyString)) as [HB _].
  destruct (HB [negative_weight_row]) as (l & Hl & _ & Hall).
  vm_compute in Hl. injection Hl as <-.
  apply Forall_cons in Hall as [[_ Hflag] _].
  simpl in Hflag. specialize (Hflag ltac:(done)). discriminate.
Qed.

(** C5, amended.  Both normalizers return.  A shipment of
    [normalizeBlueDart] has [flag_missing_actual] exactly when its actual
    weight is 0; a shipment of [normalizeDelhivery], whose actual weight is
    never negative, exactly when its actual weight is at most 0. *)
Theorem missing_actual_zero :
  missing_actual_rule (fun a => a == 0) (fun a => a <= 0).
Proof.
  intros now parseISO fallback inh parseFloat parseInt numstr. split.
  - intros data. unfold normalizeBlueDart.
    destruct data as [|row data]; [exists []; by split_and!|].
    change (length (row :: data) =? 0)%nat with false. cbv iota.
    apply mapM_Normal. apply normalizeBlueDartRow_missing_actual.
  - intros data. unfold normalizeDelhivery.
    destruct data as [|row data]; [exists []; by split_and!|].
    change (length (row :: data) =? 0)%nat with false. cbv iota.
    set (grams := match detectWeightUnit _ with g => true | kg => false end).
    apply mapM_Normal. intros r.
    destruct (normalizeDelhiveryRow_missing_actual now parseISO fallback inh
                parseFloat parseInt numstr grams r) as (s & Hs & Hflag & Hpos).
    exists s. split; [done|]. rewrite Hflag. split.
    + intros ->. apply Qle_refl.
    + intros Hle. by apply Qle_antisym.
Qed.


(** * The pipeline on one overbilled shipment *)

(** C1.  A single overbilled BlueDart shipment, normalized and run through
    the outlier detector: its group has one member, the group is skipped,
    and [flag_miscalculated] keeps the [false] the normalizer gave it
    although [is_overbilled] is [true]. *)
Theorem miscalculated_not_recomputed
    (now : Z) (parseISO Date_parse_fallback : string → Date)
    (inherited_text : string → string) (parseFloat : string → option number)
    (parseInt : string → option Z) (Number_toString : number → string) :
  ∃ s,
    (shipments <- normalizeBlueDart now parseISO Date_parse_fallback
                    inherited_text parseFloat parseInt Number_toString
                    [overbilled_row] ;;
     Normal (calculateOutliers shipments)) = Normal [s] ∧
    is_overbilled s = true ∧
    flag_miscalculated s = false ∧
    flag_miscalculated s
    ≠ (is_overbilled s || flag_roundup_jump s || flag_charge_outlier s).
Proof.
  eexists. split; [vm_compute; reflexivity|]. by split_and!.
Qed.

(** The cells of a shipment with a valid pickup date: 22 of them, in the
    order of the header. *)
Lemma csvCells_valid_date : csv_columns_rule 22.
Proof.
  intros numstr fmt s t Ht. split; [reflexivity|].
  unfold csvCells. rewrite Ht. simpl. eexists. by split_and!.
Qed.


(** * Facts about [split] and [join] *)

Lemma split_app_sep sep a b :
  JSString.split sep (a +:+ String sep b)
  = JSString.split sep a ++ JSString.split sep b.
Proof.
  induction a as [|c a IH]; simpl.
  - by rewrite Ascii.eqb_refl.
  - destruct (Ascii.eqb c sep); [by rewrite IH|].
    rewrite IH. destruct (split_nonempty sep a) as (p & ps & ->). done.
Qed.

Lemma split_no_sep sep s :
  JSString.includes sep s = false → JSString.split sep s = [s].
Proof.
  induction s as [|c s IH]; simpl; [done|].
  intros [Hc Hs]%orb_false_iff. rewrite Hc, IH by done. done.
Qed.

Lemma join_cons sep x y l :
  JSString.join sep (x :: y :: l) = x +:+ sep +:+ JSString.join sep (y :: l).
Proof. done. Qed.

Lemma append_assoc (a b c : string) : (a +:+ b) +:+ c = a +:+ (b +:+ c).
Proof.
  induction a as [|x a IH]; [done|].
  change (String x ((a +:+ b) +:+ c) = String x (a +:+ (b +:+ c))).
  by f_equal.
Qed.

Lemma join_app sep l1 x l2 :
  JSString.join sep (l1 ++ x :: l2)
  = match l1 with
    | [] => JSString.join sep (x :: l2)
    | _ => JSString.join sep l1 +:+ sep +:+ JSString.join sep (x :: l2)
    end.
Proof.
  induction l1 as [|y [|z l1] IH]; [done|done|].
  change ((y :: z :: l1) ++ x :: l2) with (y :: (z :: l1) ++ x :: l2).
  change ((z :: l1) ++ x :: l2) with (z :: (l1 ++ x :: l2)) at 1.
  rewrite join_cons.
  change (z :: l1 ++ x :: l2) with ((z :: l1) ++ x :: l2).
  rewrite IH, join_cons. by rewrite !append_assoc.
Qed.

Lemma split_join sep cells :
  cells ≠ [] →
  Forall (fun cell => JSString.includes sep cell = false) cells →
  JSString.split sep (JSString.join (String sep EmptyString) cells) = cells.
Proof.
  intros Hne Hall. induction Hall as [|x l Hx Hl IH]; [done|].
  destruct l as [|y l]; [by apply split_no_sep|].
  rewrite join_cons. change (String sep "" +:+ ?s) with (String sep s).
  rewrite split_app_sep, split_no_sep by done. simpl. f_equal. by apply IH.
Qed.

Lemma read_flags_Y_N flags : read_flags (map Y_N flags) = Some flags.
Proof.
  induction flags as [|b flags IH]; simpl; [done|].
  rewrite IH. by destruct b.
Qed.

Lemma split_Y_N flags :
  flags ≠ [] →
  JSString.split "," (JSString.join "," (map Y_N flags)) = map Y_N flags.
Proof.
  intros Hne. apply (split_join ","); [by destruct flags|].
  apply Forall_fmap, Forall_true. by intros [].
Qed.

(** C8, counterexample.  Two shipments that differ in [flag_miscalculated]
    alone are exported as the same text, so nothing can read both back. *)
Lemma round_trip_fails :
  ¬ ∃ Number_toString format_yyyy_MM_dd,
      lossless_round_trip Number_toString format_yyyy_MM_dd.
Proof.
  intros (numstr & fmt & reparse & H).
  set (s := sample BlueDart "South" "PPM" "600045" 2 100).
  assert (∃ csv, exportToCSV numstr fmt [s] = Normal csv) as [csv Hcsv]
    by (eexists; reflexivity).
  pose proof (H [s] csv Hcsv) as H1.
  pose proof (H [set_flag_miscalculated true s] csv Hcsv) as H2.
  rewrite H1 in H2. discriminate H2.
Qed.

(** C8, amended.  The export of a shipment with a valid date is a line
    whose last five comma-separated fields read back as the five exported
    flags, whatever the other fields contain; and when no cell contains a
    comma, splitting the line at the commas gives back the 22 cells. *)
Theorem exported_flags_round_trip
    (Number_toString : number → string) (format_yyyy_MM_dd : Z → string)
    (s : NormalizedShipment) (t : Z) :
  pickup_date s = TimeValue t →
  ∃ cells line,
    csvCells Number_toString format_yyyy_MM_dd s = Normal cells ∧
    csvLine Number_toString format_yyyy_MM_dd s = Normal line ∧
    reparse_flags line = Some (exported_flags s) ∧
    (Forall (fun cell => JSString.includes "," cell = false) cells →
     JSString.split "," line = cells).
Proof.
  intros Ht.
  destruct (csvCells_valid_date Number_toString format_yyyy_MM_dd s t Ht)
    as (_ & cells & Hcells & Hlen & Heq).
  exists cells, (JSString.join "," cells).
  split_and!; [done | by unfold csvLine; rewrite Hcells | | ].
  - assert (cells = take 17 cells ++ map Y_N (exported_flags s)) as Hsplit.
    { rewrite <- (take_drop 17 cells) at 1. f_equal. by rewrite Heq. }
    assert (∃ x pre, take 17 cells = x :: pre) as (x & pre & Hpre)
      by (rewrite Heq; by eexists _, _).
    unfold reparse_flags. rewrite Hsplit, Hpre.
    change (map Y_N (exported_flags s))
      with (Y_N (flag_high_uplift s) :: map Y_N (tail (exported_flags s))) at 1 2.
    rewrite join_app.
    change ("," +:+ ?s) with (String "," s).
    rewrite split_app_sep.
    change (Y_N (flag_high_uplift s) :: map Y_N (tail (exported_flags s)))
      with (map Y_N (exported_flags s)).
    rewrite split_Y_N by done.
    rewrite length_app.
    replace (length (JSString.split "," (JSString.join "," (x :: pre)))
             + length (map Y_N (exported_flags s)) - 5)%nat
      with (length (JSString.split "," (JSString.join "," (x :: pre))))
      by (simpl; lia).
    rewrite drop_app_length. apply read_flags_Y_N.
  - intros Hall. apply (split_join ","); [|done]. by rewrite Heq.
Qed.

Lemma exported_flags_round_trip_witness :
  ∃ line,
    csvLine (fun _ => "1") (fun _ => "1970-01-01")
      (sample BlueDart "South" "PPM" "600045" 2 100) = Normal line ∧
    reparse_flags line = Some [true; false; false; false; false].
Proof.
  destruct (exported_flags_round_trip (fun _ => "1") (fun _ => "1970-01-01")
              (sample BlueDart "South" "PPM" "600045" 2 100) 0%Z eq_refl)
    as (cells & line & _ & Hline & Hflags & _).
  by exists line.
Defined.


(** * The columns of the exported text *)

Lemma length_split_commas (s : string) :
  length (JSString.split "," s) = S (commas s).
Proof.
  induction s as [|c s IH]; simpl; [done|].
  destruct (Ascii.eqb c ","); simpl; [by rewrite IH|].
  destruct (split_nonempty "," s) as (p & ps & Hs).
  rewrite Hs in *. simpl in *. done.
Qed.

Lemma length_split_join cells :
  cells ≠ [] →
  length (JSString.split "," (JSString.join "," cells))
  = (length cells + sum_list_with commas cells)%nat.
Proof.
  intros Hne. induction cells as [|x l IH]; [done|].
  destruct l as [|y l]; [simpl; rewrite length_split_commas; lia|].
  rewrite join_cons. change ("," +:+ ?s) with (String "," s).
  rewrite split_app_sep, length_app, length_split_commas, IH by done.
  simpl. lia.
Qed.

Lemma includes_append c (a b : string) :
  JSString.includes c (a +:+ b) = JSString.includes c a || JSString.includes c b.
Proof.
  induction a as [|x a IH]; [done|].
  change (JSString.includes c (String x (a +:+ b))
          = JSString.includes c (String x a) || JSString.includes c b).
  simpl. by rewrite IH, orb_assoc.
Qed.

Lemma includes_join c (sep : string) cells :
  JSString.includes c sep = false →
  Forall (fun cell => JSString.includes c cell = false) cells →
  JSString.includes c (JSString.join sep cells) = false.
Proof.
  intros Hsep Hall. induction Hall as [|x l Hx Hl IH]; [done|].
  destruct l as [|y l]; [done|].
  rewrite join_cons, !includes_append, Hx, Hsep, IH. done.
Qed.

Lemma exportToCSV_listed_cells (Number_toString : number → string)
    (format_yyyy_MM_dd : Z → string) (shipments : list NormalizedShipment) :
  Forall (fun s => isValid (pickup_date s) = true) shipments →
  ∃ rows,
    mapM (csvLine Number_toString format_yyyy_MM_dd) shipments
    = Normal (map (JSString.join ",") rows) ∧
    Forall2 (fun s cells =>
               ∃ t, pickup_date s = TimeValue t ∧
                    cells = listed_cells Number_toString format_yyyy_MM_dd s t)
            shipments rows.
Proof.
  induction 1 as [|s l Hs Hl (rows & IH & Hrows)]; simpl.
  - exists []. by split.
  - destruct (pickup_date s) as [|t] eqn:Ht; [done|].
    exists (listed_cells Number_toString format_yyyy_MM_dd s t :: rows). split.
    + unfold csvLine at 1, csvCells. rewrite Ht, IH. reflexivity.
    + constructor; [by exists t | done].
Qed.

(** C3, counterexample: the header line has 22 names and the line of a
    shipment 22 cells, not 21. *)
Lemma csv_21_columns_fails : ¬ csv_export_rule 21.
Proof.
  intros H.
  destruct (H (fun _ => EmptyString) (fun _ => EmptyString)
              [sample BlueDart "South" "PPM" "600045" 1 100])
    as (Hheaders & _ & _ & rows & csv & _ & _ & Hrows & _).
  - by repeat constructor.
  - discriminate Hheaders.
Qed.

(** C3, amended.  For shipments with valid pickup dates whose cells
    contain no comma and no line feed, the header and every row of the
    text that [exportToCSV] returns have exactly 22 columns, in the order:
    pickup date, carrier, AWB, origin, destination, PIN, pieces, three
    weights with 3 decimals, four amounts with 2 decimals, service, zone,
    status, and the five flags as Y or N.  In full: the text is the header
    line followed by one line for each shipment, joined by line feeds; the
    header line is the 22 names joined by commas and the line of a
    shipment its 22 cells joined by commas; read back by splitting at the
    commas, a line gives the 22 cells when none of them contains a comma,
    and in any case 22 fields and one more for each comma inside a cell. *)
Theorem csv_22_columns : csv_export_rule 22.
Proof.
  intros numstr fmt shipments Hvalid.
  split; [reflexivity|]. split; [vm_compute; reflexivity|].
  split; [vm_compute; reflexivity|].
  destruct (exportToCSV_listed_cells numstr fmt shipments Hvalid)
    as (rows & Hmap & Hrows).
  exists rows. eexists. split_and!.
  - unfold exportToCSV. rewrite Hmap. reflexivity.
  - reflexivity.
  - eapply Forall2_impl; [exact Hrows|].
    intros s cells (t & Ht & ->). split_and!.
    + by exists t.
    + unfold csvLine, csvCells. rewrite Ht. reflexivity.
    + reflexivity.
    + by rewrite length_split_join.
    + intros Hall. by apply (split_join ",").
  - intros Hall. apply (split_join line_feed); [done|].
    constructor; [vm_compute; reflexivity|].
    apply Forall_fmap. eapply Forall_impl; [exact Hall|].
    intros cells Hcells. by apply includes_join.
Qed.

Lemma csv_22_columns_witness :
  ∃ cells,
    exportToCSV (fun _ => "1") (fun _ => "1970-01-01")
      [sample BlueDart "South" "PPM" "600045" 1 100]
    = Normal (JSString.join (String line_feed EmptyString)
                [header_line; JSString.join "," cells]) ∧
    JSString.split "," (JSString.join "," cells) = cells ∧
    length cells = 22%nat.
Proof.
  destruct (csv_22_columns (fun _ => "1") (fun _ => "1970-01-01")
              [sample BlueDart "South" "PPM" "600045" 1 100])
    as (_ & _ & _ & rows & csv & Hcsv & -> & Hrows & _).
  - repeat constructor.
  - apply Forall2_cons_inv_l in Hrows
      as (cells & rest & (Hcells & _ & Hlen & _ & Hsplit) & ->%Forall2_nil_inv_l & ->).
    exists cells. split_and!; [done| |done].
    apply Hsplit. destruct Hcells as (t & [= <-] & ->).
    vm_compute. repeat constructor.
Defined.

(** A comma inside a cell that is written without quotes: the zone
    South, Metro makes a line of 23 comma-separated fields. *)
Example csv_comma_in_zone :
  ∃ line,
    csvLine (fun _ => "1") (fun _ => "1970-01-01")
      (sample BlueDart "South, Metro" "PPM" "600045" 1 100) = Normal line ∧
    length (JSString.split "," line) = 23%nat.
Proof. eexists. split; [reflexivity|]. vm_compute. reflexivity. Qed.


(** * Further facts about numbers *)

Lemma Qgeb_le x y : Qgeb x y = true ↔ y <= x.
Proof. unfold Qgeb. apply Qle_bool_iff. Qed.

Lemma Qle_bool_false x y : Qle_bool x y = false ↔ y < x.
Proof.
  split.
  - intros H. apply Qnot_le_lt. intros Hle%Qle_bool_iff. congruence.
  - intros Hlt. apply not_true_iff_false. intros Hle%Qle_bool_iff. lra.
Qed.

(** Case analysis on every comparison of the goal. *)
Ltac q_cases :=
  unfold Qgtb, Qgeb, Qltb, truthy_number in *;
  repeat match goal with
  | |- context [Qle_bool ?a ?b] =>
      let H := fresh "Hcmp" in
      destruct (Qle_bool a b) eqn:H;
      [apply Qle_bool_iff in H | apply Qle_bool_false in H]
  | |- context [Qeq_bool ?a ?b] =>
      let H := fresh "Hcmp" in
      destruct (Qeq_bool a b) eqn:H;
      [apply Qeq_bool_iff in H | apply Qeq_bool_neq in H]
  end;
  simpl in *.

Lemma num_of_nat_S n : num_of_nat (S n) == num_of_nat n + 1.
Proof.
  unfold num_of_nat. rewrite Nat2Z.inj_succ, <- Z.add_1_r.
  by rewrite inject_Z_plus.
Qed.

Lemma num_of_nat_pos n : (0 < n)%nat → 0 < num_of_nat n.
Proof.
  intros Hn. unfold num_of_nat.
  change 0 with (inject_Z 0). rewrite <- Zlt_Qlt. lia.
Qed.

Lemma num_of_nat_nonneg n : 0 <= num_of_nat n.
Proof.
  unfold num_of_nat. change 0 with (inject_Z 0). rewrite <- Zle_Qle. lia.
Qed.

Lemma num_of_nat_le m n : (m ≤ n)%nat → num_of_nat m <= num_of_nat n.
Proof. intros H. unfold num_of_nat. rewrite <- Zle_Qle. lia. Qed.

(** * Facts about the weight-unit detector *)

Lemma total_weight_lower lo l : ∀ a,
  Forall (fun w => lo <= w) l →
  a + lo * num_of_nat (length l) <= foldl (fun sum w => sum + w) a l.
Proof.
  induction l as [|w l IH]; intros a Hall; simpl.
  - change (num_of_nat 0) with 0. lra.
  - apply Forall_cons in Hall as [Hw Hall].
    specialize (IH (a + w) Hall).
    rewrite num_of_nat_S. lra.
Qed.

Lemma total_weight_upper hi l : ∀ a,
  Forall (fun w => w <= hi) l →
  foldl (fun sum w => sum + w) a l <= a + hi * num_of_nat (length l).
Proof.
  induction l as [|w l IH]; intros a Hall; simpl.
  - change (num_of_nat 0) with 0. lra.
  - apply Forall_cons in Hall as [Hw Hall].
    specialize (IH (a + w) Hall).
    rewrite num_of_nat_S. lra.
Qed.

Lemma total_weight_lower_strict lo l : ∀ a,
  l ≠ [] → Forall (fun w => lo < w) l →
  a + lo * num_of_nat (length l) < foldl (fun sum w => sum + w) a l.
Proof.
  destruct l as [|w l]; [done|]. intros a _ Hall.
  apply Forall_cons in Hall as [Hw Hall]. simpl.
  pose proof (total_weight_lower lo l (a + w)) as H.
  rewrite num_of_nat_S.
  assert (Forall (λ w0 : Q, lo <= w0) l) as Hall'
    by (eapply Forall_impl; [done | by intros ? ?%Qlt_le_weak]).
  specialize (H Hall'). lra.
Qed.

Lemma total_weight_upper_strict hi l : ∀ a,
  l ≠ [] → Forall (fun w => w < hi) l →
  foldl (fun sum w => sum + w) a l < a + hi * num_of_nat (length l).
Proof.
  destruct l as [|w l]; [done|]. intros a _ Hall.
  apply Forall_cons in Hall as [Hw Hall]. simpl.
  pose proof (total_weight_upper hi l (a + w)) as H.
  rewrite num_of_nat_S.
  assert (Forall (λ w0 : Q, w0 <= hi) l) as Hall'
    by (eapply Forall_impl; [done | by intros ? ?%Qlt_le_weak]).
  specialize (H Hall'). lra.
Qed.

Lemma elem_of_filter_bool {A} (P : A → bool) (l : list A) x :
  x ∈ List.filter P l ↔ x ∈ l ∧ P x = true.
Proof. by rewrite !list_elem_of_In, List.filter_In. Qed.

Lemma Forall_filter_bool {A} (P : A → bool) (Q : A → Prop) (l : list A) :
  (∀ x, x ∈ l → P x = true → Q x) → Forall Q (List.filter P l).
Proof.
  intros H. apply Forall_forall. intros x [??]%elem_of_filter_bool. auto.
Qed.

Lemma detectWeightUnit_g weights :
  (∃ w, w ∈ weights ∧ 0 < w) →
  (∀ w, w ∈ weights → 0 < w → 50 < w ∧ w < 2000) →
  detectWeightUnit weights = g.
Proof.
  intros (w0 & Hw0 & Hpos) Hrange. unfold detectWeightUnit.
  set (valid := List.filter (fun w => Qgtb w 0) weights).
  assert (w0 ∈ valid) as Hin
    by (apply elem_of_filter_bool; split; [done | by apply Qltb_lt]).
  assert (valid ≠ []) as Hne by (intros Heq; rewrite Heq in Hin; inversion Hin).
  assert (0 < length valid)%nat as Hlen by (destruct valid; [done | simpl; lia]).
  destruct (Nat.eqb_spec (length valid) 0) as [?|_]; [lia|].
  pose proof (num_of_nat_pos _ Hlen) as Hn.
  assert (Forall (fun w => 50 < w) valid) as Hlo.
  { apply Forall_filter_bool. intros w Hw Hp%Qltb_lt. by apply Hrange. }
  assert (Forall (fun w => w < 2000) valid) as Hhi.
  { apply Forall_filter_bool. intros w Hw Hp%Qltb_lt. by apply Hrange. }
  pose proof (total_weight_lower_strict 50 valid 0 Hne Hlo) as H1.
  pose proof (total_weight_upper_strict 2000 valid 0 Hne Hhi) as H2.
  assert (Qgtb (foldl (λ sum w, sum + w) 0 valid / num_of_nat (length valid)) 50
          = true) as ->.
  { apply Qltb_lt. apply Qlt_shift_div_l; [done|]. lra. }
  assert (Qltb (foldl (λ sum w, sum + w) 0 valid / num_of_nat (length valid)) 2000
          = true) as ->.
  { apply Qltb_lt. apply Qlt_shift_div_r; [done|]. lra. }
  done.
Qed.

Lemma detectWeightUnit_kg weights :
  (∀ w, w ∈ weights → w <= 50) ∨ (∀ w, w ∈ weights → 0 < w → 2000 <= w) →
  detectWeightUnit weights = kg.
Proof.
  intros Hrange. unfold detectWeightUnit.
  set (valid := List.filter (fun w => Qgtb w 0) weights).
  destruct (Nat.eqb_spec (length valid) 0) as [?|Hlen]; [done|].
  assert (0 < num_of_nat (length valid)) as Hn by (apply num_of_nat_pos; lia).
  destruct Hrange as [Hlow|Hhigh].
  - assert (Forall (fun w => w <= 50) valid) as Hhi.
    { apply Forall_filter_bool. intros w Hw _. by apply Hlow. }
    pose proof (total_weight_upper 50 valid 0 Hhi) as H.
    assert (Qgtb (foldl (λ sum w, sum + w) 0 valid / num_of_nat (length valid)) 50
            = false) as ->; [|done].
    apply Qltb_ge. apply Qle_shift_div_r; [done|]. lra.
  - assert (Forall (fun w => 2000 <= w) valid) as Hlo.
    { apply Forall_filter_bool. intros w Hw Hp%Qltb_lt. by apply Hhigh. }
    pose proof (total_weight_lower 2000 valid 0 Hlo) as H.
    assert (Qltb (foldl (λ sum w, sum + w) 0 valid / num_of_nat (length valid)) 2000
            = false) as ->; [|by rewrite andb_false_r].
    apply Qltb_ge. apply Qle_shift_div_l; [done|]. lra.
Qed.

(** X29. The unit of a list of weights is decided by the mean of its
    strictly positive members.  When there is such a member and all of
    them lie strictly between 50 and 2000 the unit is grams; when no
    weight exceeds 50 (in particular for an empty list, or one without a
    positive weight), or when every positive weight is at least 2000, the
    unit is kilograms. *)
Theorem detectWeightUnit_by_range (weights : list number) :
  ((∃ w, w ∈ weights ∧ 0 < w) →
   (∀ w, w ∈ weights → 0 < w → 50 < w ∧ w < 2000) →
   detectWeightUnit weights = g) ∧
  ((∀ w, w ∈ weights → w <= 50) → detectWeightUnit weights = kg) ∧
  ((∀ w, w ∈ weights → 0 < w → 2000 <= w) → detectWeightUnit weights = kg).
Proof.
  split_and!.
  - apply detectWeightUnit_g.
  - intros H. apply detectWeightUnit_kg. by left.
  - intros H. apply detectWeightUnit_kg. by right.
Qed.

Lemma detectWeightUnit_by_range_witness :
  detectWeightUnit [500; 0; 750] = g ∧ detectWeightUnit [0.5; 12; 0] = kg.
Proof.
  split.
  - apply (proj1 (detectWeightUnit_by_range [500; 0; 750])).
    + exists 500. split; [left | reflexivity].
    + intros w Hw Hpos.
      repeat (apply elem_of_cons in Hw as [->|Hw]);
        [by split | by apply Qlt_irrefl in Hpos | by split
        | by apply elem_of_nil in Hw].
  - apply (proj1 (proj2 (detectWeightUnit_by_range [0.5; 12; 0]))).
    intros w Hw.
    repeat (apply elem_of_cons in Hw as [->|Hw]); try discriminate.
    by apply elem_of_nil in Hw.
Defined.

(** * Facts about the value buckets and the zones *)

(** X7. The four value buckets are the ranges up to 500, above 500 up to
    1000, above 1000 up to 2000, and above 2000: every value has exactly
    one label, and a value strictly between 500 and 501 is labelled
    ["501-1000"]. *)
Theorem getValueBucket_ranges (value : number) :
  (getValueBucket value = "≤500" ↔ value <= 500) ∧
  (getValueBucket value = "501-1000" ↔ 500 < value ∧ value <= 1000) ∧
  (getValueBucket value = "1001-2000" ↔ 1000 < value ∧ value <= 2000) ∧
  (getValueBucket value = ">2000" ↔ 2000 < value).
Proof.
  unfold getValueBucket. q_cases;
    split_and!; split; try done; try lra; try (intros [??]; lra);
    by (split; lra).
Qed.

Lemma split_hd_prefix prefix rest :
  JSString.includes "-" prefix = false →
  ∃ ps, JSString.split "-" (prefix +:+ String "-" rest) = prefix :: ps.
Proof.
  intros Hp. rewrite split_app_sep, split_no_sep by done. simpl. eauto.
Qed.

(** X8. The zone of a destination is read off the text before its first
    hyphen alone: the rest of the destination is ignored, a prefix of the
    table gives its zone, and any other prefix (one written in lower case
    too) gives ["Unknown"].  A prefix that names a member of
    [Object.prototype] is left aside. *)
Theorem deriveZoneFromDestination_prefix (inherited_text : string → string)
    (prefix rest : string) :
  JSString.includes "-" prefix = false →
  JSObject.inherited prefix = false →
  deriveZoneFromDestination inherited_text (prefix +:+ String "-" rest)
  = deriveZoneFromDestination inherited_text prefix ∧
  deriveZoneFromDestination inherited_text prefix
  = default "Unknown" (JSObject.get_own zoneMapping prefix) ∧
  deriveZoneFromDestination inherited_text prefix
  ∈ ["South"; "North"; "West"; "East"; "Unknown"].
Proof.
  intros Hp Hinh.
  assert (deriveZoneFromDestination inherited_text prefix
          = default "Unknown" (JSObject.get_own zoneMapping prefix)) as Hzone.
  { unfold deriveZoneFromDestination. rewrite split_no_sep by done.
    unfold JSObject.get. rewrite Hinh.
    destruct (JSObject.get_own zoneMapping prefix) as [z|] eqn:Hz; [|done].
    apply get_own_Some_elem_of in Hz.
    assert (truthy_string z = true) as ->; [|done].
    unfold zoneMapping in Hz.
    repeat (apply elem_of_cons in Hz as [[= _ ->]|Hz]; [done|]).
    by apply elem_of_nil in Hz. }
  split_and!; [|done|].
  - unfold deriveZoneFromDestination at 1.
    destruct (split_hd_prefix prefix rest Hp) as [ps ->].
    unfold deriveZoneFromDestination. by rewrite split_no_sep.
  - rewrite Hzone.
    destruct (JSObject.get_own zoneMapping prefix) as [z|] eqn:Hz; simpl.
    + apply get_own_Some_elem_of in Hz. unfold zoneMapping in Hz.
      repeat (apply elem_of_cons in Hz as [[= _ ->]|Hz];
              [repeat (first [left | right])|]).
      by apply elem_of_nil in Hz.
    + repeat (first [left | right]).
Qed.

Lemma deriveZoneFromDestination_prefix_witness :
  deriveZoneFromDestination (fun k => k) "MAA-CHENNAI" = "South"
  ∧ deriveZoneFromDestination (fun k => k) "maa-CHENNAI" = "Unknown".
Proof.
  split.
  - destruct (deriveZoneFromDestination_prefix (fun k => k) "MAA" "CHENNAI"
                eq_refl eq_refl) as (H1 & H2 & _).
    exact (eq_trans H1 H2).
  - destruct (deriveZoneFromDestination_prefix (fun k => k) "maa" "CHENNAI"
                eq_refl eq_refl) as (H1 & H2 & _).
    exact (eq_trans H1 H2).
Defined.

(** * Further facts about the normalizers *)

Lemma mapM_Forall2 {A B} (f : A → completion B) (R : A → B → Prop) (l : list A) :
  (∀ x, ∃ y, f x = Normal y ∧ R x y) →
  ∃ l', mapM f l = Normal l' ∧ Forall2 R l l'.
Proof.
  intros Hf. induction l as [|x l (l' & IH & HR)]; simpl.
  - exists []. by split.
  - destruct (Hf x) as (y & -> & Hy). rewrite IH. simpl.
    exists (y :: l'). split; [done | by constructor].
Qed.

Section NormalizerRows.
Variable now : Z.
Variable parseISO : string -> Date.
Variable Date_parse_fallback : string -> Date.
Variable inherited_text : string -> string.
Variable parseFloat : string -> option number.
Variable parseInt : string -> option Z.
Variable Number_toString : number -> string.

(** The result of the callback on one row, with the date that the parser
    returned. *)
Ltac bluedart_row row :=
  unfold normalizeBlueDartRow, pickup;
  let t := fresh "t" in
  destruct (parseDate_returns now parseISO Date_parse_fallback inherited_text
              (text_or (PICKUP_DT row) (text_or (PICKUP_DT row) "")))
    as [t ->];
  eexists; split; [reflexivity|]; simpl.

Ltac delhivery_row row :=
  unfold normalizeDelhiveryRow, pickup;
  let t := fresh "t" in
  destruct (parseDate_returns now parseISO Date_parse_fallback inherited_text
              (DelhiveryRaw.pickup_date row)) as [t ->];
  eexists; split; [reflexivity|]; simpl.

Lemma normalizeBlueDart_Forall2 (R : BlueDartRaw → NormalizedShipment → Prop) data :
  (∀ row, ∃ s, normalizeBlueDartRow now parseISO Date_parse_fallback
                 inherited_text parseFloat parseInt Number_toString row
               = Normal s ∧ R row s) →
  ∃ l, normalizeBlueDart now parseISO Date_parse_fallback inherited_text
         parseFloat parseInt Number_toString data = Normal l ∧
       Forall2 R data l.
Proof.
  intros Hrow. unfold normalizeBlueDart.
  destruct data as [|row data]; [exists []; by split|].
  change (length (row :: data) =? 0)%nat with false. cbv iota.
  by apply mapM_Forall2.
Qed.

Lemma normalizeDelhivery_Forall2
    (R : DelhiveryRaw.t → NormalizedShipment → Prop) data :
  (∀ grams row, ∃ s, normalizeDelhiveryRow now parseISO Date_parse_fallback
                       inherited_text parseFloat parseInt Number_toString
                       grams row
                     = Normal s ∧ R row s) →
  ∃ l, normalizeDelhivery now parseISO Date_parse_fallback inherited_text
         parseFloat parseInt Number_toString data = Normal l ∧
       Forall2 R data l.
Proof.
  intros Hrow. unfold normalizeDelhivery.
  destruct data as [|row data]; [exists []; by split|].
  change (length (row :: data) =? 0)%nat with false. cbv iota.
  apply mapM_Forall2. apply Hrow.
Qed.

Lemma flags_consistent_intro (s : NormalizedShipment) :
  flag_roundup_jump s
  = Qltb (actual_weight_kg s) 1.0 && Qgeb (charged_weight_kg s) 1.5 →
  flag_high_uplift s = Qgeb (charged_weight_kg s) (actual_weight_kg s + 0.5) →
  is_overbilled s = Qgtb (charged_weight_kg s - actual_weight_kg s) 0.1 →
  is_underbilled s = Qltb (charged_weight_kg s - actual_weight_kg s) (-0.1) →
  flags_consistent s.
Proof.
  unfold flags_consistent. intros -> -> -> ->.
  generalize (actual_weight_kg s) (charged_weight_kg s). intros a c.
  q_cases; split_and!; try done; intros _; exfalso; lra.
Qed.

Lemma normalizeBlueDart_fresh (data : list BlueDartRaw) :
  ∃ l, normalizeBlueDart now parseISO Date_parse_fallback inherited_text
         parseFloat parseInt Number_toString data = Normal l ∧
       Forall2 (fun row s =>
                  originalData s = RawBlueDart row ∧ carrier s = BlueDart ∧
                  status s = "Delivered" ∧ freshly_normalized s)
               data l.
Proof.
  apply normalizeBlueDart_Forall2. intros row. bluedart_row row.
  split_and!; try done. split_and!; try done.
  by apply flags_consistent_intro.
Qed.

Lemma normalizeDelhivery_fresh (data : list DelhiveryRaw.t) :
  ∃ l, normalizeDelhivery now parseISO Date_parse_fallback inherited_text
         parseFloat parseInt Number_toString data = Normal l ∧
       Forall2 (fun row s =>
                  originalData s = RawDelhivery row ∧ carrier s = Delhivery ∧
                  pin s = DelhiveryRaw.destination_pin row ∧
                  destination s = DelhiveryRaw.destination_pin row ∧
                  freshly_normalized s)
               data l.
Proof.
  apply normalizeDelhivery_Forall2. intros grams row. delhivery_row row.
  split_and!; try done. split_and!; try done.
  by apply flags_consistent_intro.
Qed.

(** X1. [normalizeBlueDart] never throws and returns one shipment for each
    row, in the order of the rows; the shipment keeps its row as
    [originalData], is a BlueDart shipment with the status ["Delivered"],
    has a valid pickup date, and the two flags that the outlier detector
    sets start out [false]. *)
Theorem normalizeBlueDart_rows (data : list BlueDartRaw) :
  ∃ l, normalizeBlueDart now parseISO Date_parse_fallback inherited_text
         parseFloat parseInt Number_toString data = Normal l ∧
       Forall2 (fun row s =>
                  originalData s = RawBlueDart row ∧ carrier s = BlueDart ∧
                  status s = "Delivered" ∧ isValid (pickup_date s) = true ∧
                  flag_charge_outlier s = false ∧ flag_miscalculated s = false)
               data l.
Proof.
  apply normalizeBlueDart_Forall2. intros row. bluedart_row row. done.
Qed.

(** X2. [normalizeDelhivery] never throws and returns one shipment for
    each row, in the order of the rows; the shipment keeps its row as
    [originalData], is a Delhivery shipment whose PIN and destination are
    both the row's [destination_pin], has a valid pickup date, and the two
    flags that the outlier detector sets start out [false]. *)
Theorem normalizeDelhivery_rows (data : list DelhiveryRaw.t) :
  ∃ l, normalizeDelhivery now parseISO Date_parse_fallback inherited_text
         parseFloat parseInt Number_toString data = Normal l ∧
       Forall2 (fun row s =>
                  originalData s = RawDelhivery row ∧ carrier s = Delhivery ∧
                  pin s = DelhiveryRaw.destination_pin row ∧
                  destination s = DelhiveryRaw.destination_pin row ∧
                  isValid (pickup_date s) = true ∧
                  flag_charge_outlier s = false ∧ flag_miscalculated s = false)
               data l.
Proof.
  apply normalizeDelhivery_Forall2. intros grams row. delhivery_row row. done.
Qed.

Lemma normalizeBlueDartRow_consistent row :
  ∃ s, normalizeBlueDartRow now parseISO Date_parse_fallback inherited_text
         parseFloat parseInt Number_toString row = Normal s ∧
       flags_consistent s.
Proof. bluedart_row row. by apply flags_consistent_intro. Qed.

Lemma normalizeDelhiveryRow_consistent grams row :
  ∃ s, normalizeDelhiveryRow now parseISO Date_parse_fallback inherited_text
         parseFloat parseInt Number_toString grams row = Normal s ∧
       flags_consistent s.
Proof. delhivery_row row. by apply flags_consistent_intro. Qed.

(** X3. Every shipment that a normalizer returns has consistent flags: a
    round-up jump is both a high uplift and an overbilling, an overbilled
    shipment is not underbilled, and an underbilled shipment is not a high
    uplift. *)
Theorem normalized_flags_consistent :
  (∀ data, ∃ l,
      normalizeBlueDart now parseISO Date_parse_fallback inherited_text
        parseFloat parseInt Number_toString data = Normal l ∧
      length l = length data ∧ Forall flags_consistent l) ∧
  (∀ data, ∃ l,
      normalizeDelhivery now parseISO Date_parse_fallback inherited_text
        parseFloat parseInt Number_toString data = Normal l ∧
      length l = length data ∧ Forall flags_consistent l).
Proof.
  split; intros data.
  - unfold normalizeBlueDart.
    destruct data as [|row data]; [exists []; by split_and!|].
    change (length (row :: data) =? 0)%nat with false. cbv iota.
    apply mapM_Normal, normalizeBlueDartRow_consistent.
  - unfold normalizeDelhivery.
    destruct data as [|row data]; [exists []; by split_and!|].
    change (length (row :: data) =? 0)%nat with false. cbv iota.
    apply mapM_Normal, normalizeDelhiveryRow_consistent.
Qed.

(** X4. The charged weight of a BlueDart shipment is never 0.  A charged
    weight of the row that is not 0 is kept; where the row has none or has
    0, and the host's [parseFloat] reads ["0"] as 0, the charged weight is
    the actual weight when that is positive and half a kilogram
    otherwise. *)
Theorem normalizeBlueDart_charged_weight (data : list BlueDartRaw) :
  ∃ l, normalizeBlueDart now parseISO Date_parse_fallback inherited_text
         parseFloat parseInt Number_toString data = Normal l ∧
       Forall2 (fun row s =>
                  ¬ charged_weight_kg s == 0 ∧
                  (∀ x, CHRG_WT row = Some x → ¬ x == 0 →
                        charged_weight_kg s = x) ∧
                  (parseFloat "0" = Some 0 →
                   CHRG_WT row = None ∨ (∃ x, CHRG_WT row = Some x ∧ x == 0) →
                   charged_weight_kg s
                   = if Qgtb (actual_weight_kg s) 0 then actual_weight_kg s
                     else 0.5))
               data l.
Proof.
  apply normalizeBlueDart_Forall2. intros row. bluedart_row row.
  set (actual := nan_or _ 0). clearbody actual.
  assert (¬ (if Qgtb actual 0 then actual else 0.5) == 0) as Hfallback.
  { destruct (Qgtb actual 0) eqn:Hpos; [|done]. apply Qltb_lt in Hpos. lra. }
  assert (∀ text, ¬ nan_or (parseFloat text)
                      (if Qgtb actual 0 then actual else 0.5) == 0) as Htext.
  { intros text. destruct (parseFloat text) as [y|]; simpl; [|done].
    unfold truthy_number. destruct (Qeq_bool y 0) eqn:Hy; simpl; [done|].
    by apply Qeq_bool_neq in Hy. }
  destruct (CHRG_WT row) as [x|] eqn:Hx; simpl.
  - unfold truthy_number. destruct (Qeq_bool x 0) eqn:Hzero; simpl.
    + apply Qeq_bool_iff in Hzero. split_and!; [apply Htext| |].
      * intros ? [= <-]. done.
      * intros -> _. done.
    + unfold truthy_number. rewrite Hzero. simpl.
      apply Qeq_bool_neq in Hzero. split_and!; [done| |].
      * by intros ? [= <-].
      * intros _ [?|(y & [= <-] & ?)]; done.
  - split_and!; [apply Htext | done |]. intros -> _. done.
Qed.

(** X5. The defaults of [normalizeBlueDart], on a host whose [parseFloat]
    reads ["0"] as 0 and whose [parseInt] reads ["1"] as 1: a row without
    weights becomes a shipment of actual weight 0 and charged weight 0.5,
    flagged as missing its weight, as overbilled and as a high uplift; a
    missing amount or value is 0, a missing piece count 1, a missing
    pickup date the current time, a missing service ["Standard"], a
    missing destination the zone ["Unknown"], and a missing text is
    empty. *)
Theorem normalizeBlueDart_defaults (data : list BlueDartRaw) :
  parseFloat "0" = Some 0 →
  parseInt "1" = Some 1%Z →
  ∃ l, normalizeBlueDart now parseISO Date_parse_fallback inherited_text
         parseFloat parseInt Number_toString data = Normal l ∧
       Forall2 (BlueDart_defaults now) data l.
Proof.
  intros Hfloat Hint.
  apply normalizeBlueDart_Forall2. intros row.
  unfold normalizeBlueDartRow, pickup, BlueDart_defaults.
  destruct (parseDate_returns now parseISO Date_parse_fallback inherited_text
              (text_or (PICKUP_DT row) (text_or (PICKUP_DT row) "")))
    as [t Ht].
  rewrite Ht. eexists. split; [reflexivity|]. simpl.
  split_and!.
  - intros ->. simpl. by rewrite Hfloat.
  - intros -> ->. simpl. by rewrite Hfloat.
  - intros ->. simpl. by rewrite Hfloat.
  - intros ->. simpl. by rewrite Hfloat.
  - intros ->. simpl. by rewrite Hint.
  - intros Hp. rewrite Hp in Ht. simpl in Ht. by injection Ht as <-.
  - by intros -> ->.
  - by intros ->.
  - by intros ->.
  - by intros ->.
  - by intros -> ->.
Qed.

Lemma Delhivery_actual_weight (value : number) :
  0 < value → value * 450 / 360 / 1000 == value / 800.
Proof. intros _. field. Qed.

(** X6. A Delhivery shipment gets its actual weight from the product value
    of its row: the weight is never negative; it is 0, and the shipment is
    flagged as missing its actual weight, when the value is not positive;
    it is at least 1.25 kg when the value is at least 1000, so that the
    shipment is never flagged for a mismatch of value and weight. *)
Theorem normalizeDelhivery_weight_from_value (data : list DelhiveryRaw.t) :
  ∃ l, normalizeDelhivery now parseISO Date_parse_fallback inherited_text
         parseFloat parseInt Number_toString data = Normal l ∧
       length l = length data ∧
       Forall Delhivery_weight_from_value l.
Proof.
  unfold normalizeDelhivery.
  destruct data as [|row data]; [exists []; by split_and!|].
  change (length (row :: data) =? 0)%nat with false. cbv iota.
  apply mapM_Normal. intros r. delhivery_row r.
  unfold Delhivery_weight_from_value. simpl.
  set (value := nan_or _ 0). clearbody value.
  destruct (Qgtb value 0) eqn:Hpos.
  - apply Qltb_lt in Hpos.
    pose proof (Delhivery_actual_weight value Hpos) as Hw.
    assert (value / 800 == value * (1 # 800)) as Hdiv by field.
    rewrite Hdiv in Hw. split_and!.
    + rewrite Hw. lra.
    + intros ?. lra.
    + intros ?. rewrite Hw. lra.
    + destruct (Qgeb value 1000) eqn:Hbig; [|done].
      apply Qgeb_le in Hbig. simpl. apply Qltb_ge. rewrite Hw. lra.
  - apply Qltb_ge in Hpos. split_and!.
    + done.
    + done.
    + intros ?. lra.
    + destruct (Qgeb value 1000) eqn:Hbig; [|done].
      apply Qgeb_le in Hbig. lra.
Qed.

(** The positive charged weights of a file, as the unit detector receives
    them. *)
Lemma elem_of_chargedWeights (data : list DelhiveryRaw.t) (w : number) :
  w ∈ omap id
        (List.filter
           (fun w => match w with Some w => Qgtb w 0 | None => false end)
           (map (fun row => parseFloat_String parseFloat
                              (number_or (DelhiveryRaw.charged_weight row) (JNum 0)))
                data))
  ↔ ∃ row, row ∈ data ∧ DelhiveryRaw.charged_weight row = Some w ∧ 0 < w.
Proof.
  rewrite list_elem_of_omap. split.
  - intros (o & [Ho Hpos]%elem_of_filter_bool & Hw).
    destruct o as [w'|]; [|done]. simpl in Hw. injection Hw as ->.
    apply Qltb_lt in Hpos.
    apply list_elem_of_fmap in Ho as (row & Hrow & Hin).
    exists row. split; [done|]. split; [|done].
    destruct (DelhiveryRaw.charged_weight row) as [x|]; simpl in Hrow.
    + destruct (truthy_number x); simpl in Hrow; injection Hrow as ->; [done|].
      lra.
    + injection Hrow as ->. lra.
  - intros (row & Hin & Hrow & Hpos). exists (Some w). split; [|done].
    apply elem_of_filter_bool. split; [|by apply Qltb_lt].
    apply list_elem_of_fmap. exists row. split; [|done].
    rewrite Hrow. simpl. unfold truthy_number.
    destruct (Qeq_bool w 0) eqn:Hz; [|done].
    apply Qeq_bool_iff in Hz. lra.
Qed.

(** X9. The unit of the charged weights is decided once for a Delhivery
    file.  When the file has a positive charged weight and all its
    positive charged weights lie strictly between 50 and 2000, they are
    taken for grams: the charged weight of every shipment is that of its
    row divided by 1000. *)
Theorem normalizeDelhivery_grams (data : list DelhiveryRaw.t) :
  (∃ row w, row ∈ data ∧ DelhiveryRaw.charged_weight row = Some w ∧ 0 < w) →
  (∀ row w, row ∈ data → DelhiveryRaw.charged_weight row = Some w → 0 < w →
            50 < w ∧ w < 2000) →
  ∃ l, normalizeDelhivery now parseISO Date_parse_fallback inherited_text
         parseFloat parseInt Number_toString data = Normal l ∧
       Forall2 (fun row s =>
                  ∀ w, DelhiveryRaw.charged_weight row = Some w →
                       charged_weight_kg s == w / 1000)
               data l.
Proof.
  intros (row0 & w0 & Hin0 & Hw0 & Hpos0) Hrange.
  unfold normalizeDelhivery.
  destruct data as [|row data]; [by apply elem_of_nil in Hin0|].
  change (length (row :: data) =? 0)%nat with false. cbv iota.
  rewrite detectWeightUnit_g.
  2:{ exists w0. split; [|done]. apply elem_of_chargedWeights. eauto. }
  2:{ intros w (r & Hr & Hw & Hp)%elem_of_chargedWeights _. eauto. }
  apply mapM_Forall2. intros r. delhivery_row r.
  intros w ->. simpl. unfold truthy_number.
  destruct (Qeq_bool w _) eqn:Hz; simpl.
  - apply Qeq_bool_iff in Hz. rewrite Hz. reflexivity.
  - unfold truthy_number. rewrite Hz. reflexivity.
Qed.

(** X10. When no charged weight of a Delhivery file exceeds 50, the
    charged weights are taken for kilograms: the charged weight of every
    shipment is that of its row. *)
Theorem normalizeDelhivery_kilograms (data : list DelhiveryRaw.t) :
  (∀ row w, row ∈ data → DelhiveryRaw.charged_weight row = Some w → w <= 50) →
  ∃ l, normalizeDelhivery now parseISO Date_parse_fallback inherited_text
         parseFloat parseInt Number_toString data = Normal l ∧
       Forall2 (fun row s =>
                  ∀ w, DelhiveryRaw.charged_weight row = Some w →
                       charged_weight_kg s == w)
               data l.
Proof.
  intros Hrange. unfold normalizeDelhivery.
  destruct data as [|row data]; [exists []; by split|].
  change (length (row :: data) =? 0)%nat with false. cbv iota.
  rewrite detectWeightUnit_kg.
  2:{ left. intros w (r & Hr & Hw & Hp)%elem_of_chargedWeights. eauto. }
  apply mapM_Forall2. intros r. delhivery_row r.
  intros w ->. simpl. unfold truthy_number.
  destruct (Qeq_bool w _) eqn:Hz; simpl.
  - apply Qeq_bool_iff in Hz. by rewrite Hz.
  - unfold truthy_number. rewrite Hz. reflexivity.
Qed.

End NormalizerRows.

Lemma normalizeBlueDart_defaults_witness :
  ∃ l, normalizeBlueDart 0 (fun _ => InvalidDate) (fun _ => InvalidDate)
         (fun k => k) parseFloat_zero parseInt_one (fun _ => EmptyString)
         [no_row] = Normal l ∧
       Forall2 (BlueDart_defaults 0) [no_row] l.
Proof.
  exact (normalizeBlueDart_defaults 0 (fun _ => InvalidDate)
           (fun _ => InvalidDate) (fun k => k) parseFloat_zero parseInt_one
           (fun _ => EmptyString) [no_row] eq_refl eq_refl).
Defined.

Lemma normalizeDelhivery_grams_witness :
  ∃ l, normalizeDelhivery 0 (fun _ => InvalidDate) (fun _ => InvalidDate)
         (fun k => k) parseFloat_zero parseInt_one (fun _ => EmptyString)
         [delhivery_row "28-07-2025 07:48" (Some 360) (Some 500) (Some 45)]
       = Normal l ∧
       Forall2 (fun row s =>
                  ∀ w, DelhiveryRaw.charged_weight row = Some w →
                       charged_weight_kg s == w / 1000)
         [delhivery_row "28-07-2025 07:48" (Some 360) (Some 500) (Some 45)] l.
Proof.
  apply normalizeDelhivery_grams.
  - exists (delhivery_row "28-07-2025 07:48" (Some 360) (Some 500) (Some 45)),
      500.
    split; [left | split; [reflexivity | reflexivity]].
  - intros row w ->%list_elem_of_singleton [= <-] _.
    split; reflexivity.
Defined.

Lemma normalizeDelhivery_kilograms_witness :
  ∃ l, normalizeDelhivery 0 (fun _ => InvalidDate) (fun _ => InvalidDate)
         (fun k => k) parseFloat_zero parseInt_one (fun _ => EmptyString)
         [delhivery_row "28-07-2025 07:48" (Some 360) (Some 0.5) (Some 45)]
       = Normal l ∧
       Forall2 (fun row s =>
                  ∀ w, DelhiveryRaw.charged_weight row = Some w →
                       charged_weight_kg s == w)
         [delhivery_row "28-07-2025 07:48" (Some 360) (Some 0.5) (Some 45)] l.
Proof.
  apply normalizeDelhivery_kilograms.
  intros row w ->%list_elem_of_singleton [= <-]. discriminate.
Defined.

(** * Further facts about the outlier detector *)

Lemma sorted_lookup_le (l : list number) i j a b :
  StronglySorted Qle l → l !! i = Some a → l !! j = Some b → (i ≤ j)%nat →
  a <= b.
Proof.
  intros Hs. revert i j. induction Hs as [|x l Hs IH Hx]; intros i j; [done|].
  destruct i as [|i], j as [|j]; simpl; try lia.
  - intros [= ->] [= ->] _. apply Qle_refl.
  - intros [= ->] Hb _. apply (proj1 (List.Forall_forall _ _) Hx).
    apply list_elem_of_In. by eapply list_elem_of_lookup_2.
  - intros Ha Hb ?. apply (IH i j); [done..|lia].
Qed.

Lemma elem_of_qualifying_rates l k r :
  r ∈ qualifying_rates l k ↔
  0 < r ∧ ∃ s, s ∈ l ∧ groupKey s = k ∧ per_kg_rate s = r.
Proof.
  rewrite qualifying_rates_Permutation, elem_of_filter_bool, list_elem_of_fmap.
  unfold group_members. split.
  - intros [(s & -> & [Hs Hk%String.eqb_eq]%elem_of_filter_bool) Hpos%Qltb_lt].
    eauto.
  - intros (Hpos & s & Hs & Hk & <-). split; [|by apply Qltb_lt].
    exists s. split; [done|]. apply elem_of_filter_bool.
    split; [done | by apply String.eqb_eq].
Qed.

Lemma length_qualifying_rates l k :
  length (qualifying_rates l k)
  = length (List.filter
              (fun t => String.eqb (groupKey t) k && Qgtb (per_kg_rate t) 0) l).
Proof.
  rewrite qualifying_rates_Permutation. unfold group_members.
  apply length_positive_rates.
Qed.

Lemma length_filter_bound {A} (P : A → bool) (l : list A) :
  (length (List.filter P l) ≤ length l)%nat.
Proof. induction l as [|x l IH]; simpl; [done|]. destruct (P x); simpl; lia. Qed.

Lemma set_flags_id (s : NormalizedShipment) :
  set_flag_miscalculated (flag_miscalculated s)
    (set_flag_charge_outlier (flag_charge_outlier s) s) = s.
Proof. by destruct s. Qed.

(** X11. The outlier detector returns as many shipments as it is given, in
    the same order, and changes nothing of a shipment but the two flags
    [flag_charge_outlier] and [flag_miscalculated]. *)
Theorem calculateOutliers_frame (l : list NormalizedShipment) :
  length (calculateOutliers l) = length l ∧
  ∀ i s, l !! i = Some s →
    ∃ outlier miscalculated,
      calculateOutliers l !! i
      = Some (set_flag_miscalculated miscalculated
                (set_flag_charge_outlier outlier s)).
Proof.
  rewrite calculateOutliers_flagged_in. split; [by rewrite length_map|].
  intros i s Hi. rewrite list_lookup_fmap, Hi. simpl.
  unfold flagged_in. destruct (_ <? _)%nat.
  - exists (flag_charge_outlier s), (flag_miscalculated s).
    by rewrite set_flags_id.
  - unfold flag_shipment. eauto.
Qed.

(** X12. In a group that is processed (at least 5 strictly positive rates
    under its key) [flag_miscalculated] is recomputed: it is the union of
    [is_overbilled], [flag_roundup_jump] and the new
    [flag_charge_outlier]. *)
Theorem miscalculated_in_processed_group (l : list NormalizedShipment)
    (i : nat) (s : NormalizedShipment) :
  l !! i = Some s →
  (5 ≤ length (qualifying_rates l (groupKey s)))%nat →
  ∃ s', calculateOutliers l !! i = Some s' ∧
        is_overbilled s' = is_overbilled s ∧
        flag_roundup_jump s' = flag_roundup_jump s ∧
        flag_miscalculated s'
        = is_overbilled s' || flag_roundup_jump s' || flag_charge_outlier s'.
Proof.
  intros Hi Hn. exists (flagged_in l s).
  split; [by rewrite lookup_calculateOutliers, Hi|].
  unfold flagged_in. destruct (Nat.ltb_spec (length (qualifying_rates l (groupKey s))) 5);
    [lia | done].
Qed.

Lemma miscalculated_in_processed_group_witness :
  ∃ s', calculateOutliers colliding_keys !! 5%nat = Some s' ∧
        flag_miscalculated s' = true.
Proof.
  destruct (miscalculated_in_processed_group colliding_keys 5
              (sample Delhivery "N_E" "Surface" "" 1 0) eq_refl)
    as (s' & Hs' & _ & _ & Hm).
  - vm_compute. lia.
  - exists s'. split; [done|]. rewrite Hm.
    vm_compute in Hs'. injection Hs' as <-. reflexivity.
Defined.



(** X14. A processed group is never flagged as a whole: some shipment of
    it with a strictly positive rate (one that carries the fifth
    percentile) is not a charge outlier. *)
Theorem outliers_spare_a_member (l : list NormalizedShipment) (i : nat)
    (s : NormalizedShipment) :
  l !! i = Some s →
  (5 ≤ length (qualifying_rates l (groupKey s)))%nat →
  ∃ j t t',
    l !! j = Some t ∧ groupKey t = groupKey s ∧ 0 < per_kg_rate t ∧
    calculateOutliers l !! j = Some t' ∧ flag_charge_outlier t' = false.
Proof.
  intros Hi Hn.
  set (rates := qualifying_rates l (groupKey s)) in *.
  set (n := length rates) in *.
  destruct (percentile_index_lt n ltac:(lia)) as [H5 H95].
  destruct (lookup_lt_is_Some_2 rates _ H5) as [p5 Hp5].
  destruct (lookup_lt_is_Some_2 rates _ H95) as [p95 Hp95].
  assert (p5 ∈ rates) as Hin by (by eapply list_elem_of_lookup_2).
  apply elem_of_qualifying_rates in Hin as (Hpos & t & Ht & Hk & Hr).
  apply list_elem_of_lookup_1 in Ht as [j Hj].
  exists j, t, (flagged_in l t). split_and!; [done | done | by rewrite Hr | |].
  - by rewrite lookup_calculateOutliers, Hj.
  - unfold flagged_in. rewrite Hk. fold rates n.
    destruct (Nat.ltb_spec n 5); [lia|].
    rewrite Hp5, Hp95. simpl. rewrite Hr.
    apply orb_false_iff. split; apply Qltb_ge; [apply Qle_refl|].
    apply (sorted_lookup_le rates _ _ _ _
             (qualifying_rates_sorted l (groupKey s)) Hp5 Hp95).
    rewrite floor_5_percent, floor_95_percent.
    apply Nat.Div0.div_le_mono. lia.
Qed.

Lemma outliers_spare_a_member_witness :
  ∃ j t t',
    colliding_keys !! j = Some t ∧
    groupKey t = groupKey (sample Delhivery "N_E" "Surface" "" 1 0) ∧
    0 < per_kg_rate t ∧
    calculateOutliers colliding_keys !! j = Some t' ∧
    flag_charge_outlier t' = false.
Proof.
  apply (outliers_spare_a_member colliding_keys 5
           (sample Delhivery "N_E" "Surface" "" 1 0) eq_refl).
  vm_compute. lia.
Defined.

(** X15. Where no key has 5 shipments of strictly positive rate, and so
    whenever fewer than 5 shipments are given, the outlier detector
    returns its input unchanged. *)
Theorem calculateOutliers_small_groups (l : list NormalizedShipment) :
  (length l < 5)%nat ∨
  (∀ s, s ∈ l →
     (length (List.filter
                (fun t => String.eqb (groupKey t) (groupKey s)
                          && Qgtb (per_kg_rate t) 0) l) < 5)%nat) →
  calculateOutliers l = l.
Proof.
  intros Hsmall. rewrite calculateOutliers_flagged_in.
  rewrite <- (map_id l) at 3. apply map_ext_in. intros s Hs%list_elem_of_In.
  unfold flagged_in. rewrite length_qualifying_rates.
  destruct (Nat.ltb_spec
              (length (List.filter
                         (fun t => String.eqb (groupKey t) (groupKey s)
                                   && Qgtb (per_kg_rate t) 0) l)) 5)
    as [|Hbig]; [done|].
  destruct Hsmall as [Hlen|Hgroups].
  - pose proof (length_filter_bound
                  (fun t => String.eqb (groupKey t) (groupKey s)
                            && Qgtb (per_kg_rate t) 0) l). lia.
  - specialize (Hgroups s Hs). lia.
Qed.

Lemma calculateOutliers_small_groups_witness :
  calculateOutliers two_pins = two_pins.
Proof. apply calculateOutliers_small_groups. left. simpl. lia. Defined.

(** * Facts about the overbilling rates *)

Lemma tally_members_snoc key l s k :
  tally_members key (l ++ [s]) k
  = tally_members key l k ++ (if String.eqb (key s) k then [s] else []).
Proof. unfold tally_members. by rewrite List.filter_app. Qed.

Lemma tally_members_snoc_ne key l s k :
  key s ≠ k → tally_members key (l ++ [s]) k = tally_members key l k.
Proof.
  intros Hne. rewrite tally_members_snoc.
  destruct (String.eqb_spec (key s) k); [done|]. apply app_nil_r.
Qed.

Lemma tally_of_snoc_ne key l s k :
  key s ≠ k → tally_of key (l ++ [s]) k = tally_of key l k.
Proof. intros Hne. unfold tally_of. by rewrite tally_members_snoc_ne. Qed.

Lemma tally_of_snoc key l s :
  tally_of key (l ++ [s]) (key s)
  = {| total := S (total (tally_of key l (key s)));
       overbilled := if is_overbilled s
                     then S (overbilled (tally_of key l (key s)))
                     else overbilled (tally_of key l (key s)) |}.
Proof.
  unfold tally_of. rewrite tally_members_snoc, String.eqb_refl. simpl.
  rewrite List.filter_app, !length_app. simpl.
  destruct (is_overbilled s); simpl; f_equal; lia.
Qed.

(** What [carrierGroups] and [zoneGroups] hold: one own property for each
    key of the list that is not the name of a member of
    [Object.prototype], with the tally of the shipments of that key. *)
Lemma tally_spec key l :
  NoDup (map fst (foldl (tally_step key) JSObject.empty l)) ∧
  ∀ k, JSObject.get_own (foldl (tally_step key) JSObject.empty l) k
       = if JSObject.inherited k then None
         else match tally_members key l k with
              | [] => None
              | _ => Some (tally_of key l k)
              end.
Proof.
  induction l as [|s l [IHnd IH]] using rev_ind.
  - split; [constructor|]. intros k. simpl. by destruct (JSObject.inherited k).
  - rewrite foldl_app. simpl.
    set (acc := foldl (tally_step key) JSObject.empty l) in *.
    unfold tally_step, JSObject.get.
    destruct (JSObject.get_own acc (key s)) as [d|] eqn:Hget.
    + rewrite Hget. split; [by apply NoDup_keys_set|].
      intros k. destruct (String.eqb_spec (key s) k) as [<-|Hne].
      * rewrite get_own_set_eq. rewrite IH in Hget.
        destruct (JSObject.inherited (key s)); [done|].
        rewrite tally_of_snoc, tally_members_snoc, String.eqb_refl.
        destruct (tally_members key l (key s)); [done|].
        by injection Hget as <-.
      * rewrite get_own_set_ne by done.
        by rewrite IH, tally_members_snoc_ne, tally_of_snoc_ne.
    + destruct (JSObject.inherited (key s)) eqn:Hinh.
      * simpl. rewrite ?Hget, ?Hinh. split; [done|].
        intros k. rewrite IH.
        destruct (JSObject.inherited k) eqn:Hk; [done|].
        assert (key s ≠ k) by congruence.
        by rewrite tally_members_snoc_ne, tally_of_snoc_ne.
      * simpl. rewrite ?get_own_set_eq.
        assert (tally_members key l (key s) = []) as Hnone.
        { rewrite IH, Hinh in Hget. by destruct (tally_members key l (key s)). }
        split; [by do 2 apply NoDup_keys_set|].
        intros k. destruct (String.eqb_spec (key s) k) as [<-|Hne].
        -- rewrite get_own_set_eq, Hinh.
           rewrite tally_of_snoc, tally_members_snoc, String.eqb_refl, Hnone.
           simpl. unfold tally_of. by rewrite Hnone.
        -- rewrite !get_own_set_ne by done.
           by rewrite IH, tally_members_snoc_ne, tally_of_snoc_ne.
Qed.

Lemma get_own_entries {V} (o : JSObject.t V) k :
  NoDup (map fst o) →
  JSObject.get_own (JSObject.entries o) k = JSObject.get_own o k.
Proof.
  intros Hnd. destruct (JSObject.get_own o k) as [v|] eqn:Hget.
  - apply elem_of_get_own; [by apply NoDup_keys_entries|].
    apply (proj2 (elem_of_entries _ _)). by apply get_own_Some_elem_of.
  - apply get_own_None. apply get_own_None in Hget.
    intros Hk. apply Hget.
    apply list_elem_of_fmap in Hk as (kv & -> & Hkv).
    apply (proj1 (elem_of_entries _ _)) in Hkv.
    by apply (list_elem_of_fmap_2 fst).
Qed.

Lemma get_own_foldl_set {V W} (f : V → W) (es : list (string * V)) :
  ∀ (acc : JSObject.t W) k,
  NoDup (map fst es) →
  JSObject.get_own
    (foldl (fun acc '(k, d) => JSObject.set acc k (f d)) acc es) k
  = match JSObject.get_own es k with
    | Some d => Some (f d)
    | None => JSObject.get_own acc k
    end.
Proof.
  induction es as [|[k0 d0] es IH]; intros acc k Hnd; [done|].
  apply NoDup_cons in Hnd as [Hk0 Hnd]. simpl.
  rewrite IH by done.
  destruct (String.eqb_spec k0 k) as [<-|Hne].
  - rewrite (proj2 (get_own_None es k0)) by done. apply get_own_set_eq.
  - destruct (JSObject.get_own es k); [done|]. by apply get_own_set_ne.
Qed.

Lemma overbilling_rates_tally key l k :
  JSObject.get_own
    (overbilling_rates (foldl (tally_step key) JSObject.empty l)) k
  = if JSObject.inherited k then None else overbilling_rate_of key l k.
Proof.
  destruct (tally_spec key l) as [Hnd Hget].
  unfold overbilling_rates.
  rewrite get_own_foldl_set by (by apply NoDup_keys_entries).
  rewrite get_own_entries, Hget by done. unfold overbilling_rate_of.
  destruct (JSObject.inherited k); [done|].
  by destruct (tally_members key l k).
Qed.

Lemma rate_percent_bounds key l k :
  tally_members key l k ≠ [] →
  0 <= rate_percent (tally_of key l k) ∧ rate_percent (tally_of key l k) <= 100.
Proof.
  intros Hne. unfold rate_percent, tally_of. simpl.
  set (m := tally_members key l k) in *.
  assert (0 < length m)%nat as Hlen by (destruct m; [done | simpl; lia]).
  pose proof (num_of_nat_pos _ Hlen) as Hpos.
  pose proof (num_of_nat_nonneg (length (List.filter is_overbilled m))) as Hnn.
  pose proof (num_of_nat_le _ _ (length_filter_bound is_overbilled m)) as Hle.
  set (a := num_of_nat (length (List.filter is_overbilled m))) in *.
  set (b := num_of_nat (length m)) in *.
  assert (0 <= a / b) as H0 by (apply Qle_shift_div_l; [done | lra]).
  assert (a / b <= 1) as H1 by (apply Qle_shift_div_r; [done | lra]).
  split; lra.
Qed.

(** X16. [overbillingRateByCarrier] has an entry for a carrier exactly
    when the list has a shipment of it, and the entry is the share of the
    carrier's shipments that are overbilled, in percent, a number from 0
    to 100; there is no other entry. *)
Theorem overbillingRateByCarrier_rates (shipments : list NormalizedShipment) :
  let rates := overbillingRateByCarrier (calculateKPIs shipments) in
  (∀ c, JSObject.get_own rates (Carrier_name c)
        = overbilling_rate_of (fun s => Carrier_name (carrier s)) shipments
            (Carrier_name c)) ∧
  (∀ k r, JSObject.get_own rates k = Some r →
          (∃ c, k = Carrier_name c) ∧ 0 <= r ∧ r <= 100).
Proof.
  set (key := fun s => Carrier_name (carrier s)).
  assert (overbillingRateByCarrier (calculateKPIs shipments)
          = overbilling_rates (foldl (tally_step key) JSObject.empty shipments))
    as -> by (by destruct shipments).
  simpl. split.
  - intros c. rewrite overbilling_rates_tally. by destruct c.
  - intros k r. rewrite overbilling_rates_tally.
    destruct (JSObject.inherited k); [done|]. unfold overbilling_rate_of.
    destruct (tally_members key shipments k) as [|s m] eqn:Hm; [done|].
    intros [= <-]. split.
    + assert (s ∈ tally_members key shipments k) as Hs by (rewrite Hm; left).
      apply elem_of_filter_bool in Hs as [_ Hk%String.eqb_eq]. eauto.
    + apply rate_percent_bounds. by rewrite Hm.
Qed.

(** X17. [overbillingRateByZone] has an entry for a zone (one that is not
    the name of a member of [Object.prototype]) exactly when the list has
    a shipment of that zone, and the entry is the share of the zone's
    shipments that are overbilled, in percent, a number from 0 to 100. *)
Theorem overbillingRateByZone_rates (shipments : list NormalizedShipment)
    (z : string) :
  JSObject.inherited z = false →
  JSObject.get_own (overbillingRateByZone (calculateKPIs shipments)) z
  = overbilling_rate_of zone shipments z ∧
  ∀ r, overbilling_rate_of zone shipments z = Some r → 0 <= r ∧ r <= 100.
Proof.
  intros Hinh.
  assert (overbillingRateByZone (calculateKPIs shipments)
          = overbilling_rates (foldl (tally_step zone) JSObject.empty shipments))
    as -> by (by destruct shipments).
  rewrite overbilling_rates_tally, Hinh. split; [done|].
  intros r. unfold overbilling_rate_of.
  destruct (tally_members zone shipments z) as [|s m] eqn:Hm; [done|].
  intros [= <-]. apply rate_percent_bounds. by rewrite Hm.
Qed.

Lemma overbillingRateByZone_rates_witness :
  JSObject.get_own (overbillingRateByZone (calculateKPIs two_pins)) "South"
  = Some (num_of_nat 2 / num_of_nat 2 * 100).
Proof.
  destruct (overbillingRateByZone_rates two_pins "South" eq_refl) as [-> _].
  reflexivity.
Defined.

(** * Facts about the key figures *)

Lemma sum_by_map (g : NormalizedShipment → number)
    (f : NormalizedShipment → NormalizedShipment) l :
  (∀ s, g (f s) = g s) → sum_by g (map f l) = sum_by g l.
Proof.
  intros Hg. unfold sum_by. generalize 0.
  induction l as [|s l IH]; intros a; simpl; [done|]. by rewrite Hg, IH.
Qed.

Lemma filter_map_fields {A} (P : A → bool) (f : A → A) l :
  (∀ s, P (f s) = P s) → List.filter P (map f l) = map f (List.filter P l).
Proof.
  intros HP. rewrite filter_map_comm. f_equal. by apply List.filter_ext.
Qed.

Lemma tally_map key (f : NormalizedShipment → NormalizedShipment) l :
  (∀ s, key (f s) = key s) → (∀ s, is_overbilled (f s) = is_overbilled s) →
  ∀ acc, foldl (tally_step key) acc (map f l) = foldl (tally_step key) acc l.
Proof.
  intros Hkey Hob. induction l as [|s l IH]; intros acc; simpl; [done|].
  rewrite IH. f_equal. unfold tally_step. by rewrite Hkey, Hob.
Qed.

Lemma pinGroups_map (f : NormalizedShipment → NormalizedShipment) l :
  (∀ s, pin (f s) = pin s) → (∀ s, line_amount (f s) = line_amount s) →
  pinGroups (map f l) = pinGroups l.
Proof.
  intros Hpin Hamount. unfold pinGroups. generalize (@JSObject.empty PinTally).
  induction l as [|s l IH]; intros acc; simpl; [done|].
  rewrite IH. f_equal. unfold pin_step. by rewrite Hpin, Hamount.
Qed.

Lemma calculateKPIs_map (f : NormalizedShipment → NormalizedShipment) l :
  (∀ s, line_amount (f s) = line_amount s) →
  (∀ s, is_overbilled (f s) = is_overbilled s) →
  (∀ s, actual_weight_kg (f s) = actual_weight_kg s) →
  (∀ s, charged_weight_kg (f s) = charged_weight_kg s) →
  (∀ s, carrier (f s) = carrier s) →
  (∀ s, zone (f s) = zone s) →
  (∀ s, pin (f s) = pin s) →
  calculateKPIs (map f l) = calculateKPIs l.
Proof.
  intros Hamount Hob Hactual Hcharged Hcarrier Hzone Hpin.
  destruct l as [|s0 l0]; [done|].
  unfold calculateKPIs. simpl map.
  change (f s0 :: map f l0) with (map f (s0 :: l0)).
  generalize (s0 :: l0). intros l.
  rewrite !(filter_map_fields is_overbilled) by done.
  rewrite (filter_map_fields
             (fun s => Qgtb (actual_weight_kg s) 0 && Qgtb (charged_weight_kg s) 0))
    by (intros s; by rewrite Hactual, Hcharged).
  rewrite !length_map, !sum_by_map by done.
  rewrite !tally_map by (done || intros s; by rewrite Hcarrier).
  unfold top_pins, ranked_pins. rewrite pinGroups_map by done.
  by destruct l.
Qed.

(** X18. The key figures do not depend on the outlier detector: computed
    from the list that the detector returns they are those of the list it
    was given. *)
Theorem calculateKPIs_calculateOutliers (l : list NormalizedShipment) :
  calculateKPIs (calculateOutliers l) = calculateKPIs l.
Proof.
  rewrite calculateOutliers_flagged_in.
  apply calculateKPIs_map; intros s; unfold flagged_in;
    by destruct (_ <? _)%nat.
Qed.

Lemma count_sum_set_old (o : JSObject.t PinTally) k d v :
  JSObject.get_own o k = Some d →
  (sum_list_with (fun kv => count kv.2) (JSObject.set o k v) + count d
   = sum_list_with (fun kv => count kv.2) o + count v)%nat.
Proof.
  induction o as [|[k' v'] o IH]; simpl; [done|].
  destruct (String.eqb_spec k' k) as [->|Hne]; simpl.
  - intros [= ->]. lia.
  - intros Hget. specialize (IH Hget). lia.
Qed.

Lemma pinGroups_count_sum l :
  sum_list_with (fun kv => count kv.2) (pinGroups l)
  = length (List.filter (fun s => negb (JSObject.inherited (pin s))) l).
Proof.
  induction l as [|s l IH] using rev_ind; [done|].
  rewrite pinGroups_snoc, List.filter_app, length_app, <- IH. simpl.
  unfold pin_step, JSObject.get.
  destruct (JSObject.get_own (pinGroups l) (pin s)) as [d|] eqn:Hget.
  - rewrite Hget.
    pose proof (count_sum_set_old _ _ _
                  {| count := S (count d);
                     totalValue := totalValue d + line_amount s |} Hget) as Hsum.
    destruct (pinGroups_spec l) as (_ & Hspec & _).
    rewrite Hspec in Hget.
    destruct (JSObject.inherited (pin s)); [done|]. simpl in *. lia.
  - destruct (JSObject.inherited (pin s)) eqn:Hinh; simpl.
    + rewrite ?Hget, ?Hinh. simpl. lia.
    + rewrite get_own_set_eq.
      pose proof (count_sum_set_old (JSObject.set (pinGroups l) (pin s)
                                       {| count := 0; totalValue := 0 |})
                    (pin s) _
                    {| count := 1; totalValue := 0 + line_amount s |}
                    (get_own_set_eq _ _ _)) as Hsum.
      rewrite (set_new (pinGroups l)) in Hsum |- * by done.
      rewrite sum_list_with_app in Hsum. simpl in *. lia.
Qed.

Lemma sum_list_with_map {A B} (f : B → nat) (g : A → B) (l : list A) :
  sum_list_with f (map g l) = sum_list_with (fun x => f (g x)) l.
Proof. induction l as [|x l IH]; simpl; [done|]. by rewrite IH. Qed.

Lemma ranked_pins_count_sum l :
  sum_list_with tp_count (ranked_pins l)
  = length (List.filter (fun s => negb (JSObject.inherited (pin s))) l).
Proof.
  rewrite ranked_pins_Permutation, sum_list_with_map.
  apply pinGroups_count_sum.
Qed.

Lemma sum_list_with_take {A} (f : A → nat) n (l : list A) :
  (sum_list_with f (take n l) ≤ sum_list_with f l)%nat.
Proof.
  rewrite <- (take_drop n l) at 2. rewrite sum_list_with_app. lia.
Qed.

(** X19. The PIN ranking accounts for overbilled shipments only: the
    counts of [topProblematicPins] add up to at most
    [suspectedOverbillingCount], and to exactly that number when the
    overbilled shipments have at most 10 different PINs, none of them the
    name of a member of [Object.prototype]. *)
Theorem topProblematicPins_counts (shipments : list NormalizedShipment) :
  let kpi := calculateKPIs shipments in
  (sum_list_with tp_count (topProblematicPins kpi)
   ≤ suspectedOverbillingCount kpi)%nat ∧
  ((∀ s, s ∈ shipments → is_overbilled s = true →
         JSObject.inherited (pin s) = false) →
   (∃ ps : list string,
      (length ps ≤ 10)%nat ∧
      ∀ s, s ∈ shipments → is_overbilled s = true → pin s ∈ ps) →
   sum_list_with tp_count (topProblematicPins kpi)
   = suspectedOverbillingCount kpi).
Proof.
  simpl. rewrite topProblematicPins_take.
  assert (suspectedOverbillingCount (calculateKPIs shipments)
          = length (List.filter is_overbilled shipments)) as ->
    by (by destruct shipments).
  set (ob := List.filter is_overbilled shipments).
  split.
  - etrans; [apply sum_list_with_take|].
    rewrite ranked_pins_count_sum. apply length_filter_bound.
  - intros Hinh (ps & Hps & Hpins).
    rewrite take_ge.
    + rewrite ranked_pins_count_sum. f_equal.
      rewrite <- (List.filter_ext_in (fun _ => true)).
      * induction ob as [|s ob' IH]; simpl; [done|]. by rewrite IH.
      * intros s [Hs Hob]%list_elem_of_In%elem_of_filter_bool.
        by rewrite Hinh.
    + rewrite ranked_pins_Permutation, length_map.
      rewrite <- (length_map fst). etrans; [|apply Hps].
      apply submseteq_length, NoDup_submseteq; [apply pinGroups_spec|].
      intros k ([k' d] & -> & Hkd)%list_elem_of_fmap. simpl.
      destruct (pinGroups_spec ob) as (Hnd & Hget & _).
      apply (elem_of_get_own _ _ _ Hnd) in Hkd. rewrite Hget in Hkd.
      destruct (JSObject.inherited k'); [done|].
      destruct (pin_shipments ob k') as [|s m] eqn:Hm; [done|].
      assert (s ∈ pin_shipments ob k') as Hs by (rewrite Hm; left).
      apply elem_of_filter_bool in Hs as [Hs <-%String.eqb_eq].
      apply elem_of_filter_bool in Hs as [Hs Hob]. by apply Hpins.
Qed.

(** * Facts about the filters *)





(** * Facts about the export *)

Lemma mapM_Throw {A B} (f : A → completion B) (l : list A) e :
  Exists (fun x => f x = Throw e) l →
  Forall (fun x => f x = Throw e ∨ ∃ y, f x = Normal y) l →
  mapM f l = Throw e.
Proof.
  intros Hex Hall. induction Hall as [|x l Hx Hall IH]; [by inversion Hex|].
  simpl. destruct Hx as [Hx|[y Hx]]; rewrite Hx; [done|]. simpl.
  apply Exists_cons in Hex as [Hex|Hex]; [congruence|].
  by rewrite IH.
Qed.

Section ExportFacts.
Variable Number_toString : number -> string.
Variable format_yyyy_MM_dd : Z -> string.

Lemma csvLine_cases (s : NormalizedShipment) :
  match pickup_date s with
  | TimeValue _ => ∃ line, csvLine Number_toString format_yyyy_MM_dd s = Normal line
  | InvalidDate => csvLine Number_toString format_yyyy_MM_dd s = Throw "RangeError"
  end.
Proof.
  unfold csvLine, csvCells. destruct (pickup_date s); simpl; eauto.
Qed.

Lemma exportToCSV_valid_dates (shipments : list NormalizedShipment) :
  Forall (fun s => isValid (pickup_date s) = true) shipments →
  ∃ lines,
    Forall2 (fun s line =>
               csvLine Number_toString format_yyyy_MM_dd s = Normal line)
            shipments lines ∧
    exportToCSV Number_toString format_yyyy_MM_dd shipments
    = Normal (JSString.join (String "010" EmptyString)
                (JSString.join "," headers :: lines)).
Proof.
  intros Hvalid. unfold exportToCSV.
  assert (∃ lines,
            mapM (csvLine Number_toString format_yyyy_MM_dd) shipments
            = Normal lines ∧
            Forall2 (fun s line =>
                       csvLine Number_toString format_yyyy_MM_dd s = Normal line)
                    shipments lines) as (lines & -> & Hlines).
  { induction Hvalid as [|s l Hs Hl (lines & IH & Hlines)]; simpl.
    - exists []. by split.
    - pose proof (csvLine_cases s) as Hline.
      destruct (pickup_date s); [done|]. destruct Hline as [line Hline].
      rewrite Hline, IH. simpl. exists (line :: lines).
      split; [done | by constructor]. }
  eauto.
Qed.

(** X22. [exportToCSV] throws exactly when a shipment has an invalid
    pickup date (the [RangeError] of the date formatter), and nothing is
    exported then; otherwise the text is the header line followed by one
    line for each shipment, in order, joined by line feeds with none at
    the end. *)
Theorem exportToCSV_result (shipments : list NormalizedShipment) :
  (Forall (fun s => isValid (pickup_date s) = true) shipments →
   ∃ lines,
     Forall2 (fun s line =>
                csvLine Number_toString format_yyyy_MM_dd s = Normal line)
             shipments lines ∧
     exportToCSV Number_toString format_yyyy_MM_dd shipments
     = Normal (JSString.join (String "010" EmptyString)
                 (JSString.join "," headers :: lines))) ∧
  (Exists (fun s => pickup_date s = InvalidDate) shipments →
   exportToCSV Number_toString format_yyyy_MM_dd shipments
   = Throw "RangeError").
Proof.
  split; [apply exportToCSV_valid_dates|].
  intros Hex. unfold exportToCSV. rewrite (mapM_Throw _ _ "RangeError"); [done|..].
  - eapply Exists_impl; [done|]. intros s Hs.
    pose proof (csvLine_cases s) as Hline. by rewrite Hs in Hline.
  - apply Forall_forall. intros s _.
    pose proof (csvLine_cases s) as Hline.
    destruct (pickup_date s); [by left | by right].
Qed.

End ExportFacts.

(** * Facts about the pipeline *)

Lemma Forall2_right {A B} (P : B → Prop) (l : list A) (k : list B) :
  Forall2 (fun _ y => P y) l k → Forall P k.
Proof. induction 1; by constructor. Qed.

Lemma map_carrier_replicate {A} (c : Carrier) (data : list A)
    (l : list NormalizedShipment) :
  Forall2 (fun _ s => carrier s = c) data l →
  map carrier l = replicate (length data) c.
Proof. induction 1 as [|x s data l Hs _ IH]; simpl; [done|]. by rewrite Hs, IH. Qed.

Lemma flagged_in_pipeline_flags l s :
  freshly_normalized s → pipeline_flags (flagged_in l s).
Proof.
  intros (Hvalid & Hcons & Hout & Hmis). unfold flagged_in.
  destruct (_ <? _)%nat.
  - split_and!; [done | done | by rewrite Hout | by rewrite Hmis].
  - unfold pipeline_flags, flag_shipment. simpl. split_and!; [done|done| |].
    + intros ->. by rewrite !orb_true_r.
    + destruct Hcons as (Hjump & _).
      intros [[Hob|Hj]%orb_true_iff|Ho]%orb_true_iff; auto.
      left. by apply Hjump.
Qed.

Section PipelineFacts.
Variable now : Z.
Variable parseISO : string -> Date.
Variable Date_parse_fallback : string -> Date.
Variable inherited_text : string -> string.
Variable parseFloat : string -> option number.
Variable parseInt : string -> option Z.
Variable Number_toString : number -> string.

Lemma handleDataLoaded_cases (blueDartData : list BlueDartRaw)
    (delhiveryData : list DelhiveryRaw.t) :
  ∃ bd dl,
    Forall2 (fun _ s => carrier s = BlueDart ∧ freshly_normalized s)
      blueDartData bd ∧
    Forall2 (fun _ s => carrier s = Delhivery ∧ freshly_normalized s)
      delhiveryData dl ∧
    handleDataLoaded now parseISO Date_parse_fallback inherited_text
      parseFloat parseInt Number_toString blueDartData delhiveryData
    = match blueDartData, delhiveryData with
      | [], [] => Throw "No data found in uploaded files"
      | _, _ => Normal (calculateOutliers (bd ++ dl))
      end.
Proof.
  destruct (normalizeBlueDart_fresh now parseISO Date_parse_fallback
              inherited_text parseFloat parseInt Number_toString blueDartData)
    as (bd & Hbd & Hrows).
  destruct (normalizeDelhivery_fresh now parseISO Date_parse_fallback
              inherited_text parseFloat parseInt Number_toString delhiveryData)
    as (dl & Hdl & Hrows').
  exists bd, dl. split_and!.
  - eapply Forall2_impl; [done|]. by intros ?? (_ & ? & _ & ?).
  - eapply Forall2_impl; [done|]. by intros ?? (_ & ? & _ & _ & ?).
  - unfold handleDataLoaded. rewrite Hbd, Hdl.
    by destruct blueDartData, delhiveryData.
Qed.

(** X23. The pipeline fails in one case only, two empty inputs, with the
    error ["No data found in uploaded files"]; otherwise it returns one
    shipment for each row, those of the BlueDart rows first. *)
Theorem handleDataLoaded_result (blueDartData : list BlueDartRaw)
    (delhiveryData : list DelhiveryRaw.t) :
  match handleDataLoaded now parseISO Date_parse_fallback inherited_text
          parseFloat parseInt Number_toString blueDartData delhiveryData with
  | Throw error =>
      blueDartData = [] ∧ delhiveryData = [] ∧
      error = "No data found in uploaded files"
  | Normal shipments =>
      (blueDartData ≠ [] ∨ delhiveryData ≠ []) ∧
      map carrier shipments
      = replicate (length blueDartData) BlueDart
        ++ replicate (length delhiveryData) Delhivery
  end.
Proof.
  destruct (handleDataLoaded_cases blueDartData delhiveryData)
    as (bd & dl & Hbd & Hdl & ->).
  assert (map carrier (calculateOutliers (bd ++ dl))
          = replicate (length blueDartData) BlueDart
            ++ replicate (length delhiveryData) Delhivery) as Hcarriers.
  { rewrite calculateOutliers_flagged_in, map_map.
    erewrite map_ext; [|intros s; unfold flagged_in; by destruct (_ <? _)%nat].
    rewrite map_app. f_equal; apply map_carrier_replicate.
    - eapply Forall2_impl; [done|]. by intros ?? [? _].
    - eapply Forall2_impl; [done|]. by intros ?? [? _]. }
  destruct blueDartData as [|row bdata], delhiveryData as [|row' ddata];
    [done|split; [by right | done]|split; [by left | done]..].
Qed.

Lemma handleDataLoaded_valid_dates (blueDartData : list BlueDartRaw)
    (delhiveryData : list DelhiveryRaw.t) (shipments : list NormalizedShipment) :
  handleDataLoaded now parseISO Date_parse_fallback inherited_text
    parseFloat parseInt Number_toString blueDartData delhiveryData
  = Normal shipments →
  Forall (fun s => isValid (pickup_date s) = true) shipments.
Proof.
  destruct (handleDataLoaded_cases blueDartData delhiveryData)
    as (bd & dl & Hbd & Hdl & ->).
  intros Hl.
  assert (shipments = calculateOutliers (bd ++ dl)) as ->
    by (destruct blueDartData, delhiveryData; congruence).
  apply Forall2_right in Hbd, Hdl.
  rewrite calculateOutliers_flagged_in. apply Forall_fmap, Forall_app.
  split; (eapply Forall_impl; [done|]);
    intros s (_ & Hvalid & _); simpl; unfold flagged_in;
    by destruct (_ <? _)%nat.
Qed.

(** X24. Every shipment that the pipeline returns has a valid pickup date
    and consistent flags (a round-up jump is a high uplift and an
    overbilling, an overbilled shipment is not underbilled, an underbilled
    one is not a high uplift); it is marked miscalculated only if it is
    overbilled or a charge outlier, and every charge outlier is marked
    miscalculated. *)
Theorem handleDataLoaded_flags (blueDartData : list BlueDartRaw)
    (delhiveryData : list DelhiveryRaw.t) (shipments : list NormalizedShipment) :
  handleDataLoaded now parseISO Date_parse_fallback inherited_text
    parseFloat parseInt Number_toString blueDartData delhiveryData
  = Normal shipments →
  Forall pipeline_flags shipments.
Proof.
  destruct (handleDataLoaded_cases blueDartData delhiveryData)
    as (bd & dl & Hbd & Hdl & ->).
  intros Hl.
  assert (shipments = calculateOutliers (bd ++ dl)) as ->
    by (destruct blueDartData, delhiveryData; congruence).
  rewrite calculateOutliers_flagged_in. apply Forall_fmap, Forall_forall.
  intros s Hs. apply flagged_in_pipeline_flags.
  apply elem_of_app in Hs as [Hs|Hs].
  - apply Forall2_right in Hbd.
    by apply (proj1 (Forall_forall _ _) Hbd s Hs).
  - apply Forall2_right in Hdl.
    by apply (proj1 (Forall_forall _ _) Hdl s Hs).
Qed.

Variable format_yyyy_MM_dd : Z -> string.

(** X25. The export never fails on shipments of the pipeline: whatever
    selection of the returned shipments is exported, the date formatter
    never meets an invalid date, and [exportToCSV] returns the header line
    followed by one line for each selected shipment. *)
Theorem exportToCSV_of_pipeline (blueDartData : list BlueDartRaw)
    (delhiveryData : list DelhiveryRaw.t)
    (shipments selection : list NormalizedShipment) :
  handleDataLoaded now parseISO Date_parse_fallback inherited_text
    parseFloat parseInt Number_toString blueDartData delhiveryData
  = Normal shipments →
  selection ⊆ shipments →
  ∃ lines,
    length lines = length selection ∧
    exportToCSV Number_toString format_yyyy_MM_dd selection
    = Normal (JSString.join (String "010" EmptyString)
                (JSString.join "," headers :: lines)).
Proof.
  intros Hvalid%handleDataLoaded_valid_dates Hsel.
  assert (Forall (fun s => isValid (pickup_date s) = true) selection) as Hdates.
  { apply Forall_forall. intros s Hs.
    by apply (proj1 (Forall_forall _ _) Hvalid), Hsel. }
  destruct (exportToCSV_valid_dates Number_toString format_yyyy_MM_dd _ Hdates)
    as (lines & Hlines & ->).
  exists lines. split; [|done]. symmetry. by eapply Forall2_length.
Qed.

End PipelineFacts.

Lemma handleDataLoaded_flags_witness :
  ∃ s, handleDataLoaded 0 (fun _ => InvalidDate) (fun _ => InvalidDate)
         (fun k => k) parseFloat_zero parseInt_one (fun _ => EmptyString)
         [overbilled_row] [] = Normal [s] ∧
       pipeline_flags s.
Proof.
  eexists. split; [vm_compute; reflexivity|].
  eapply Forall_inv.
  apply (handleDataLoaded_flags 0 (fun _ => InvalidDate) (fun _ => InvalidDate)
           (fun k => k) parseFloat_zero parseInt_one (fun _ => EmptyString)
           [overbilled_row] []).
  vm_compute. reflexivity.
Defined.

Lemma exportToCSV_of_pipeline_witness :
  ∃ shipments,
    handleDataLoaded 0 (fun _ => InvalidDate) (fun _ => InvalidDate)
      (fun k => k) parseFloat_zero parseInt_one (fun _ => "1")
      [overbilled_row] [] = Normal shipments ∧
    ∃ lines,
      length lines = length shipments ∧
      exportToCSV (fun _ => "1") (fun _ => "2025-07-07") shipments
      = Normal (JSString.join (String "010" EmptyString)
                  (JSString.join "," headers :: lines)).
Proof.
  eexists. split; [vm_compute; reflexivity|].
  eapply (exportToCSV_of_pipeline 0 (fun _ => InvalidDate) (fun _ => InvalidDate)
           (fun k => k) parseFloat_zero parseInt_one (fun _ => "1")
           (fun _ => "2025-07-07") [overbilled_row] []).
  - vm_compute. reflexivity.
  - reflexivity.
Defined.

(** * The date formats *)

Lemma digit_not_space c :
  JSObject.is_digit c = true →
  Ascii.eqb c "-" = false ∧ Ascii.eqb c " " = false
  ∧ JSString.is_white_space c = false.
Proof. intros H. by apply plain_char_spec, digit_is_plain. Qed.

Lemma trim_not_blank c s :
  JSString.is_white_space c = false →
  String.eqb (String c s) "" || String.eqb (JSString.trim (String c s)) ""
  = false.
Proof.
  intros Hws. unfold JSString.trim. cbn. rewrite Hws. cbn. by rewrite Hws.
Qed.

Lemma match_iso_date_chars (dateStr : string) (y m d : Z) :
  match_iso_date dateStr = Some (y, m, d) →
  ∃ y1 y2 y3 y4 m1 m2 d1 d2,
    dateStr = String y1 (String y2 (String y3 (String y4 (String "-"
                (String m1 (String m2 (String "-"
                   (String d1 (String d2 EmptyString)))))))))
    ∧ JSObject.is_digit y1 = true.
Proof.
  intros Hmatch. unfold match_iso_date in Hmatch.
  rewrite <- (String.string_of_list_ascii_of_string dateStr).
  destruct (String.list_ascii_of_string dateStr)
    as [|y1 [|y2 [|y3 [|y4 [|h1 [|m1 [|m2 [|h2 [|d1 [|d2 [|? ?]]]]]]]]]]];
    try discriminate Hmatch.
  destruct (forallb _ _ && _ && _) eqn:Hok; [|discriminate Hmatch].
  apply andb_true_iff in Hok as [[Hdigits Hh1]%andb_true_iff Hh2].
  apply Ascii.eqb_eq in Hh1, Hh2. subst h1 h2.
  simpl in Hdigits. apply andb_true_iff in Hdigits as [Hy1 _].
  exists y1, y2, y3, y4, m1, m2, d1, d2. by split.
Qed.

Lemma match_iso_date_digits (y1 y2 y3 y4 m1 m2 d1 d2 : ascii) :
  forallb JSObject.is_digit [y1; y2; y3; y4; m1; m2; d1; d2] = true →
  match_iso_date
    (String y1 (String y2 (String y3 (String y4 (String "-"
       (String m1 (String m2 (String "-"
          (String d1 (String d2 EmptyString))))))))))
  = Some ((1000 * Calendar.digit y1 + 100 * Calendar.digit y2
           + 10 * Calendar.digit y3 + Calendar.digit y4)%Z,
          (10 * Calendar.digit m1 + Calendar.digit m2)%Z,
          (10 * Calendar.digit d1 + Calendar.digit d2)%Z).
Proof.
  intros Hdigits. unfold match_iso_date.
  change (String.list_ascii_of_string _)
    with [y1; y2; y3; y4; "-"%char; m1; m2; "-"%char; d1; d2].
  cbv beta iota. by rewrite Hdigits.
Qed.

Lemma new_Date_utc_midnight (fallback : string → Date) (dateStr : string)
    (y m d t : Z) :
  match_iso_date dateStr = Some (y, m, d) →
  Calendar.utc_midnight y m d = Some t →
  new_Date fallback (dateStr +:+ "T00:00:00.000Z") = TimeValue t.
Proof.
  intros Hmatch Hday. unfold new_Date.
  assert (strip_utc_midnight (dateStr +:+ "T00:00:00.000Z") = Some dateStr)
    as ->.
  { destruct (match_iso_date_chars _ _ _ _ Hmatch)
      as (y1 & y2 & y3 & y4 & m1 & m2 & d1 & d2 & -> & _).
    reflexivity. }
  by rewrite Hmatch, Hday.
Qed.

Section DateFormats.
Variable now : Z.
Variable parseISO : string -> Date.
Variable Date_parse_fallback : string -> Date.
Variable inherited_text : string -> string.

(** X26. A text [YYYY-MM-DD] that names a day of the calendar is parsed as
    midnight UTC of that day. *)
Theorem parseDate_iso_day (dateStr : string) (y m d t : Z) :
  match_iso_date dateStr = Some (y, m, d) →
  Calendar.utc_midnight y m d = Some t →
  parseDate now parseISO Date_parse_fallback inherited_text dateStr
  = Normal (TimeValue t).
Proof.
  intros Hmatch Hday.
  unfold parseDate, parseDate_try, iso_branch.
  rewrite Hmatch, (new_Date_utc_midnight _ _ _ _ _ _ Hmatch Hday).
  destruct (match_iso_date_chars _ _ _ _ Hmatch)
    as (y1 & y2 & y3 & y4 & m1 & m2 & d1 & d2 & -> & Hy1).
  destruct (digit_not_space y1 Hy1) as (_ & _ & Hws).
  by rewrite trim_not_blank.
Qed.

Lemma trim_two (c1 c2 : ascii) :
  JSString.is_white_space c1 = false → JSString.is_white_space c2 = false →
  JSString.trim (String c1 (String c2 EmptyString))
  = String c1 (String c2 EmptyString).
Proof.
  intros H1 H2. unfold JSString.trim. cbn. rewrite H1. cbn. rewrite ?H1, ?H2.
  cbn. by rewrite ?H1, ?H2.
Qed.

Lemma iso_branch_short (c1 c2 c3 c4 c5 c6 c7 c8 c9 : ascii) :
  iso_branch Date_parse_fallback
    (String c1 (String c2 (String c3 (String c4 (String c5 (String c6
       (String c7 (String c8 (String c9 EmptyString)))))))))
  = Normal None.
Proof. reflexivity. Qed.

(** X27. A text [DD-Mmm-YY] with one of the twelve month names of the
    table and a day of that month is parsed as midnight UTC of that day
    of the year 20YY. *)
Theorem parseDate_bluedart_day (i : nat) (mm : string)
    (d1 d2 m1 m2 m3 y1 y2 : ascii) (t : Z) :
  months !! i = Some (String m1 (String m2 (String m3 EmptyString)), mm) →
  forallb JSObject.is_digit [d1; d2; y1; y2] = true →
  Calendar.utc_midnight
    (2000 + 10 * Calendar.digit y1 + Calendar.digit y2)
    (Z.of_nat i + 1)
    (10 * Calendar.digit d1 + Calendar.digit d2) = Some t →
  parseDate now parseISO Date_parse_fallback inherited_text
    (dd_mmm_yy d1 d2 m1 m2 m3 y1 y2)
  = Normal (TimeValue t).
Proof.
  intros Hmonth Hdigits Hday.
  pose proof Hdigits as Hd. simpl in Hd.
  repeat (apply andb_true_iff in Hd as [? Hd]).
  destruct (digit_not_space d1) as (Hd1 & Hd1' & Hd1''); [done|].
  destruct (digit_not_space d2) as (Hd2 & Hd2' & Hd2''); [done|].
  destruct (digit_not_space y1) as (Hy1 & Hy1' & Hy1''); [done|].
  destruct (digit_not_space y2) as (Hy2 & Hy2' & Hy2''); [done|].
  unfold parseDate, dd_mmm_yy. rewrite trim_not_blank by done.
  unfold parseDate_try. rewrite iso_branch_short.
  assert (forallb JSObject.is_digit [d1; d2] = true) as Hday_digits
    by (simpl; by rewrite H, H0).
  assert (∀ ma mb,
            JSObject.is_digit ma = true → JSObject.is_digit mb = true →
            forallb JSObject.is_digit
              ["2"%char; "0"%char; y1; y2; ma; mb; d1; d2] = true) as Hiso.
  { intros ma mb Hma Hmb. simpl. by rewrite H, H0, H1, H2, Hma, Hmb. }
  do 12 (destruct i as [|i];
    [injection Hmonth as <- <- <- <-;
     unfold delhivery_branch;
     cbn [JSString.includes]; rewrite ?Hd1', ?Hd2', ?Hy1', ?Hy2'; cbn;
     unfold bluedart_branch;
     repeat (progress (cbn -[new_Date JSString.trim];
       rewrite ?Hd1, ?Hd2, ?Hy1, ?Hy2, ?Hd1', ?Hd2', ?Hy1', ?Hy2'));
     rewrite !trim_two by done;
     match goal with
     | |- context [JSString.trim ?s] =>
         let s' := eval vm_compute in (JSString.trim s) in
         change (JSString.trim s) with s'
     end;
     cbn -[new_Date JSString.padStart String.append];
     erewrite new_Date_utc_midnight;
       [reflexivity
       |eapply (match_iso_date_digits "2" "0" y1 y2 _ _ d1 d2), Hiso; reflexivity
       |exact Hday]
    |]).
  discriminate Hmonth.
Qed.

(** X28. A text [DD-MM-YYYY], a space, and a time of day (any text
    without a hyphen) that names a day of the calendar is parsed as
    midnight UTC of that day: the time of day is dropped. *)
Theorem parseDate_delhivery_datetime (d1 d2 m1 m2 y1 y2 y3 y4 : ascii)
    (time : string) (t : Z) :
  forallb JSObject.is_digit [y1; y2; y3; y4; m1; m2; d1; d2] = true →
  JSString.includes "-" time = false →
  Calendar.utc_midnight
    (1000 * Calendar.digit y1 + 100 * Calendar.digit y2
     + 10 * Calendar.digit y3 + Calendar.digit y4)
    (10 * Calendar.digit m1 + Calendar.digit m2)
    (10 * Calendar.digit d1 + Calendar.digit d2) = Some t →
  parseDate now parseISO Date_parse_fallback inherited_text
    (dd_mm_yyyy_time d1 d2 m1 m2 y1 y2 y3 y4 time)
  = Normal (TimeValue t).
Proof.
  intros Hdigits Htime Hday.
  pose proof Hdigits as Hd. simpl in Hd.
  repeat (apply andb_true_iff in Hd as [? Hd]).
  destruct (digit_not_space d1) as (Hd1 & Hd1' & Hd1''); [done|].
  destruct (digit_not_space d2) as (Hd2 & Hd2' & Hd2''); [done|].
  destruct (digit_not_space m1) as (Hm1 & Hm1' & Hm1''); [done|].
  destruct (digit_not_space m2) as (Hm2 & Hm2' & Hm2''); [done|].
  destruct (digit_not_space y1) as (Hy1 & Hy1' & Hy1''); [done|].
  destruct (digit_not_space y2) as (Hy2 & Hy2' & Hy2''); [done|].
  destruct (digit_not_space y3) as (Hy3 & Hy3' & Hy3''); [done|].
  destruct (digit_not_space y4) as (Hy4 & Hy4' & Hy4''); [done|].
  unfold parseDate, dd_mm_yyyy_time. rewrite trim_not_blank by done.
  unfold parseDate_try.
  assert (∀ s, iso_branch Date_parse_fallback
                 (String d1 (String d2 (String "-" (String m1 (String m2
                    (String "-" (String y1 (String y2 (String y3 (String y4
                       (String " " s)))))))))))
               = Normal None) as -> by done.
  cbn [bind].
  unfold delhivery_branch.
  repeat (progress (cbn -[new_Date JSString.padStart String.append];
    rewrite ?Hd1, ?Hd2, ?Hm1, ?Hm2, ?Hy1, ?Hy2, ?Hy3, ?Hy4,
      ?Hd1', ?Hd2', ?Hm1', ?Hm2', ?Hy1', ?Hy2', ?Hy3', ?Hy4',
      ?(split_no_sep "-" time Htime))).
  erewrite new_Date_utc_midnight;
    [reflexivity
    |by apply (match_iso_date_digits y1 y2 y3 y4 m1 m2 d1 d2)
    |exact Hday].
Qed.

End DateFormats.

Lemma parseDate_iso_day_witness :
  parseDate 0 (fun _ => InvalidDate) (fun _ => InvalidDate) (fun k => k)
    "2025-07-07" = Normal (TimeValue 1751846400000).
Proof.
  apply (parseDate_iso_day 0 (fun _ => InvalidDate) (fun _ => InvalidDate)
           (fun k => k) "2025-07-07" 2025 7 7); reflexivity.
Defined.

Lemma parseDate_bluedart_day_witness :
  parseDate 0 (fun _ => InvalidDate) (fun _ => InvalidDate) (fun k => k)
    "07-Jul-25" = Normal (TimeValue 1751846400000).
Proof.
  apply (parseDate_bluedart_day 0 (fun _ => InvalidDate) (fun _ => InvalidDate)
           (fun k => k) 6 "07" "0" "7" "J" "u" "l" "2" "5"); reflexivity.
Defined.

Lemma parseDate_delhivery_datetime_witness :
  parseDate 0 (fun _ => InvalidDate) (fun _ => InvalidDate) (fun k => k)
    "28-07-2025 07:48" = Normal (TimeValue 1753660800000).
Proof.
  apply (parseDate_delhivery_datetime 0 (fun _ => InvalidDate)
           (fun _ => InvalidDate) (fun k => k)
           "2" "8" "0" "7" "2" "0" "2" "5" "07:48"); reflexivity.
Defined.

(** * The decimals of [toFixed] *)

Lemma length_append (a b : string) :
  String.length (a +:+ b) = (String.length a + String.length b)%nat.
Proof.
  induction a as [|c a IH]; [done|].
  change (String c a +:+ b) with (String c (a +:+ b)). simpl. by rewrite IH.
Qed.

Lemma substring_all (s : string) : String.substring 0 (String.length s) s = s.
Proof. induction s as [|c s IH]; simpl; [done|]. by rewrite IH. Qed.

Lemma substring_split (s : string) : ∀ k,
  (k ≤ String.length s)%nat →
  String.substring 0 k s +:+ String.substring k (String.length s - k) s = s.
Proof.
  induction s as [|c s IH]; intros [|k] Hk; simpl in *; try lia.
  - done.
  - change ("" +:+ ?x) with x. by rewrite substring_all.
  - change (String c ?a +:+ ?b) with (String c (a +:+ b)).
    rewrite IH by lia. done.
Qed.

Lemma length_substring_0 (s : string) : ∀ k,
  (k ≤ String.length s)%nat → String.length (String.substring 0 k s) = k.
Proof.
  induction s as [|c s IH]; intros [|k] Hk; simpl in *; try lia; try done.
  rewrite IH; lia.
Qed.

Lemma digits_value_append (a b : string) : ∀ acc,
  JSObject.digits_value (a +:+ b) acc
  = match JSObject.digits_value a acc with
    | Some v => JSObject.digits_value b v
    | None => None
    end.
Proof.
  induction a as [|c a IH]; intros acc; [done|].
  change (String c a +:+ b) with (String c (a +:+ b)). simpl.
  destruct (JSObject.is_digit c); [apply IH | done].
Qed.

Lemma digits_value_zeros n :
  JSObject.digits_value (JSString.repeat_char "0" n) 0 = Some 0%N.
Proof. induction n as [|n IH]; [done|]. simpl. apply IH. Qed.

Lemma digits_value_uint_acc (d : Decimal.uint) : ∀ p,
  JSObject.digits_value (DecimalString.NilEmpty.string_of_uint d) (N.pos p)
  = Some (N.pos (Pos.of_uint_acc d p)).
Proof.
  induction d; intros p; simpl; [done|..];
    match goal with
    | |- JSObject.digits_value _ ?acc = Some (N.pos (Pos.of_uint_acc _ ?q)) =>
        replace acc with (N.pos q)
          by (unfold JSObject.digit_value; simpl N_of_ascii; lia)
    end; auto.
Qed.

Lemma digits_value_uint (d : Decimal.uint) :
  JSObject.digits_value (DecimalString.NilEmpty.string_of_uint d) 0
  = Some (Pos.of_uint d).
Proof.
  induction d; simpl; [done | apply IHd |..];
    match goal with
    | |- JSObject.digits_value _ ?acc = Some (N.pos (Pos.of_uint_acc _ ?q)) =>
        replace acc with (N.pos q)
          by (unfold JSObject.digit_value; simpl N_of_ascii; lia)
    end; apply digits_value_uint_acc.
Qed.

Lemma digits_value_decimal_digits (n : N) :
  JSObject.digits_value (decimal_digits n) 0 = Some n.
Proof.
  unfold decimal_digits. rewrite <- (DecimalN.Unsigned.of_to n) at 2.
  unfold N.of_uint.
  destruct (N.to_uint n) eqn:Hd; try apply digits_value_uint.
  reflexivity.
Qed.

Lemma padStart_length n c s :
  (n ≤ String.length (JSString.padStart n c s))%nat.
Proof.
  unfold JSString.padStart. rewrite length_append.
  assert (String.length (JSString.repeat_char c (n - String.length s))
          = (n - String.length s)%nat) as ->; [|lia].
  induction (n - String.length s)%nat as [|k IH]; simpl; [done|]. by rewrite IH.
Qed.

Lemma digits_value_padStart n s :
  JSObject.digits_value (JSString.padStart n "0" s) 0
  = JSObject.digits_value s 0.
Proof.
  unfold JSString.padStart. by rewrite digits_value_append, digits_value_zeros.
Qed.

(** X30. [toFixed] with [f > 0] decimals, on a number from 0 up to 10^21:
    the text is a non-empty whole part, a point and exactly [f] decimals,
    all of them digits, and the digits read as the number scaled by
    [10^f] and rounded to the nearest integer, halves upwards.  A negative
    number is written as a minus sign before the text of its opposite. *)
Theorem toFixed_decimals (Number_toString : number → string) (f : nat)
    (x : number) :
  (x < 0 →
   toFixed Number_toString f x = "-" +:+ toFixed Number_toString f (- x)) ∧
  ((0 < f)%nat → 0 <= x → x < inject_Z (10 ^ 21) →
   ∃ whole frac,
     toFixed Number_toString f x = whole +:+ "." +:+ frac ∧
     String.length frac = f ∧ whole ≠ "" ∧
     JSObject.digits_value (whole +:+ frac) 0
     = Some (Z.to_N (Qfloor (x * inject_Z (10 ^ Z.of_nat f) + (1 # 2))))).
Proof.
  split.
  - intros Hneg. unfold toFixed.
    assert (Qltb x 0 = true) as -> by (by apply Qltb_lt).
    assert (Qltb (- x) 0 = false) as -> by (apply Qltb_ge; lra).
    done.
  - intros Hf Hpos Hbig. unfold toFixed.
    assert (Qltb x 0 = false) as -> by (by apply Qltb_ge).
    assert (Qle_bool (inject_Z (10 ^ 21)) x = false) as ->
      by (by apply Qle_bool_false).
    destruct (Nat.eqb_spec f 0) as [?|_]; [lia|].
    set (n := Z.to_N (Qfloor (x * inject_Z (10 ^ Z.of_nat f) + (1 # 2)))).
    set (m := JSString.padStart (f + 1) "0" (decimal_digits n)).
    pose proof (padStart_length (f + 1) "0" (decimal_digits n)) as Hlen.
    fold m in Hlen. remember (String.length m) as k eqn:Hk.
    exists (String.substring 0 (k - f) m), (String.substring (k - f) f m).
    pose proof (substring_split m (k - f) ltac:(lia)) as Hsplit.
    replace (String.length m - (k - f))%nat with f in Hsplit by lia.
    split_and!.
    + done.
    + apply (f_equal String.length) in Hsplit.
      rewrite length_append, length_substring_0 in Hsplit by lia. lia.
    + intros Hempty. apply (f_equal String.length) in Hempty.
      rewrite length_substring_0 in Hempty by lia. simpl in Hempty. lia.
    + rewrite Hsplit. unfold m.
      by rewrite digits_value_padStart, digits_value_decimal_digits.
Qed.

Lemma toFixed_decimals_witness :
  toFixed (fun _ => EmptyString) 2 (-87.4375) = "-87.44"
  ∧ toFixed (fun _ => EmptyString) 3 0.5 = "0.500".
Proof.
  split.
  - rewrite (proj1 (toFixed_decimals (fun _ => EmptyString) 2 (-87.4375)))
      by reflexivity.
    reflexivity.
  - destruct (proj2 (toFixed_decimals (fun _ => EmptyString) 3 0.5))
      as (whole & frac & Heq & _); [lia | discriminate | reflexivity |].
    reflexivity.
Defined.
